(** * The session log buffer of playwright-mcp

    A shallow embedding of the log buffer module of the server, the
    module that the backend requires as [./log-buffer] (classes
    [LogEvent] and [LogBuffer], the constants [LOG_LEVELS],
    [REDACTION_PATTERNS], [REDACTED] and [MAX_STACK_LINES]), and the
    properties of its retention policy,
    sequence numbering, sanitisation, stack-trace truncation, cursor codec
    and paginated read.

    The embedding also covers the code of the server around the module:
    [createLogger]; the statements of [callTool] of the patched backend
    that log the start of a tool, with [_sanitizeArguments]; the handler
    of the tool [read_log]; [resolveUrl] of the tool that sets up a page
    and [parseTestResults] of the tool that runs tests.

    Conventions of the embedding:
    - a JavaScript string is a [string]: a sequence of code units, every
      code unit below 256;
    - the integer counters of the buffer ([_seq], [_totalBytes], sizes,
      limits) are [Z]; JavaScript computes them exactly below 2^53;
    - a number inside a JSON value is a [jsnum], the exact decimal value
      of its literal; the rounding of a literal to a double (a literal
      of more than 15 significant digits, or of a magnitude that no
      double has) is not modelled, and the properties of a read that
      starts at a cursor tell the whole number it starts at;
    - a count of [parseTestResults] is a double: a whole number that a
      double holds, an infinity or [NaN]; [parseInt] and [+] round to
      the nearest double;
    - a structured payload is a JSON value; an object is the list of its
      entries in the order of [Object.entries], one entry for a key; an
      entry may have the key [__proto__], as an object that [JSON.parse]
      made can have;
    - a method that mutates the buffer takes the buffer and returns the
      new one together with its result; a method that may throw returns
      a [completion];
    - the wall clock ([new Date().toISOString()]) is an argument;
    - the message of [append] is a string, as its documentation says. *)

From Stdlib Require Import ZArith NArith List String Ascii Bool Lia.
Import ListNotations.

Local Open Scope Z_scope.

(** ** Characters and strings *)

Module Str.

Definition code (c : ascii) : N := N_of_ascii c.

Definition chr (n : N) : ascii := ascii_of_N n.

Definition between (lo hi : N) (c : ascii) : bool :=
  ((lo <=? code c) && (code c <=? hi))%N.

Definition is_digit : ascii -> bool := between 48 57.
Definition is_upper : ascii -> bool := between 65 90.
Definition is_lower : ascii -> bool := between 97 122.
Definition is_alnum (c : ascii) : bool := is_digit c || is_upper c || is_lower c.

(** The double quote, the single quote, the backslash and the line feed
    as characters. *)
Definition dquote : ascii := chr 34.
Definition squote : ascii := chr 39.
Definition backslash : ascii := chr 92.
Definition newline : ascii := chr 10.

Definition dq : string := String dquote EmptyString.
Definition nl : string := String newline EmptyString.

(** White space of [String.prototype.trim] and of the regular expression
    class [\s], among the code units below 256. *)
Definition is_space (c : ascii) : bool :=
  between 9 13 c || (code c =? 32)%N || (code c =? 160)%N.

(** [String.prototype.toLowerCase] on one code unit below 256. *)
Definition lower (c : ascii) : ascii :=
  if is_upper c then chr (code c + 32)
  else if between 192 222 c && negb (code c =? 215)%N then chr (code c + 32)
  else c.

Fixpoint toLowerCase (s : string) : string :=
  match s with
  | EmptyString => EmptyString
  | String c r => String (lower c) (toLowerCase r)
  end.

(** [s.length] *)
Fixpoint len (s : string) : Z :=
  match s with
  | EmptyString => 0
  | String _ r => 1 + len r
  end.

(** [s.startsWith(p)] *)
Fixpoint startsWith (p s : string) : bool :=
  match p, s with
  | EmptyString, _ => true
  | String a p', String b s' => Ascii.eqb a b && startsWith p' s'
  | String _ _, EmptyString => false
  end.

(** [s.includes(p)] *)
Fixpoint includes (p s : string) : bool :=
  startsWith p s ||
  match s with
  | EmptyString => false
  | String _ r => includes p r
  end.

(** [s.indexOf(c)] for a one-character needle; [None] stands for -1. *)
Fixpoint indexOf (c : ascii) (s : string) : option nat :=
  match s with
  | EmptyString => None
  | String a r =>
      if Ascii.eqb a c then Some O
      else match indexOf c r with
           | Some i => Some (S i)
           | None => None
           end
  end.

(** [s.substring(0, n)] *)
Fixpoint take (n : nat) (s : string) : string :=
  match n, s with
  | S n', String c r => String c (take n' r)
  | _, _ => EmptyString
  end.

Fixpoint drop (n : nat) (s : string) : string :=
  match n, s with
  | S n', String _ r => drop n' r
  | _, _ => s
  end.

Fixpoint trimStart (s : string) : string :=
  match s with
  | String c r => if is_space c then trimStart r else s
  | EmptyString => EmptyString
  end.

(** Drops the trailing white space: a character is kept when it is not
    white space or something is kept after it. *)
Fixpoint trimEnd (s : string) : string :=
  match s with
  | EmptyString => EmptyString
  | String c r =>
      match trimEnd r with
      | EmptyString => if is_space c then EmptyString else String c EmptyString
      | r' => String c r'
      end
  end.

(** [s.trim()] *)
Definition trim (s : string) : string := trimEnd (trimStart s).

(** [s.split(sep)] for a one-character separator: never empty. *)
Fixpoint split (sep : ascii) (s : string) : list string :=
  match s with
  | EmptyString => [EmptyString]
  | String c r =>
      if Ascii.eqb c sep then EmptyString :: split sep r
      else match split sep r with
           | l :: ls => String c l :: ls
           | [] => [String c EmptyString]
           end
  end.

(** [lines.join(sep)] *)
Fixpoint join (sep : string) (l : list string) : string :=
  match l with
  | [] => EmptyString
  | [x] => x
  | x :: r => (x ++ sep ++ join sep r)%string
  end.

Fixpoint repeat (c : ascii) (n : nat) : string :=
  match n with
  | O => EmptyString
  | S n' => String c (repeat c n')
  end.

End Str.

(** ** Numbers *)

Module Num.

(** Decimal digits of a non-negative integer, most significant first.
    The fuel bounds the number of digits. *)
Fixpoint digits_fuel (fuel : nat) (n : Z) (acc : string) : string :=
  match fuel with
  | O => acc
  | S f =>
      let acc' := String (Str.chr (48 + Z.to_N (n mod 10))) acc in
      if n <? 10 then acc' else digits_fuel f (n / 10) acc'
  end.

Definition digits (n : Z) : string :=
  digits_fuel (S (Z.to_nat (Z.log2 n))) n EmptyString.

(** The exact value [mant / 10^scale]. *)
Record jsnum := Dec { mant : Z; scale : nat }.

Definition of_Z (z : Z) : jsnum := Dec z 0.

Definition pow10 (k : nat) : Z := 10 ^ Z.of_nat k.

(** Canonical form: scale 0, or a mantissa that 10 does not divide. *)
Fixpoint strip (m : Z) (k : nat) : jsnum :=
  match k with
  | O => Dec m 0
  | S k' => if m mod 10 =? 0 then strip (m / 10) k' else Dec m k
  end.

Definition norm (x : jsnum) : jsnum := strip (mant x) (scale x).

Definition leb (x y : jsnum) : bool :=
  mant x * pow10 (scale y) <=? mant y * pow10 (scale x).

Definition ltb (x y : jsnum) : bool :=
  mant x * pow10 (scale y) <? mant y * pow10 (scale x).

Definition eqb (x y : jsnum) : bool :=
  mant x * pow10 (scale y) =? mant y * pow10 (scale x).

(** [Math.max(x, y)] *)
Definition max (x y : jsnum) : jsnum := if leb x y then y else x.

Fixpoint strip_zeros_rev (s : list ascii) : list ascii :=
  match s with
  | c :: r => if Ascii.eqb c (Str.chr 48) then strip_zeros_rev r else s
  | [] => []
  end.

Definition strip_trailing_zeros (s : string) : string :=
  string_of_list_ascii
    (rev (strip_zeros_rev (rev (list_ascii_of_string s)))).

(** [Number.prototype.toString] of ECMAScript on the digit string [s] of
    the value [0.s * 10^n]. *)
Definition format (s : string) (n : Z) : string :=
  let k := Str.len s in
  if (k <=? n) && (n <=? 21) then
    (s ++ Str.repeat (Str.chr 48) (Z.to_nat (n - k)))%string
  else if (0 <? n) && (n <=? 21) then
    (Str.take (Z.to_nat n) s ++ "." ++ Str.drop (Z.to_nat n) s)%string
  else if (-6 <? n) && (n <=? 0) then
    ("0." ++ Str.repeat (Str.chr 48) (Z.to_nat (- n)) ++ s)%string
  else
    let e := n - 1 in
    let sign := if e <? 0 then "-"%string else "+"%string in
    let es := (sign ++ digits (Z.abs e))%string in
    if k =? 1 then (s ++ "e" ++ es)%string
    else (Str.take 1 s ++ "." ++ Str.drop 1 s ++ "e" ++ es)%string.

(** The text of a number, as [JSON.stringify] and string conversion
    print it. *)
Definition to_string (x : jsnum) : string :=
  let x' := norm x in
  let m := mant x' in
  if m =? 0 then "0"%string
  else
    let ds := digits (Z.abs m) in
    let body := format (strip_trailing_zeros ds)
                       (Str.len ds - Z.of_nat (scale x')) in
    if m <? 0 then ("-" ++ body)%string else body.

End Num.

Import Num.

(** ** JSON values and [JSON.stringify] *)

(** The values a structured payload is made of. An object keeps its
    entries in the order [Object.entries] lists them. *)
#[local] Unset Elimination Schemes.
Inductive jval :=
| JNull
| JBool (b : bool)
| JNum (x : jsnum)
| JStr (s : string)
| JArr (items : list jval)
| JObj (entries : list (string * jval)).
#[local] Set Elimination Schemes.

Module Json.

(** Truthiness of a value, as [data ? _ : _] and [if (this.data)] test
    it. *)
Definition truthy (v : jval) : bool :=
  match v with
  | JNull => false
  | JBool b => b
  | JNum x => negb (mant x =? 0)
  | JStr s => negb (Str.len s =? 0)
  | JArr _ | JObj _ => true
  end.

Definition hex (n : N) : ascii :=
  if (n <? 10)%N then Str.chr (48 + n) else Str.chr (87 + n).

(** One character inside a quoted JSON string. *)
Definition escape (c : ascii) : string :=
  let n := Str.code c in
  let esc (x : string) := String Str.backslash x in
  if (n =? 34)%N then esc Str.dq
  else if (n =? 92)%N then esc (String Str.backslash EmptyString)
  else if (n =? 8)%N then esc "b"%string
  else if (n =? 9)%N then esc "t"%string
  else if (n =? 10)%N then esc "n"%string
  else if (n =? 12)%N then esc "f"%string
  else if (n =? 13)%N then esc "r"%string
  else if (n <? 32)%N then
    esc (String "u" (String "0" (String "0"
          (String (hex (n / 16)) (String (hex (n mod 16)) EmptyString)))))%N
  else String c EmptyString.

Fixpoint escape_all (s : string) : string :=
  match s with
  | EmptyString => EmptyString
  | String c r => (escape c ++ escape_all r)%string
  end.

Definition quote (s : string) : string :=
  (Str.dq ++ escape_all s ++ Str.dq)%string.

(** [JSON.stringify(v)] without indentation. *)
Fixpoint stringify (v : jval) : string :=
  match v with
  | JNull => "null"
  | JBool true => "true"
  | JBool false => "false"
  | JNum x => Num.to_string x
  | JStr s => quote s
  | JArr items =>
      ("[" ++ Str.join "," (map stringify items) ++ "]")%string
  | JObj entries =>
      ("{" ++ Str.join ","
                (map (fun kv => (quote (fst kv) ++ ":" ++ stringify (snd kv))%string)
                     entries)
           ++ "}")%string
  end.

(** [obj[key]] on a parsed object: the last entry of that name. *)
Fixpoint get (key : string) (entries : list (string * jval)) : option jval :=
  match entries with
  | [] => None
  | (k, v) :: r =>
      match get key r with
      | Some v' => Some v'
      | None => if String.eqb k key then Some v else None
      end
  end.

End Json.

(** ** Regular expressions

    The fragment of the JavaScript regular expressions that
    [REDACTION_PATTERNS] is written in, with the backtracking order of the
    language: alternatives left to right, repetition greedy. Letters of a
    literal are compared ignoring case (flag [i]). *)

Module Regex.

Inductive regex :=
| Eps
| Cls (p : ascii -> bool)
| Lit (l : string)
| Seq (a b : regex)
| Alt (a b : regex)
| Star (p : ascii -> bool).

Definition Plus (p : ascii -> bool) : regex := Seq (Cls p) (Star p).
Definition Opt (a : regex) : regex := Alt a Eps.

Fixpoint AtLeast (n : nat) (p : ascii -> bool) : regex :=
  match n with
  | O => Star p
  | S n' => Seq (Cls p) (AtLeast n' p)
  end.

Fixpoint seqs (rs : list regex) : regex :=
  match rs with
  | [] => Eps
  | [r] => r
  | r :: rest => Seq r (seqs rest)
  end.

Fixpoint lit (l s : string) : option string :=
  match l, s with
  | EmptyString, _ => Some s
  | String a l', String b s' =>
      if Ascii.eqb (Str.lower a) (Str.lower b) then lit l' s' else None
  | String _ _, EmptyString => None
  end.

(** [star p k s]: the longest run of [p] first, then shorter ones, until
    the continuation [k] accepts what is left. *)
Fixpoint star (p : ascii -> bool) (k : string -> option string) (s : string)
  : option string :=
  match s with
  | String c r =>
      if p c then
        match star p k r with
        | Some x => Some x
        | None => k s
        end
      else k s
  | EmptyString => k s
  end.

(** [rmatch r k s]: match [r] at the start of [s] and hand what is left
    to [k]; the result is what is left after the whole match. *)
Fixpoint rmatch (r : regex) (k : string -> option string) (s : string)
  : option string :=
  match r with
  | Eps => k s
  | Cls p =>
      match s with
      | String c s' => if p c then k s' else None
      | EmptyString => None
      end
  | Lit l =>
      match lit l s with
      | Some s' => k s'
      | None => None
      end
  | Seq a b => rmatch a (rmatch b k) s
  | Alt a b =>
      match rmatch a k s with
      | Some x => Some x
      | None => rmatch b k s
      end
  | Star p => star p k s
  end.

(** Length of the match of [r] at the start of [s], if there is one. *)
Definition match_at (r : regex) (s : string) : option nat :=
  match rmatch r Some s with
  | Some rest => Some (String.length s - String.length rest)%nat
  | None => None
  end.

(** [s.replace(r, f)] for a global [r]: the matches are found from left
    to right and do not overlap. [skip] counts the characters of the
    current match still to be dropped. *)
Fixpoint replace_from (r : regex) (f : string -> string) (skip : nat) (s : string)
  : string :=
  match s with
  | EmptyString =>
      match skip, match_at r EmptyString with
      | O, Some _ => f EmptyString
      | _, _ => EmptyString
      end
  | String c s' =>
      match skip with
      | S n => replace_from r f n s'
      | O =>
          match match_at r s with
          | Some O => (f EmptyString ++ String c (replace_from r f O s'))%string
          | Some (S n) => (f (Str.take (S n) s) ++ replace_from r f n s')%string
          | None => String c (replace_from r f O s')
          end
      end
  end.

Definition replace (r : regex) (f : string -> string) (s : string) : string :=
  replace_from r f O s.

End Regex.

Import Regex.

(** ** Constants of the module *)

Definition LOG_LEVELS : list string :=
  ["debug"; "info"; "warn"; "error"]%string.

Definition REDACTED : string := "***REDACTED***".

Definition MAX_STACK_LINES : Z := 40.

(** [array.includes(x)] on strings. *)
Definition includes_str (x : string) (l : list string) : bool :=
  existsb (String.eqb x) l.

(** ** Sanitisation *)

Module Patterns.

(** The character classes of the patterns. *)
Definition quote_ (c : ascii) : bool :=
  Ascii.eqb c Str.squote || Ascii.eqb c Str.dquote.
Definition not_quote (c : ascii) : bool := negb (quote_ c).
Definition sep (c : ascii) : bool :=
  quote_ c || Ascii.eqb c ":" || Str.is_space c.
Definition word (c : ascii) : bool :=
  Str.is_alnum c || Ascii.eqb c "-" || Ascii.eqb c "_".
Definition b64 (c : ascii) : bool :=
  Str.is_alnum c || Ascii.eqb c "+" || Ascii.eqb c "/" || Ascii.eqb c "=".
Definition dash (c : ascii) : bool := Ascii.eqb c "_" || Ascii.eqb c "-".
Definition dot (c : ascii) : bool := Ascii.eqb c ".".

(** [['":\s]*['"]] *)
Definition open_quote : regex := Seq (Star sep) (Cls quote_).

(** [name['":\s]*['"][^'"]+['"]] for a key written as the regular
    expression [name]. *)
Definition quoted_value (name : regex) : regex :=
  seqs [name; open_quote; Plus not_quote; Cls quote_].

Definition key1 (a : string) : regex := Lit a.
Definition key2 (a b : string) : regex := seqs [Lit a; Opt (Cls dash); Lit b].

Definition scheme : regex :=
  Alt (Lit "Bearer") (Alt (Lit "Basic") (Alt (Lit "Digest") (Lit "OAuth"))).

End Patterns.

Import Patterns.

Definition REDACTION_PATTERNS : list regex :=
  [ (* Authorization headers *)
    seqs [Lit "authorization"; open_quote; scheme; Plus Str.is_space;
          Plus not_quote; Cls quote_];
    seqs [Lit "Bearer"; Plus Str.is_space; Plus word; Cls dot; Plus word;
          Cls dot; Plus word];
    seqs [Lit "Basic"; Plus Str.is_space; Plus b64];
    (* Cookie values *)
    quoted_value (key1 "cookie");
    quoted_value (key1 "set-cookie");
    (* Access tokens *)
    quoted_value (key2 "access" "token");
    quoted_value (key2 "refresh" "token");
    quoted_value (key2 "id" "token");
    (* API keys *)
    quoted_value (key2 "api" "key");
    quoted_value (key1 "apikey");
    quoted_value (key1 "x-api-key");
    (* Passwords and secrets *)
    quoted_value (key1 "password");
    quoted_value (key1 "passwd");
    quoted_value (key1 "secret");
    quoted_value (key2 "private" "key");
    (* AWS credentials *)
    quoted_value (seqs [Lit "aws"; Opt (Cls dash); Lit "access"; Opt (Cls dash);
                        Lit "key"; Opt (Cls dash); Lit "id"]);
    quoted_value (seqs [Lit "aws"; Opt (Cls dash); Lit "secret"; Opt (Cls dash);
                        Lit "access"; Opt (Cls dash); Lit "key"]);
    (* Generic token patterns *)
    seqs [Lit "token"; open_quote; AtLeast 20 word; Cls quote_] ].

(** The replacement callback of [_sanitize]: keep the key name up to the
    first colon (or else the first equals sign) and redact the value. *)
Definition redact_match (match_ : string) : string :=
  let colonIndex := Str.indexOf ":" match_ in
  let equalsIndex := Str.indexOf "=" match_ in
  let separatorIndex :=
    match colonIndex with
    | Some i => Some i
    | None => equalsIndex
    end in
  match separatorIndex with
  | Some i => (Str.take (S i) match_ ++ " " ++ Str.dq ++ REDACTED ++ Str.dq)%string
  | None => REDACTED
  end.

(** [LogBuffer._sanitize] on a string. *)
Definition _sanitize (text : string) : string :=
  fold_left (fun result pattern => Regex.replace pattern redact_match result)
            REDACTION_PATTERNS text.

Definition sensitive_words : list string :=
  ["password"; "secret"; "token"; "apikey"; "api_key"; "authorization";
   "cookie"; "credential"]%string.

(** The test on [lowerKey] in [_sanitizeObject]. *)
Definition is_sensitive_key (key : string) : bool :=
  let lowerKey := Str.toLowerCase key in
  existsb (fun w => Str.includes w lowerKey) sensitive_words.

(** What the assignments [result[key] = ...] leave in [result]: an
    assignment to the key [__proto__] sets the prototype of [result], or
    does nothing when the value is not an object, and makes no entry;
    every other key gets its entry. *)
Definition own_entry (kv : string * jval) : bool :=
  negb (String.eqb (fst kv) "__proto__").

(** [LogBuffer._sanitizeObject] *)
Fixpoint _sanitizeObject (obj : jval) : jval :=
  match obj with
  | JNull => JNull
  | JStr s => JStr (_sanitize s)
  | JArr items => JArr (map _sanitizeObject items)
  | JObj entries =>
      JObj (filter own_entry
              (map (fun kv =>
                      let key := fst kv in
                      let value := snd kv in
                      if is_sensitive_key key then (key, JStr REDACTED)
                      else match value with
                           | JNull | JArr _ | JObj _ => (key, _sanitizeObject value)
                           | JStr s => (key, JStr (_sanitize s))
                           | _ => (key, value)
                           end)
                   entries))
  | _ => obj
  end.

(** ** Stack-trace truncation *)

(** [lines.slice(0, end)]: a negative [end] counts from the end of the
    array. *)
Definition slice0 {A} (l : list A) (end_ : Z) : list A :=
  let n := Z.of_nat (List.length l) in
  let e := if end_ <? 0 then Z.max (n + end_) 0 else Z.min end_ n in
  firstn (Z.to_nat e) l.

Definition is_frame (line : string) : bool :=
  Str.startsWith "at " (Str.trim line).

(** Index of the first line that looks like a stack frame. *)
Fixpoint find_frame (lines : list string) : option nat :=
  match lines with
  | [] => None
  | l :: r =>
      if is_frame l then Some O
      else match find_frame r with
           | Some i => Some (S i)
           | None => None
           end
  end.

Definition zlength {A} (l : list A) : Z := Z.of_nat (List.length l).

(** [LogBuffer._truncateStackTrace] *)
Definition _truncateStackTrace (message : string) : string :=
  let lines := Str.split Str.newline message in
  if zlength lines <=? MAX_STACK_LINES then message
  else
    match find_frame lines with
    | None =>
        (Str.join Str.nl (slice0 lines MAX_STACK_LINES)
           ++ Str.nl ++ "... (truncated)")%string
    | Some stackStart =>
        let messageLines := firstn stackStart lines in
        let stackLines := skipn stackStart lines in
        let maxStackLines := MAX_STACK_LINES - zlength messageLines in
        if zlength stackLines <=? maxStackLines then message
        else
          let truncatedStack := slice0 stackLines maxStackLines in
          let omitted := zlength stackLines - maxStackLines in
          Str.join Str.nl
            (messageLines ++ truncatedStack ++
             [("... (" ++ Num.to_string (of_Z omitted) ++ " more stack frames)")%string])
    end.

(** ** Log events *)

Record LogEvent := mkEvent {
  seq : Z;
  ts : string;
  level : string;
  source : string;
  message : string;
  data : jval;
  _size : Z
}.

(** [LogEvent._calculateSize] *)
Definition _calculateSize (ts level source message : string) (data : jval) : Z :=
  let size := Str.len ts + Str.len level + Str.len source + Str.len message + 100 in
  if Json.truthy data then size + Str.len (Json.stringify data) else size.

(** [new LogEvent(seq, level, source, message, data)] at clock reading
    [now]. *)
Definition new_LogEvent (now : string) (seq : Z) (level source message : string)
    (data : jval) : LogEvent :=
  mkEvent seq now level source message data
          (_calculateSize now level source message data).

(** What a reader gets of an event. *)
Record EventView := mkView {
  v_ts : string;
  v_level : string;
  v_source : string;
  v_message : string;
  v_data : jval
}.

(** [LogEvent.toJSON] *)
Definition toJSON (includeStructured : bool) (e : LogEvent) : EventView :=
  mkView (ts e) (level e) (source e) (message e)
         (if includeStructured then data e else JNull).

Definition view_value (v : EventView) : jval :=
  JObj [("ts", JStr (v_ts v)); ("level", JStr (v_level v));
        ("source", JStr (v_source v)); ("message", JStr (v_message v));
        ("data", v_data v)]%string.

(** ** The buffer *)

Record Config := mkConfig { maxEvents : Z; maxBytes : Z }.

Definition DEFAULT_CONFIG : Config := mkConfig 10000 (10 * 1024 * 1024).

(** The argument of the constructor: each field may be left out. *)
Record ConfigArg := mkConfigArg { arg_maxEvents : option Z; arg_maxBytes : option Z }.

Definition no_config : ConfigArg := mkConfigArg None None.

Record LogBuffer := mkBuffer {
  _config : Config;
  _events : list LogEvent;
  _seq : Z;
  _totalBytes : Z;
  _droppedCount : Z;
  _earliestRetainedSeq : Z
}.

(** [new LogBuffer(config)] *)
Definition new_LogBuffer (config : ConfigArg) : LogBuffer :=
  mkBuffer
    (mkConfig
       (match arg_maxEvents config with Some n => n | None => maxEvents DEFAULT_CONFIG end)
       (match arg_maxBytes config with Some n => n | None => maxBytes DEFAULT_CONFIG end))
    [] 0 0 0 0.

(** [LogBuffer._enforceRetention]: the loop runs once per retained event
    at most, and stops on an empty list ([shift] returns [undefined]). *)
Fixpoint enforce (cfg : Config) (seq_ : Z) (events : list LogEvent)
    (totalBytes droppedCount earliest : Z) : LogBuffer :=
  if (zlength events >? maxEvents cfg) || (totalBytes >? maxBytes cfg) then
    match events with
    | dropped :: rest =>
        enforce cfg seq_ rest (totalBytes - _size dropped) (droppedCount + 1)
                (match rest with
                 | first :: _ => seq first
                 | [] => seq_
                 end)
    | [] => mkBuffer cfg events seq_ totalBytes droppedCount earliest
    end
  else mkBuffer cfg events seq_ totalBytes droppedCount earliest.

Definition _enforceRetention (b : LogBuffer) : LogBuffer :=
  enforce (_config b) (_seq b) (_events b) (_totalBytes b) (_droppedCount b)
          (_earliestRetainedSeq b).

(** The event [append] builds. *)
Definition make_event (now : string) (seq_ : Z) (level source message : string)
    (data : jval) : LogEvent :=
  let level := if includes_str level LOG_LEVELS then level else "info"%string in
  let sanitizedMessage := _sanitize message in
  let sanitizedData := if Json.truthy data then _sanitizeObject data else JNull in
  let truncatedMessage :=
    if negb (String.eqb level "debug") then _truncateStackTrace sanitizedMessage
    else sanitizedMessage in
  new_LogEvent now seq_ level source truncatedMessage sanitizedData.

(** [LogBuffer.append]: the new buffer and the sequence number returned. *)
Definition append (now : string) (level source message : string) (data : jval)
    (b : LogBuffer) : LogBuffer * Z :=
  let seq_ := _seq b + 1 in
  let event := make_event now seq_ level source message data in
  let b1 := mkBuffer (_config b) (_events b ++ [event]) seq_
                     (_totalBytes b + _size event) (_droppedCount b)
                     (_earliestRetainedSeq b) in
  (_enforceRetention b1, seq_).

(** [LogBuffer.clear] *)
Definition clear (b : LogBuffer) : LogBuffer :=
  mkBuffer (_config b) [] (_seq b) 0 0 (_seq b).

Record Stats := mkStats {
  eventCount : Z;
  totalBytes : Z;
  droppedCount : Z;
  currentSeq : Z;
  earliestRetainedSeq : Z
}.

(** [LogBuffer.stats] *)
Definition stats (b : LogBuffer) : Stats :=
  mkStats (zlength (_events b)) (_totalBytes b) (_droppedCount b) (_seq b)
          (_earliestRetainedSeq b).

(** ** The platform functions of the cursor codec *)

(** [Buffer] and base64url. A buffer of bytes is a [string], one character
    per byte. The JSON text of a cursor is ASCII, and its bytes are its
    characters; when a payload is decoded, the bytes of 128 and more stay
    as they are, one code unit each: they can only stand inside the
    strings of a JSON text, which the decoder of the cursor does not read
    beyond the names v and s. *)
Module Base64url.

Definition b64char (n : N) : ascii :=
  if (n <? 26)%N then Str.chr (65 + n)
  else if (n <? 52)%N then Str.chr (71 + n)
  else if (n <? 62)%N then Str.chr (n - 4)
  else if (n =? 62)%N then "-"%char
  else "_"%char.

(** The value of a character of the alphabet; the decoder of Node.js
    takes the characters of base64 and of base64url alike. *)
Definition unbase64 (c : ascii) : option N :=
  let n := Str.code c in
  if Str.is_upper c then Some (n - 65)%N
  else if Str.is_lower c then Some (n - 71)%N
  else if Str.is_digit c then Some (n + 4)%N
  else if (n =? 45)%N || (n =? 43)%N then Some 62%N
  else if (n =? 95)%N || (n =? 47)%N then Some 63%N
  else None.

(** [buffer.toString('base64url')]: no padding. *)
Fixpoint encode (bytes : string) : string :=
  match bytes with
  | String a (String b (String c r)) =>
      let x := Str.code a in
      let y := Str.code b in
      let z := Str.code c in
      String (b64char (x / 4))
        (String (b64char ((x mod 4) * 16 + y / 16))
           (String (b64char ((y mod 16) * 4 + z / 64))
              (String (b64char (z mod 64)) (encode r))))
  | String a (String b EmptyString) =>
      let x := Str.code a in
      let y := Str.code b in
      String (b64char (x / 4))
        (String (b64char ((x mod 4) * 16 + y / 16))
           (String (b64char ((y mod 16) * 4)) EmptyString))
  | String a EmptyString =>
      let x := Str.code a in
      String (b64char (x / 4)) (String (b64char ((x mod 4) * 16)) EmptyString)
  | EmptyString => EmptyString
  end%N.

(** The six-bit values of the input: a character outside the alphabet is
    skipped, an equals sign ends the input. *)
Fixpoint sextets (s : string) : list N :=
  match s with
  | EmptyString => []
  | String c r =>
      if Ascii.eqb c "=" then []
      else match unbase64 c with
           | Some n => n :: sextets r
           | None => sextets r
           end
  end.

Fixpoint bytes_of (l : list N) : string :=
  match l with
  | a :: b :: c :: d :: r =>
      String (Str.chr (a * 4 + b / 16))
        (String (Str.chr ((b mod 16) * 16 + c / 4))
           (String (Str.chr ((c mod 4) * 64 + d)) (bytes_of r)))
  | [a; b; c] =>
      String (Str.chr (a * 4 + b / 16))
        (String (Str.chr ((b mod 16) * 16 + c / 4)) EmptyString)
  | [a; b] => String (Str.chr (a * 4 + b / 16)) EmptyString
  | _ => EmptyString
  end%N.

(** [Buffer.from(s, 'base64url')] *)
Definition decode (s : string) : string := bytes_of (sextets s).

End Base64url.

(** [JSON.parse]: the grammar of JSON read one character at a time, with
    the stack of the arrays and objects that are open. *)
Module Parse.

Inductive frame :=
| FArr (done : list jval)
| FObj (done : list (string * jval)) (key : string).

Inductive nphase :=
| PMinus | PZero | PInt | PDot | PFrac | PE | PESign | PExp.

Record numstate := mkNum {
  n_neg : bool;
  n_phase : nphase;
  n_mant : Z;
  n_frac : nat;
  n_eneg : bool;
  n_exp : Z
}.

Inductive escstate :=
| ENone
| EBackslash
| EUnicode (seen : nat) (value : N).

Inductive mode :=
| MValue
| MArrStart
| MObjStart
| MKey
| MColon
| MAfter
| MLit (rest : string) (v : jval)
| MNum (ns : numstate)
| MStr (iskey : bool) (acc : list ascii) (esc : escstate)
| MErr.

Record state := mkState {
  st_mode : mode;
  st_stack : list frame;
  st_result : option jval
}.

Definition init : state := mkState MValue [] None.

Definition fail (st : state) : state := mkState MErr (st_stack st) (st_result st).

Definition set_mode (m : mode) (st : state) : state :=
  mkState m (st_stack st) (st_result st).

Definition is_ws (c : ascii) : bool :=
  let n := Str.code c in
  ((n =? 32) || (n =? 9) || (n =? 10) || (n =? 13))%N.

(** A value is complete: it goes into the open array or object, or it is
    the result. *)
Definition push_value (v : jval) (st : state) : state :=
  match st_stack st with
  | [] => mkState MAfter [] (Some v)
  | FArr done :: rest => mkState MAfter (FArr (v :: done) :: rest) (st_result st)
  | FObj done key :: rest =>
      mkState MAfter (FObj ((key, v) :: done) key :: rest) (st_result st)
  end.

Definition digit_value (c : ascii) : Z := Z.of_N (Str.code c) - 48.

Definition hex_value (c : ascii) : option N :=
  let n := Str.code c in
  if Str.is_digit c then Some (n - 48)%N
  else if Str.between 65 70 c then Some (n - 55)%N
  else if Str.between 97 102 c then Some (n - 87)%N
  else None.

Definition complete (p : nphase) : bool :=
  match p with
  | PZero | PInt | PFrac | PExp => true
  | _ => false
  end.

(** The value of a number literal. *)
Definition num_value (ns : numstate) : jsnum :=
  let m := if n_neg ns then - n_mant ns else n_mant ns in
  let x := (if n_eneg ns then - n_exp ns else n_exp ns) - Z.of_nat (n_frac ns) in
  if 0 <=? x then Dec (m * 10 ^ x) 0 else Num.norm (Dec m (Z.to_nat (- x))).

(** After a value: a comma or the end of the open array or object. *)
Definition step_after (st : state) (c : ascii) : state :=
  if is_ws c then st
  else
    match st_stack st with
    | [] => fail st
    | FArr done :: rest =>
        if Ascii.eqb c "," then set_mode MValue st
        else if Ascii.eqb c "]" then
          push_value (JArr (rev done)) (mkState MAfter rest (st_result st))
        else fail st
    | FObj done _ :: rest =>
        if Ascii.eqb c "," then set_mode MKey st
        else if Ascii.eqb c "}" then
          push_value (JObj (rev done)) (mkState MAfter rest (st_result st))
        else fail st
    end.

(** The start of a value. [first] tells that the value may also be the
    end of an array that has just been opened. *)
Definition step_value (first : bool) (st : state) (c : ascii) : state :=
  if is_ws c then st
  else if Ascii.eqb c Str.dquote then set_mode (MStr false [] ENone) st
  else if Ascii.eqb c "{" then
    mkState MObjStart (FObj [] EmptyString :: st_stack st) (st_result st)
  else if Ascii.eqb c "[" then
    mkState MArrStart (FArr [] :: st_stack st) (st_result st)
  else if Ascii.eqb c "]" then
    if first then step_after (set_mode MAfter st) c else fail st
  else if Ascii.eqb c "t" then set_mode (MLit "rue" (JBool true)) st
  else if Ascii.eqb c "f" then set_mode (MLit "alse" (JBool false)) st
  else if Ascii.eqb c "n" then set_mode (MLit "ull" JNull) st
  else if Ascii.eqb c "-" then
    set_mode (MNum (mkNum true PMinus 0 0 false 0)) st
  else if Ascii.eqb c "0" then
    set_mode (MNum (mkNum false PZero 0 0 false 0)) st
  else if Str.is_digit c then
    set_mode (MNum (mkNum false PInt (digit_value c) 0 false 0)) st
  else fail st.

(** One more character of a number; [None] when the character is not
    part of it. *)
Definition step_num (ns : numstate) (c : ascii) : option (option numstate) :=
  let with_phase p := mkNum (n_neg ns) p (n_mant ns) (n_frac ns) (n_eneg ns) (n_exp ns) in
  let is_e := Ascii.eqb c "e" || Ascii.eqb c "E" in
  let d := digit_value c in
  match n_phase ns with
  | PMinus =>
      if Ascii.eqb c "0" then Some (Some (with_phase PZero))
      else if Str.is_digit c then
        Some (Some (mkNum (n_neg ns) PInt d 0 false 0))
      else Some None
  | PZero =>
      if Ascii.eqb c "." then Some (Some (with_phase PDot))
      else if is_e then Some (Some (with_phase PE))
      else if Str.is_digit c then Some None
      else None
  | PInt =>
      if Str.is_digit c then
        Some (Some (mkNum (n_neg ns) PInt (n_mant ns * 10 + d) 0 false 0))
      else if Ascii.eqb c "." then Some (Some (with_phase PDot))
      else if is_e then Some (Some (with_phase PE))
      else None
  | PDot | PFrac =>
      if Str.is_digit c then
        Some (Some (mkNum (n_neg ns) PFrac (n_mant ns * 10 + d) (S (n_frac ns)) false 0))
      else
        match n_phase ns with
        | PFrac => if is_e then Some (Some (with_phase PE)) else None
        | _ => Some None
        end
  | PE =>
      if Ascii.eqb c "+" then Some (Some (with_phase PESign))
      else if Ascii.eqb c "-" then
        Some (Some (mkNum (n_neg ns) PESign (n_mant ns) (n_frac ns) true 0))
      else if Str.is_digit c then
        Some (Some (mkNum (n_neg ns) PExp (n_mant ns) (n_frac ns) (n_eneg ns) d))
      else Some None
  | PESign =>
      if Str.is_digit c then
        Some (Some (mkNum (n_neg ns) PExp (n_mant ns) (n_frac ns) (n_eneg ns) d))
      else Some None
  | PExp =>
      if Str.is_digit c then
        Some (Some (mkNum (n_neg ns) PExp (n_mant ns) (n_frac ns) (n_eneg ns)
                          (n_exp ns * 10 + d)))
      else None
  end.

(** The end of a string: a key waits for its colon, a value is
    complete. *)
Definition end_string (iskey : bool) (acc : list ascii) (st : state) : state :=
  let s := string_of_list_ascii (rev acc) in
  if iskey then
    match st_stack st with
    | FObj done _ :: rest => mkState MColon (FObj done s :: rest) (st_result st)
    | _ => fail st
    end
  else push_value (JStr s) st.

Definition step_string (iskey : bool) (acc : list ascii) (esc : escstate)
    (st : state) (c : ascii) : state :=
  let continue a := set_mode (MStr iskey (a :: acc) ENone) st in
  match esc with
  | ENone =>
      if Ascii.eqb c Str.dquote then end_string iskey acc st
      else if Ascii.eqb c Str.backslash then set_mode (MStr iskey acc EBackslash) st
      else if (Str.code c <? 32)%N then fail st
      else continue c
  | EBackslash =>
      if Ascii.eqb c Str.dquote || Ascii.eqb c Str.backslash || Ascii.eqb c "/"
      then continue c
      else if Ascii.eqb c "b" then continue (Str.chr 8)
      else if Ascii.eqb c "f" then continue (Str.chr 12)
      else if Ascii.eqb c "n" then continue (Str.chr 10)
      else if Ascii.eqb c "r" then continue (Str.chr 13)
      else if Ascii.eqb c "t" then continue (Str.chr 9)
      else if Ascii.eqb c "u" then set_mode (MStr iskey acc (EUnicode 0 0)) st
      else fail st
  | EUnicode seen value =>
      match hex_value c with
      | None => fail st
      | Some h =>
          let value' := (value * 16 + h)%N in
          if (seen =? 3)%nat then
            (* a code unit of 256 or more has no character in the model:
               any character that is not ASCII stands for it *)
            continue (if (value' <? 256)%N then Str.chr value' else Str.chr 255)
          else set_mode (MStr iskey acc (EUnicode (S seen) value')) st
      end
  end.

Definition step (st : state) (c : ascii) : state :=
  match st_mode st with
  | MErr => st
  | MValue => step_value false st c
  | MArrStart => step_value true st c
  | MObjStart =>
      if is_ws c then st
      else if Ascii.eqb c Str.dquote then set_mode (MStr true [] ENone) st
      else if Ascii.eqb c "}" then step_after (set_mode MAfter st) c
      else fail st
  | MKey =>
      if is_ws c then st
      else if Ascii.eqb c Str.dquote then set_mode (MStr true [] ENone) st
      else fail st
  | MColon =>
      if is_ws c then st
      else if Ascii.eqb c ":" then set_mode MValue st
      else fail st
  | MAfter => step_after st c
  | MLit rest v =>
      match rest with
      | String x r =>
          if Ascii.eqb c x then
            match r with
            | EmptyString => push_value v st
            | _ => set_mode (MLit r v) st
            end
          else fail st
      | EmptyString => fail st
      end
  | MNum ns =>
      match step_num ns c with
      | Some (Some ns') => set_mode (MNum ns') st
      | Some None => fail st
      | None => step_after (push_value (JNum (num_value ns)) st) c
      end
  | MStr iskey acc esc => step_string iskey acc esc st c
  end.

Fixpoint run (st : state) (s : string) : state :=
  match s with
  | EmptyString => st
  | String c r => run (step st c) r
  end.

(** The end of the text. *)
Definition finish (st : state) : option jval :=
  let st' :=
    match st_mode st with
    | MNum ns =>
        if complete (n_phase ns) then push_value (JNum (num_value ns)) st
        else fail st
    | _ => st
    end in
  match st_mode st', st_stack st' with
  | MAfter, [] => st_result st'
  | _, _ => None
  end.

(** [JSON.parse(text)]; [None] when it throws a [SyntaxError]. *)
Definition JSON_parse (text : string) : option jval := finish (run init text).

End Parse.

(** ** Cursors *)

(** How a block of statements ends: it returns a value, it runs to its
    end, or it throws. *)
Inductive exn := SyntaxError | TypeError.

Inductive completion (A : Type) :=
| Returns (a : A)
| Completes
| Throws (e : exn).

Arguments Returns {A} a.
Arguments Completes {A}.
Arguments Throws {A} e.

(** [decoded.name]: reading a property of [null] throws, and a value that
    is not an object has neither v nor s. *)
Definition property (decoded : jval) (name : string) : completion (option jval) :=
  match decoded with
  | JNull => Throws TypeError
  | JObj entries => Returns (Json.get name entries)
  | _ => Returns None
  end.

(** [x === 1] *)
Definition is_one (x : option jval) : bool :=
  match x with
  | Some (JNum n) => Num.eqb n (of_Z 1)
  | _ => false
  end.

Definition cursor_value (seq_ : jsnum) : jval :=
  JObj [("v", JNum (of_Z 1)); ("s", JNum seq_)]%string.

(** [LogBuffer._encodeCursor] *)
Definition _encodeCursor (seq_ : jsnum) : string :=
  Base64url.encode (Json.stringify (cursor_value seq_)).

(** The block under [try] in [_decodeCursor]. *)
Definition decode_try (cursor : string) : completion jsnum :=
  match Parse.JSON_parse (Base64url.decode cursor) with
  | None => Throws SyntaxError
  | Some decoded =>
      match property decoded "v" with
      | Throws e => Throws e
      | Completes => Completes
      | Returns v =>
          if is_one v then
            match property decoded "s" with
            | Throws e => Throws e
            | Completes => Completes
            | Returns (Some (JNum s)) => Returns s
            | Returns _ => Completes
            end
          else Completes
      end
  end.

(** [LogBuffer._decodeCursor]: the handler of [catch] is empty, and
    [return 0] follows the [try] statement. *)
Definition _decodeCursor (cursor : string) : completion jsnum :=
  match decode_try cursor with
  | Returns s => Returns s
  | Completes | Throws _ => Returns (of_Z 0)
  end.

(** ** Reading *)

Record ReadOptions := mkOptions {
  cursor : option string;
  limit : option Z;
  opt_maxBytes : option Z;
  levels : option (list string);
  sources : option (list string);
  includeStructured : option bool
}.

Definition no_options : ReadOptions := mkOptions None None None None None None.

Record ReadResult := mkResult {
  r_cursor : string;
  has_more : bool;
  events : list EventView;
  truncated : bool
}.

Definition default {A} (d : A) (o : option A) : A :=
  match o with
  | Some x => x
  | None => d
  end.

Definition effectiveLimit (options : ReadOptions) : Z :=
  Z.min (Z.max 1 (default 200 (limit options))) 1000.

Definition effectiveMaxBytes (options : ReadOptions) : Z :=
  Z.min (Z.max 1000 (default 256000 (opt_maxBytes options))) 1000000.

(** [filter && filter.length > 0 && !filter.includes(x)] *)
Definition filtered_out (filter : option (list string)) (x : string) : bool :=
  match filter with
  | Some (y :: l) => negb (includes_str x (y :: l))
  | _ => false
  end.

(** The event that tells the reader that its cursor points into dropped
    data. *)
Definition dropped_warning (now : string) (b : LogBuffer) : EventView :=
  mkView now "warn" "log_buffer"
    ("Cursor pointed to dropped data. "
       ++ Num.to_string (of_Z (_droppedCount b))
       ++ " events were dropped due to retention policy. Resuming from earliest retained event.")
    JNull.

(** [JSON.stringify(events).length] *)
Definition events_size (evs : list EventView) : Z :=
  Str.len (Json.stringify (JArr (map view_value evs))).

(** [JSON.stringify(eventJson).length + 2] *)
Definition eventSize (v : EventView) : Z :=
  Str.len (Json.stringify (view_value v)) + 2.

(** The variables of the loop of [read]. *)
Record scan_state := mkScan {
  s_events : list EventView;
  s_currentBytes : Z;
  s_lastSeq : jsnum;
  s_has_more : bool;
  s_truncated : bool
}.

(** The loop of [read] over the retained events. *)
Fixpoint scan (options : ReadOptions) (effectiveStartSeq : jsnum)
    (evs : list LogEvent) (st : scan_state) : scan_state :=
  match evs with
  | [] => st
  | event :: rest =>
      if Num.leb (of_Z (seq event)) effectiveStartSeq then
        scan options effectiveStartSeq rest st
      else if filtered_out (levels options) (level event) then
        scan options effectiveStartSeq rest st
      else if filtered_out (sources options) (source event) then
        scan options effectiveStartSeq rest st
      else
        let eventJson := toJSON (default true (includeStructured options)) event in
        if s_currentBytes st + eventSize eventJson >? effectiveMaxBytes options then
          mkScan (s_events st) (s_currentBytes st) (s_lastSeq st) true true
        else if zlength (s_events st) >=? effectiveLimit options then
          mkScan (s_events st) (s_currentBytes st) (s_lastSeq st) true (s_truncated st)
        else
          scan options effectiveStartSeq rest
               (mkScan (s_events st ++ [eventJson])
                       (s_currentBytes st + eventSize eventJson)
                       (of_Z (seq event)) (s_has_more st) (s_truncated st))
  end.

(** The test that the cursor points to dropped data. *)
Definition points_to_dropped (startSeq : jsnum) (b : LogBuffer) : bool :=
  Num.ltb (of_Z 0) startSeq && Num.ltb startSeq (of_Z (_earliestRetainedSeq b)).

(** The body of [read] once the cursor is decoded to [startSeq]. *)
Definition read_from (now : string) (options : ReadOptions) (startSeq : jsnum)
    (b : LogBuffer) : ReadResult :=
  let first_events :=
    if points_to_dropped startSeq b then [dropped_warning now b] else [] in
  let effectiveStartSeq := Num.max startSeq (of_Z (_earliestRetainedSeq b)) in
  let st := scan options effectiveStartSeq (_events b)
                 (mkScan first_events (events_size first_events)
                         effectiveStartSeq false false) in
  let more :=
    if negb (s_has_more st) && (zlength (_events b) >? 0) then
      match last (map (fun e => Some (seq e)) (_events b)) None with
      | Some lastEventSeq => Num.ltb (s_lastSeq st) (of_Z lastEventSeq)
      | None => s_has_more st
      end
    else s_has_more st in
  mkResult (_encodeCursor (s_lastSeq st)) more (s_events st) (s_truncated st).

(** [cursor ? this._decodeCursor(cursor) : 0] *)
Definition start_of (cursor : option string) : completion jsnum :=
  match cursor with
  | None | Some EmptyString => Returns (of_Z 0)
  | Some c => _decodeCursor c
  end.

(** [LogBuffer.read] at clock reading [now]. The buffer is not assigned
    to: it is returned as it was. *)
Definition read (now : string) (options : ReadOptions) (b : LogBuffer)
  : completion (LogBuffer * ReadResult) :=
  match start_of (cursor options) with
  | Returns startSeq => Returns (b, read_from now options startSeq b)
  | Completes => Completes
  | Throws e => Throws e
  end.

(** ** Runs of the buffer *)

(** The calls that change a buffer. *)
Inductive op :=
| OpAppend (now level source message : string) (data : jval)
| OpClear.

(** The buffer after the calls [ops], and what the calls of [append]
    among them returned, in the order of the calls. *)
Fixpoint run_ops (ops : list op) (b : LogBuffer) : LogBuffer * list Z :=
  match ops with
  | [] => (b, [])
  | OpAppend now level source message data :: rest =>
      let '(b1, r) := append now level source message data b in
      let '(b2, rs) := run_ops rest b1 in
      (b2, r :: rs)
  | OpClear :: rest => run_ops rest (clear b)
  end.

Definition is_append (o : op) : bool :=
  match o with
  | OpAppend _ _ _ _ _ => true
  | OpClear => false
  end.

(** The buffers a program can hold: a new one, and what [append] and
    [clear] make of one. *)
Inductive reachable : LogBuffer -> Prop :=
| reach_new config : reachable (new_LogBuffer config)
| reach_append now level source message data b :
    reachable b -> reachable (fst (append now level source message data b))
| reach_clear b : reachable b -> reachable (clear b).

Definition sum_sizes (evs : list LogEvent) : Z :=
  fold_right (fun e acc => _size e + acc) 0 evs.

(** The sequence numbers [from + 1], ..., [from + n]. *)
Fixpoint count_from (from : Z) (n : nat) : list Z :=
  match n with
  | O => []
  | S n' => (from + 1) :: count_from (from + 1) n'
  end.

(** Strictly ascending sequence numbers, all above [lo]. *)
Fixpoint ascending (lo : Z) (evs : list LogEvent) : Prop :=
  match evs with
  | [] => True
  | e :: rest => lo < seq e /\ ascending (seq e) rest
  end.

(** What holds of every reachable buffer. *)
Record invariant (b : LogBuffer) : Prop := mkInv {
  inv_total : _totalBytes b = sum_sizes (_events b);
  inv_sizes : Forall (fun e => 100 <= _size e) (_events b);
  inv_earliest : 0 <= _earliestRetainedSeq b <= _seq b;
  inv_ascending : ascending (_earliestRetainedSeq b - 1) (_events b);
  inv_last : Forall (fun e => seq e <= _seq b) (_events b);
  inv_dropped : 0 <= _droppedCount b
}.

(** ** Concrete runs used as examples *)

Module Examples.

Definition T0 : string := "2026-01-01T00:00:00.000Z".

(** [n] calls [append('info', 'test', 'Message i')], for [i] from
    [from] on. *)
Fixpoint messages (from : Z) (n : nat) : list op :=
  match n with
  | O => []
  | S n' =>
      OpAppend T0 "info" "test" ("Message " ++ Num.digits from) JNull
        :: messages (from + 1) n'
  end.

Definition config (e b : option Z) : ConfigArg := mkConfigArg e b.

(** A buffer of at most three events after five appends. *)
Definition small : LogBuffer :=
  fst (run_ops (messages 1 5) (new_LogBuffer (config (Some 3) None))).

(** A buffer that cannot hold any event. *)
Definition tiny : LogBuffer := new_LogBuffer (config None (Some 50)).

(** A buffer built with a negative bound on the number of events. *)
Definition negative : LogBuffer := new_LogBuffer (config (Some (-1)) None).

End Examples.

(** ** What the sanitiser is to achieve *)

Definition is_marker (v : jval) : bool :=
  match v with
  | JStr s => String.eqb s REDACTED
  | _ => false
  end.

(** Every entry of an object, at any depth of the value, whose key is
    sensitive holds the redaction marker. *)
Fixpoint redacted_everywhere (v : jval) : bool :=
  match v with
  | JArr items => forallb redacted_everywhere items
  | JObj entries =>
      forallb (fun kv =>
                 if is_sensitive_key (fst kv) then is_marker (snd kv)
                 else redacted_everywhere (snd kv))
              entries
  | _ => true
  end.

(** The stored form of a payload, in the words of the specification: an
    entry with a sensitive key holds the marker; every other entry keeps
    its key and its place, with a string scrubbed as a message is, an
    array sanitised element by element, an object entry by entry, and any
    other value as it was. *)
#[local] Unset Elimination Schemes.
#[local] Set Elimination Schemes.


Module SanitizeExamples.








Definition payload : jval :=
  JObj [("headers", JObj [("authorization", JStr "Bearer secret123");
                          ("content-type", JStr "application/json")]);
        ("password", JStr "x");
        ("API_KEY", JArr [JNum (of_Z 1)]);
        ("attempts", JNum (of_Z 3));
        ("tags", JArr [JStr "a"; JObj [("sessionCookie", JBool true)]])]%string.

End SanitizeExamples.

(** ** What the truncation of stack traces is to achieve *)

(** Line [k] is the first one that looks like a stack frame. *)
Definition first_frame (lines : list string) (k : nat) : Prop :=
  (k < List.length lines)%nat /\
  is_frame (nth k lines EmptyString) = true /\
  forall j, (j < k)%nat -> is_frame (nth j lines EmptyString) = false.

Definition no_frame (lines : list string) : Prop :=
  Forall (fun l => is_frame l = false) lines.

(** The last line of a truncated stack trace. *)
Definition frames_trailer (omitted : Z) : string :=
  ("... (" ++ Num.to_string (of_Z omitted) ++ " more stack frames)")%string.

Definition not_nl (c : ascii) : bool := negb (Ascii.eqb c Str.newline).

Fixpoint no_nl (s : string) : bool :=
  match s with
  | EmptyString => true
  | String c r => negb (Ascii.eqb c Str.newline) && no_nl r
  end.

Module TruncateExamples.

(** Forty-one lines of text and two stack frames after them. *)
Definition late_stack : string :=
  Str.join Str.nl (List.repeat "m"%string 41 ++ List.repeat "at f"%string 2).

(** A line of text and a hundred stack frames, as in the test of the
    repository. *)
Definition long_stack : string :=
  Str.join Str.nl
    ("Error occurred"%string
       :: map (fun i => ("    at function" ++ Num.digits (Z.of_nat i) ++ " (file.js:1:1)")%string)
              (List.seq 0 100)).

End TruncateExamples.

(** ** What a read is to achieve *)

(** An event the loop of [read] does not skip: it is after the effective
    start and passes both filters. *)
Definition candidate (options : ReadOptions) (effectiveStartSeq : jsnum)
    (e : LogEvent) : bool :=
  negb (Num.leb (of_Z (seq e)) effectiveStartSeq)
  && negb (filtered_out (levels options) (level e))
  && negb (filtered_out (sources options) (source e)).

(** The view of an event under the options of a read. *)
Definition view_of (options : ReadOptions) (e : LogEvent) : EventView :=
  toJSON (default true (includeStructured options)) e.

(** [Math.max(startSeq, this._earliestRetainedSeq)] *)
Definition effective_start (startSeq : jsnum) (b : LogBuffer) : jsnum :=
  Num.max startSeq (of_Z (_earliestRetainedSeq b)).

(** The variables of the loop of [read] when the loop starts. *)
Definition scan_start (now : string) (startSeq : jsnum) (b : LogBuffer) : scan_state :=
  let first_events :=
    if points_to_dropped startSeq b then [dropped_warning now b] else [] in
  mkScan first_events (events_size first_events) (effective_start startSeq b)
         false false.

Definition sum_eventSize (views : list EventView) : Z :=
  fold_right (fun v acc => eventSize v + acc) 0 views.

(** The loop of [read] has gone through [pre] without a [break] and
    meets the candidate [e] next. *)
Definition reaches (options : ReadOptions) (eff : jsnum) (st0 : scan_state)
    (evs pre : list LogEvent) (e : LogEvent) : Prop :=
  (exists post, evs = pre ++ e :: post) /\
  s_has_more (scan options eff pre st0) = false /\
  candidate options eff e = true.

Module ReadExamples.

(** The cursor a reader gets from a buffer that has no event yet. *)
Definition empty_cursor : string :=
  r_cursor (read_from Examples.T0 no_options (of_Z 0) (new_LogBuffer no_config)).

Definition from_cursor (c : string) : ReadOptions :=
  mkOptions (Some c) None None None None None.

(** A cursor taken after the first event of [Examples.small], which has
    dropped that event since. *)
Definition stale_cursor : string := _encodeCursor (of_Z 1).

End ReadExamples.

(** ** What the cursor codec is to achieve *)

Definition is_number (x : option jval) : bool :=
  match x with
  | Some (JNum _) => true
  | _ => false
  end.

(** A cursor of version 1: its payload is the JSON text of an object
    whose v is the number 1 and whose s is a number. *)
Definition well_formed_v1 (cursor_ : string) : bool :=
  match Parse.JSON_parse (Base64url.decode cursor_) with
  | Some (JObj entries) =>
      is_one (Json.get "v" entries) && is_number (Json.get "s" entries)
  | _ => false
  end.

Definition with_cursor (c : option string) (options : ReadOptions) : ReadOptions :=
  mkOptions c (limit options) (opt_maxBytes options) (levels options)
            (sources options) (includeStructured options).

(** The text of a cursor with any version and any value for s. *)
Definition _encodeCursor_version (v : jsnum) (s : jval) : string :=
  Base64url.encode (Json.stringify (JObj [("v", JNum v); ("s", s)]%string)).

Module CursorExamples.

(** The cursor of the test of the repository: not the base64url form of
    a JSON text. *)
Definition invalid : string := "invalid-cursor".

(** Payloads that are JSON texts, but not cursors of version 1. *)
Definition null_payload : string := Base64url.encode "null".

Definition wrong_version : string :=
  _encodeCursor_version (of_Z 2) (JNum (of_Z 5)).

Definition string_sequence : string :=
  _encodeCursor_version (of_Z 1) (JStr "5").

End CursorExamples.

(** ** Decimal texts *)

(** The character of a digit. *)
Definition dchar (k : Z) : ascii := Str.chr (48 + Z.to_N k).

(** The number a text of digits stands for, after the digits that gave
    [acc]. *)
Fixpoint dval (acc : Z) (s : string) : Z :=
  match s with
  | EmptyString => acc
  | String c r => dval (acc * 10 + Parse.digit_value c) r
  end.

Fixpoint all_digits (s : string) : bool :=
  match s with
  | EmptyString => true
  | String c r => Str.is_digit c && all_digits r
  end.

(** The six-bit values below 64 decode to themselves and are not the
    padding character. *)
Definition sextet_ok (x : N) : bool :=
  match Base64url.unbase64 (Base64url.b64char x) with
  | Some y => (y =? x)%N
  | None => false
  end && negb (Ascii.eqb (Base64url.b64char x) "=").

(** The text of a cursor before the digits of its sequence number. *)
Definition cursor_prefix : string :=
  ("{" ++ Str.dq ++ "v" ++ Str.dq ++ ":1," ++ Str.dq ++ "s" ++ Str.dq ++ ":")%string.

(** ** Paging through a buffer *)

(** [{ limit: n }] and [{ cursor: c, limit: n }] *)
Definition page (c : option string) (n : Z) : ReadOptions :=
  mkOptions c (Some n) None None None None.

(** The size of a response that holds the views of [evs] and nothing
    else, as the loop of [read] counts it. *)
Definition response_size (evs : list LogEvent) : Z :=
  events_size [] + sum_eventSize (map (toJSON true) evs).

(** The events that a run of calls of [append] builds, from the
    sequence counter [seq_] on. *)
Fixpoint built_events (seq_ : Z) (ops : list op) : list LogEvent :=
  match ops with
  | [] => []
  | OpAppend now level source message data :: rest =>
      make_event now (seq_ + 1) level source message data
        :: built_events (seq_ + 1) rest
  | OpClear :: rest => built_events seq_ rest
  end.

(** No match of the pattern starts at the character [c], nor at the end
    of a text. *)
Definition never_starts_with (c : ascii) (r : regex) : Prop :=
  (forall s, Regex.match_at r (String c s) = None) /\
  Regex.match_at r EmptyString = None.

Module PagingExamples.

(** Eleven small events in a new buffer. *)
Definition eleven : LogBuffer :=
  fst (run_ops (Examples.messages 0 11) (new_LogBuffer no_config)).

(** A message of [n] characters, then ten small messages: eleven
    appends to a new buffer. *)
Definition large_first_of (n : nat) : LogBuffer :=
  fst (run_ops
         (OpAppend Examples.T0 "info" "test" (Str.repeat "z" n) JNull
            :: Examples.messages 1 10)
         (new_LogBuffer no_config)).

(** The same with a message of 256000 characters. *)
Definition large_first : LogBuffer := large_first_of (N.to_nat 256000).

(** Twelve appends to a buffer of eleven events: the first event is
    dropped. *)
Definition after_eviction : LogBuffer :=
  fst (run_ops (Examples.messages 0 12)
               (new_LogBuffer (Examples.config (Some 11) None))).

End PagingExamples.

(** ** What a read returns *)

(** The events a result holds before the loop of [read] starts: the
    warning, when the cursor points to dropped data. *)
Definition warning_of (now : string) (startSeq : jsnum) (b : LogBuffer)
  : list EventView :=
  if points_to_dropped startSeq b then [dropped_warning now b] else [].

Module ReadMoreExamples.

(** A buffer that holds one event with structured data. *)
Definition with_data : LogBuffer :=
  fst (append Examples.T0 "info" "test" "Login"
              (JObj [("user", JStr "ann"); ("attempts", JNum (of_Z 3))]%string)
              (new_LogBuffer no_config)).

(** [{ includeStructured: false }] *)
Definition unstructured : ReadOptions :=
  mkOptions None None None None None (Some false).

(** [{ cursor: c, levels: ['error'] }] *)
Definition errors_only (c : option string) : ReadOptions :=
  mkOptions c None None (Some ["error"%string]) None None.

(** Two events of level info in a new buffer. *)
Definition two_infos : LogBuffer :=
  fst (run_ops (Examples.messages 1 2) (new_LogBuffer no_config)).

(** A buffer of two events at most, after two appends. *)
Definition full : LogBuffer :=
  fst (run_ops (Examples.messages 1 2)
               (new_LogBuffer (Examples.config (Some 2) None))).

End ReadMoreExamples.

(** ** Loggers *)

(** The object that [createLogger(buffer, source)] returns. A method
    takes the clock reading, the message, the data, which may be left
    out, and the buffer, and returns what [append] returns. *)
Record Logger := mkLogger {
  debug : string -> string -> option jval -> LogBuffer -> LogBuffer * Z;
  info : string -> string -> option jval -> LogBuffer -> LogBuffer * Z;
  warn : string -> string -> option jval -> LogBuffer -> LogBuffer * Z;
  error : string -> string -> option jval -> LogBuffer -> LogBuffer * Z
}.

(** [createLogger]: data left out is the default of the parameter of
    [append], [null]. *)
Definition createLogger (source : string) : Logger :=
  mkLogger
    (fun now message data => append now "debug" source message (default JNull data))
    (fun now message data => append now "info" source message (default JNull data))
    (fun now message data => append now "warn" source message (default JNull data))
    (fun now message data => append now "error" source message (default JNull data)).

(** ** The backend that logs the calls of tools *)

Module Backend.

(** [PatchedBrowserServerBackend._sanitizeArguments]: the arguments are
    an object or left out; the copy loses its entry [_meta]. *)
Definition _sanitizeArguments (args : option (list (string * jval)))
  : list (string * jval) :=
  match args with
  | None => []
  | Some entries => filter (fun kv => negb (String.eqb (fst kv) "_meta")) entries
  end.

(** The message [Tool "name" started]. *)
Definition started (name : string) : string :=
  ("Tool " ++ Str.dq ++ name ++ Str.dq ++ " started")%string.

(** What [callTool] does to the buffer before the tool runs: the call
    of every tool but [read_log] is logged with its arguments. *)
Definition log_started (now name : string)
    (rawArguments : option (list (string * jval))) (b : LogBuffer) : LogBuffer :=
  let logger := createLogger name in
  if negb (String.eqb name "read_log") then
    fst (info logger now (started name)
              (Some (JObj [("arguments", JObj (_sanitizeArguments rawArguments))]%string))
              b)
  else b.

End Backend.

(** ** The tool that reads the log *)

(** [JSON.stringify(v, null, 2)] at the indentation [indent]. *)
Fixpoint stringify_indented (indent : string) (v : jval) : string :=
  let inner := (indent ++ "  ")%string in
  let separator := ("," ++ Str.nl ++ inner)%string in
  match v with
  | JArr [] => "[]"
  | JArr items =>
      ("[" ++ Str.nl ++ inner
           ++ Str.join separator (map (stringify_indented inner) items)
           ++ Str.nl ++ indent ++ "]")%string
  | JObj [] => "{}"
  | JObj entries =>
      ("{" ++ Str.nl ++ inner
           ++ Str.join separator
                (map (fun kv => (Json.quote (fst kv) ++ ": "
                                   ++ stringify_indented inner (snd kv))%string)
                     entries)
           ++ Str.nl ++ indent ++ "}")%string
  | _ => Json.stringify v
  end.

Module ReadLog.

(** The parameters of the tool: each is given, or it is [null] or left
    out ([None]). *)
Record Params := mkParams {
  p_cursor : option string;
  p_limit : option Z;
  max_bytes : option Z;
  p_levels : option (list string);
  p_sources : option (list string);
  include_structured : option bool
}.

(** What the handler hands to the response. *)
Inductive Response :=
| addError (text : string)
| addResult (text : string).

(** The options the handler builds with [??]. *)
Definition build_options (params : Params) : ReadOptions :=
  mkOptions (p_cursor params)
            (Some (default 200 (p_limit params)))
            (Some (default 256000 (max_bytes params)))
            (p_levels params)
            (p_sources params)
            (Some (default true (include_structured params))).

(** The object [output]. *)
Definition output (result : ReadResult) : jval :=
  JObj [("cursor", JStr (r_cursor result));
        ("has_more", JBool (has_more result));
        ("events", JArr (map view_value (events result)));
        ("truncated", JBool (truncated result))]%string.

(** [handle]: the buffer of the context, if it has one, after the call,
    and the response. [error_message] is the text that the engine gives
    an error; a call of [read] that ends without a result makes the
    access to its fields throw a [TypeError]. *)
Definition handle (error_message : exn -> string) (now : string)
    (logBuffer : option LogBuffer) (params : Params)
  : option LogBuffer * Response :=
  match logBuffer with
  | None => (None, addError "Log buffer not initialized for this session")
  | Some b =>
      let options := build_options params in
      match read now options b with
      | Returns (b', result) =>
          (Some b', addResult (stringify_indented "" (output result)))
      | Completes =>
          (Some b, addError ("Failed to read logs: " ++ error_message TypeError))
      | Throws e =>
          (Some b, addError ("Failed to read logs: " ++ error_message e))
      end
  end.

(** The parameters as options of [read], with no default filled in. *)
Definition as_options (params : Params) : ReadOptions :=
  mkOptions (p_cursor params) (p_limit params) (max_bytes params)
            (p_levels params) (p_sources params) (include_structured params).

End ReadLog.

(** ** The target of the tool that sets up a page *)

Module SetupPage.

(** A function returns a value or throws an [Error] with a message. *)
Inductive outcome :=
| Value (v : string)
| ThrowsError (message : string).

(** The parameters [resolveUrl] reads, each given or left out, and the
    variable [BASE_URL] of the environment. *)
Record Params := mkParams {
  url : option string;
  baseUrl : option string;
  path : option string
}.

(** [x || y] on strings that may be left out: the empty string is
    falsy. *)
Definition or_else (x y : option string) : option string :=
  match x with
  | Some (String _ _) => x
  | _ => y
  end.

(** [s.endsWith('/')] *)
Fixpoint endsWith_slash (s : string) : bool :=
  match s with
  | EmptyString => false
  | String c EmptyString => Ascii.eqb c "/"
  | String _ r => endsWith_slash r
  end.

(** [s.slice(0, -1)] *)
Fixpoint slice_0_minus_1 (s : string) : string :=
  match s with
  | EmptyString => EmptyString
  | String _ EmptyString => EmptyString
  | String c r => String c (slice_0_minus_1 r)
  end.

(** [resolveUrl] *)
Definition resolveUrl (BASE_URL : option string) (params : Params) : outcome :=
  match url params with
  | Some (String c u) => Value (String c u)
  | _ =>
      match or_else (baseUrl params) BASE_URL with
      | Some (String c r) =>
          let baseUrl := String c r in
          let path := match or_else (path params) (Some "/"%string) with
                      | Some p => p
                      | None => "/"%string
                      end in
          let base := if endsWith_slash baseUrl then slice_0_minus_1 baseUrl
                      else baseUrl in
          let normalizedPath := if Str.startsWith "/" path then path
                                else ("/" ++ path)%string in
          Value (base ++ normalizedPath)
      | _ =>
          ThrowsError "Either url or baseUrl (or BASE_URL env var) must be provided"
      end
  end.

End SetupPage.

(** ** The summary of a run of tests *)

Module TestRun.

(** A literal of a regular expression that has no flag [i]: every
    character is compared as it is. *)
Fixpoint chars (w : string) : regex :=
  match w with
  | EmptyString => Eps
  | String c r => Seq (Cls (Ascii.eqb c)) (chars r)
  end.

(** The first group of a match of [/(\d+)\s+word/] at the start of [s].
    The continuation of the group runs the rest of the pattern, so that
    the group ends where the first path that matches makes it end. *)
Definition group_at (word s : string) : option string :=
  match rmatch (Plus Str.is_digit)
               (fun rest =>
                  match rmatch (Seq (Plus Str.is_space) (chars word)) Some rest with
                  | Some _ => Some rest
                  | None => None
                  end)
               s with
  | Some rest => Some (Str.take (String.length s - String.length rest) s)
  | None => None
  end.

(** [output.match(/(\d+)\s+word/)]: the first group of the leftmost
    match; [None] stands for [null]. *)
Fixpoint match_group (word output : string) : option string :=
  match group_at word output with
  | Some g => Some g
  | None =>
      match output with
      | String _ r => match_group word r
      | EmptyString => None
      end
  end.

(** A number of JavaScript, as far as a count needs one: [NaN], a
    whole number that is a double, or an infinity. The sign of a zero is
    not told. *)
Inductive number :=
| NaN
| Int (n : Z)
| Infinity (negative : bool).

(** The double nearest to a whole number, a number half way between two
    doubles going to the one of even mantissa. Below 2^53 in magnitude
    a whole number is a double. From there on a double is a mantissa [q]
    of 53 bits times a power of two, [2 ^ e]; what rounds to 2^1024 is
    an infinity. *)
Definition nearest_double (n : Z) : number :=
  let a := Z.abs n in
  if a <? 2 ^ 53 then Int n
  else
    let e := Z.log2 a - 52 in
    let q := a / 2 ^ e in
    let r := a mod 2 ^ e in
    let half := 2 ^ (e - 1) in
    let up := (half <? r) || ((half =? r) && Z.odd q) in
    let m := (if up then q + 1 else q) * 2 ^ e in
    if 2 ^ 1024 <=? m then Infinity (n <? 0)
    else Int (Z.sgn n * m).

(** [x + y] on numbers: the sum of two whole numbers is rounded to a
    double. *)
Definition plus (x y : number) : number :=
  match x, y with
  | NaN, _ => NaN
  | _, NaN => NaN
  | Int a, Int b => nearest_double (a + b)
  | Infinity s, Int _ => Infinity s
  | Int _, Infinity s => Infinity s
  | Infinity s, Infinity t => if Bool.eqb s t then Infinity s else NaN
  end.

(** A number that is neither [NaN] nor below zero. *)
Definition not_negative (x : number) : bool :=
  match x with
  | NaN => false
  | Int n => 0 <=? n
  | Infinity negative => negb negative
  end.

Fixpoint leading_digits (s : string) : string :=
  match s with
  | String c r => if Str.is_digit c then String c (leading_digits r) else EmptyString
  | EmptyString => EmptyString
  end.

(** [parseInt(s, 10)]: white space, a sign, then the digits up to the
    first character that is not one; [NaN] when there is no digit, and
    else the double nearest to the number that the digits denote. *)
Definition parseInt (s : string) : number :=
  let trimmed := Str.trimStart s in
  let sign := match trimmed with String "-" _ => -1 | _ => 1 end in
  let unsigned := match trimmed with
                  | String "-" r => r
                  | String "+" r => r
                  | _ => trimmed
                  end in
  match leading_digits unsigned with
  | EmptyString => NaN
  | ds => nearest_double (sign * dval 0 ds)
  end.

(** The number that the digits of a match denote, and 0 for no match. *)
Definition digits_value (m : option string) : Z :=
  match m with
  | Some g => dval 0 g
  | None => 0
  end.

Record Results := mkResults {
  passed : number;
  failed : number;
  skipped : number;
  total : number
}.

(** [parseTestResults]; [None] stands for [null]. *)
Definition parseTestResults (output : string) : option Results :=
  let passedMatch := match_group "passed" output in
  let failedMatch := match_group "failed" output in
  let skippedMatch := match_group "skipped" output in
  let count (m : option string) :=
    match m with
    | Some g => parseInt g
    | None => Int 0
    end in
  let passed := count passedMatch in
  let failed := count failedMatch in
  let skipped := count skippedMatch in
  match passedMatch, failedMatch, skippedMatch with
  | None, None, None => None
  | _, _, _ => Some (mkResults passed failed skipped (plus (plus passed failed) skipped))
  end.

(** The characters of a text up to the first that [p] does not hold
    of, and the text from that character on. *)
Fixpoint dropWhile (p : ascii -> bool) (s : string) : string :=
  match s with
  | String c r => if p c then dropWhile p r else s
  | EmptyString => EmptyString
  end.

Fixpoint all (p : ascii -> bool) (s : string) : bool :=
  match s with
  | String c r => p c && all p r
  | EmptyString => true
  end.

(** What follows the digits of a match: white space, then the word. *)
Definition after_digits (word t : string) : bool :=
  match t with
  | String c r => Str.is_space c && Str.startsWith word (dropWhile Str.is_space r)
  | EmptyString => false
  end.

(** The last character of a text is not a digit; an empty text has
    none. *)
Fixpoint ends_without_digit (s : string) : bool :=
  match s with
  | EmptyString => true
  | String c EmptyString => negb (Str.is_digit c)
  | String _ r => ends_without_digit r
  end.

Definition not_digit (c : ascii) : bool := negb (Str.is_digit c).

(** A summary of Playwright: counts in a line each. *)
Definition summary : string :=
  ("Running 6 tests using 2 workers" ++ Str.nl
   ++ "  1 failed" ++ Str.nl
   ++ "  2 skipped" ++ Str.nl
   ++ "  3 passed (4.2s)" ++ Str.nl)%string.

End TestRun.

(** ** Texts the sanitiser leaves alone *)

(** A text holds a single or a double quote. *)
Fixpoint has_quote (s : string) : bool :=
  match s with
  | EmptyString => false
  | String c r => quote_ c || has_quote r
  end.

(** A text with no quote in it and with neither [bearer] nor [basic],
    in any case of the letters. *)
Definition unquoted (s : string) : bool :=
  negb (has_quote s)
  && negb (Str.includes "bearer" (Str.toLowerCase s))
  && negb (Str.includes "basic" (Str.toLowerCase s)).

(** A pattern whose matches all hold a quote. *)
Definition needs_quote (r : regex) : Prop :=
  forall k s x, rmatch r k s = Some x -> has_quote s = true.




Module UnquotedExamples.

(** A password with no quotes around it. *)
Definition login : string := "login failed: password=hunter2 token=abc123".

End UnquotedExamples.

(** * Properties *)

(** ** Sizes *)

Lemma len_cons (c : ascii) (s : string) : Str.len (String c s) = 1 + Str.len s.
Proof. reflexivity. Qed.

Lemma len_nonneg (s : string) : 0 <= Str.len s.
Proof. induction s; [simpl; lia | rewrite len_cons; lia]. Qed.

Lemma len_append (s t : string) : Str.len (s ++ t) = Str.len s + Str.len t.
Proof.
  induction s as [|c s IH]; [reflexivity|].
  change (String c s ++ t)%string with (String c (s ++ t)).
  rewrite !len_cons, IH. lia.
Qed.

Lemma calculateSize_ge now level source message data :
  100 <= _calculateSize now level source message data.
Proof.
  unfold _calculateSize.
  pose proof (len_nonneg now). pose proof (len_nonneg level).
  pose proof (len_nonneg source). pose proof (len_nonneg message).
  pose proof (len_nonneg (Json.stringify data)).
  destruct (Json.truthy data); lia.
Qed.

Lemma make_event_size now s level source message data :
  100 <= _size (make_event now s level source message data).
Proof. unfold make_event, new_LogEvent; simpl. apply calculateSize_ge. Qed.

Lemma make_event_seq now s level source message data :
  seq (make_event now s level source message data) = s.
Proof. reflexivity. Qed.

Lemma zlength_nonneg {A} (l : list A) : 0 <= zlength l.
Proof. unfold zlength; lia. Qed.

Lemma zlength_cons {A} (x : A) (l : list A) : zlength (x :: l) = zlength l + 1.
Proof. unfold zlength; simpl; lia. Qed.

Lemma zlength_app {A} (l l' : list A) : zlength (l ++ l') = zlength l + zlength l'.
Proof. unfold zlength; rewrite length_app; lia. Qed.

Lemma sum_sizes_app evs evs' :
  sum_sizes (evs ++ evs') = sum_sizes evs + sum_sizes evs'.
Proof. induction evs; simpl; lia. Qed.

Lemma sum_sizes_nonneg evs :
  Forall (fun e => 100 <= _size e) evs -> 0 <= sum_sizes evs.
Proof. induction 1; simpl; lia. Qed.

(** ** Retention *)

Section Retention.

Variable cfg : Config.
Variable seq_ : Z.

Lemma enforce_config events total dropped earliest :
  _config (enforce cfg seq_ events total dropped earliest) = cfg.
Proof.
  revert total dropped earliest.
  induction events as [|e rest IH]; intros; simpl;
    destruct (_ || _); simpl; auto.
Qed.

Lemma enforce_seq events total dropped earliest :
  _seq (enforce cfg seq_ events total dropped earliest) = seq_.
Proof.
  revert total dropped earliest.
  induction events as [|e rest IH]; intros; simpl;
    destruct (_ || _); simpl; auto.
Qed.

(** The loop drops a prefix of the retained events, and accounts for
    it. *)
Lemma enforce_drops events total dropped earliest :
  exists k : nat,
    let b' := enforce cfg seq_ events total dropped earliest in
    (k <= List.length events)%nat /\
    _events b' = skipn k events /\
    _totalBytes b' = total - sum_sizes (firstn k events) /\
    _droppedCount b' = dropped + Z.of_nat k /\
    _earliestRetainedSeq b' =
      match k, skipn k events with
      | O, _ => earliest
      | S _, first :: _ => seq first
      | S _, [] => seq_
      end.
Proof.
  revert total dropped earliest.
  induction events as [|e rest IH]; intros.
  - exists O. simpl. destruct (_ || _); simpl; repeat split; auto; lia.
  - simpl. destruct (_ || _) eqn:Hc.
    + destruct (IH (total - _size e) (dropped + 1)
                   (match rest with first :: _ => seq first | [] => seq_ end))
        as (k & Hk & He & Ht & Hd & Hr).
      exists (S k). cbn zeta in *. simpl firstn. simpl skipn. simpl sum_sizes.
      repeat split; try lia; auto.
      rewrite Hr. destruct k; reflexivity.
    + exists O. simpl. repeat split; auto; lia.
Qed.

(** When the loop ends, both bounds hold, provided that an empty buffer
    satisfies them. *)
Lemma enforce_bounds events total dropped earliest :
  0 <= maxEvents cfg -> 0 <= maxBytes cfg ->
  total = sum_sizes events ->
  let b' := enforce cfg seq_ events total dropped earliest in
  zlength (_events b') <= maxEvents cfg /\ _totalBytes b' <= maxBytes cfg.
Proof.
  intros He Hb. revert total dropped earliest.
  induction events as [|e rest IH]; intros total dropped earliest Ht; simpl.
  - destruct (_ || _); simpl in *; subst; unfold zlength; simpl; lia.
  - destruct (_ || _) eqn:Hc.
    + apply IH. simpl in Ht. lia.
    + apply orb_false_iff in Hc. destruct Hc as [H1 H2]. simpl. lia.
Qed.

End Retention.

Lemma ascending_weaken lo lo' evs : lo' <= lo -> ascending lo evs -> ascending lo' evs.
Proof. destruct evs; simpl; intuition lia. Qed.

Lemma ascending_skipn k lo evs :
  ascending lo evs -> ascending lo (skipn k evs).
Proof.
  revert lo evs. induction k; intros lo [|e r]; simpl; auto.
  intros [H1 H2]. apply IHk. eapply ascending_weaken; [|exact H2]. lia.
Qed.

Lemma ascending_app lo evs e :
  ascending lo evs -> Forall (fun x => seq x < seq e) evs -> lo < seq e ->
  ascending lo (evs ++ [e]).
Proof.
  revert lo. induction evs as [|a r IH]; simpl; intros lo H F Hlo.
  - auto.
  - destruct H as [H1 H2]. inversion F; subst. split; auto.
  Qed.

Lemma Forall_skipn {A} (P : A -> Prop) k (l : list A) :
  Forall P l -> Forall P (skipn k l).
Proof.
  revert l. induction k; intros [|x l] H; simpl; auto.
  inversion H; auto.
Qed.

Lemma sum_sizes_split k evs :
  sum_sizes evs = sum_sizes (firstn k evs) + sum_sizes (skipn k evs).
Proof. rewrite <- sum_sizes_app, firstn_skipn. reflexivity. Qed.

Lemma invariant_new config : invariant (new_LogBuffer config).
Proof. constructor; simpl; auto; lia. Qed.

Lemma invariant_clear b : invariant b -> invariant (clear b).
Proof. intros [? ? ? ? ? ?]. constructor; simpl; auto; lia. Qed.

Lemma invariant_append now level source message data b :
  invariant b -> invariant (fst (append now level source message data b)).
Proof.
  intros [Ht Hs He Ha Hl Hd].
  unfold append, _enforceRetention. cbn [fst _config _seq _events _totalBytes
    _droppedCount _earliestRetainedSeq].
  set (e := make_event now (_seq b + 1) level source message data).
  destruct (enforce_drops (_config b) (_seq b + 1) (_events b ++ [e])
              (_totalBytes b + _size e) (_droppedCount b) (_earliestRetainedSeq b))
    as (k & Hk & Hev & Htot & Hdr & Hear).
  cbn zeta in *.
  assert (Hsz : Forall (fun x => 100 <= _size x) (_events b ++ [e])).
  { apply Forall_app; split; auto. constructor; auto. apply make_event_size. }
  assert (Hasc : ascending (_earliestRetainedSeq b - 1) (_events b ++ [e])).
  { apply ascending_app; auto.
    - eapply Forall_impl; [|exact Hl]. simpl. intros a Ha'.
      change (seq e) with (_seq b + 1). lia.
    - change (seq e) with (_seq b + 1). lia. }
  assert (Hlast : Forall (fun x => seq x <= _seq b + 1) (_events b ++ [e])).
  { apply Forall_app; split.
    - eapply Forall_impl; [|exact Hl]. simpl. intros; lia.
    - constructor; auto. change (seq e) with (_seq b + 1). lia. }
  constructor; rewrite ?enforce_seq.
  - rewrite Htot, Hev.
    pose proof (sum_sizes_split k (_events b ++ [e])) as Hsp.
    rewrite sum_sizes_app in Hsp.
    change (sum_sizes [e]) with (_size e + 0) in Hsp. lia.
  - rewrite Hev. apply Forall_skipn; auto.
  - rewrite Hear. destruct k; [lia|].
    pose proof (Forall_skipn _ (S k) _ Hlast) as F.
    pose proof (ascending_skipn (S k) _ _ Hasc) as A.
    destruct (skipn (S k) (_events b ++ [e])) eqn:Hsk; [lia|].
    inversion F; subst. simpl in A. lia.
  - rewrite Hear, Hev. destruct k.
    + simpl. exact Hasc.
    + pose proof (ascending_skipn (S k) _ _ Hasc) as A.
      destruct (skipn (S k) (_events b ++ [e])) eqn:Hsk; simpl; auto.
      simpl in A. split; [lia|tauto].
  - rewrite Hev. apply Forall_skipn; auto.
  - rewrite Hdr. lia.
Qed.

Lemma reachable_invariant b : reachable b -> invariant b.
Proof.
  induction 1.
  - apply invariant_new.
  - apply invariant_append; auto.
  - apply invariant_clear; auto.
Qed.

Lemma run_ops_append now level source message data rest b :
  run_ops (OpAppend now level source message data :: rest) b =
  (fst (run_ops rest (fst (append now level source message data b))),
   _seq b + 1 :: snd (run_ops rest (fst (append now level source message data b)))).
Proof.
  cbn [run_ops]. unfold append at 1. cbn [fst].
  unfold append. cbn [fst]. destruct (run_ops rest _). reflexivity.
Qed.

Lemma run_ops_clear rest b : run_ops (OpClear :: rest) b = run_ops rest (clear b).
Proof. reflexivity. Qed.

Lemma run_ops_reachable ops b : reachable b -> reachable (fst (run_ops ops b)).
Proof.
  revert b.
  induction ops as [|[now level source message data|] rest IH]; intros b Hb.
  - exact Hb.
  - rewrite run_ops_append. cbn [fst]. apply IH. constructor; exact Hb.
  - rewrite run_ops_clear. apply IH. constructor; exact Hb.
Qed.

Lemma append_returns now level source message data b :
  snd (append now level source message data b) = _seq b + 1.
Proof. reflexivity. Qed.

Lemma append_seq now level source message data b :
  _seq (fst (append now level source message data b)) = _seq b + 1.
Proof. unfold append, _enforceRetention. cbn [fst]. apply enforce_seq. Qed.

Lemma append_config now level source message data b :
  _config (fst (append now level source message data b)) = _config b.
Proof. unfold append, _enforceRetention. cbn [fst]. apply enforce_config. Qed.

Lemma run_ops_config ops b : _config (fst (run_ops ops b)) = _config b.
Proof.
  revert b.
  induction ops as [|[now level source message data|] rest IH]; intros b.
  - reflexivity.
  - rewrite run_ops_append. cbn [fst]. rewrite IH. apply append_config.
  - rewrite run_ops_clear, IH. reflexivity.
Qed.

(** ** Sequence numbers *)

Lemma run_ops_returns ops b :
  snd (run_ops ops b) = count_from (_seq b) (List.length (filter is_append ops)).
Proof.
  revert b.
  induction ops as [|[now level source message data|] rest IH]; intros b.
  - reflexivity.
  - rewrite run_ops_append. cbn [snd filter is_append List.length count_from].
    rewrite IH, append_seq. reflexivity.
  - rewrite run_ops_clear, IH. reflexivity.
Qed.

Lemma count_from_seq from n :
  count_from (Z.of_nat from) n = map Z.of_nat (List.seq (S from) n).
Proof.
  revert from. induction n as [|n IH]; intros from.
  - reflexivity.
  - cbn [count_from List.seq map].
    replace (Z.of_nat from + 1) with (Z.of_nat (S from)) by lia.
    rewrite IH. reflexivity.
Qed.

(** C2. Whatever the configuration and however calls of [clear] are mixed
    in, the calls of [append] on a new buffer return 1, 2, ..., N in the
    order of the calls; no number comes twice. *)
Theorem append_sequence_numbers (config : ConfigArg) (ops : list op) :
  let N := List.length (filter is_append ops) in
  let returned := snd (run_ops ops (new_LogBuffer config)) in
  returned = map Z.of_nat (List.seq 1 N) /\ NoDup returned.
Proof.
  intros N returned.
  assert (H : returned = map Z.of_nat (List.seq 1 N)).
  { unfold returned. rewrite run_ops_returns. apply (count_from_seq 0). }
  split; [exact H|]. rewrite H.
  apply NoDup_map_inv with (f := Z.to_nat).
  rewrite map_map. erewrite map_ext; [rewrite map_id; apply seq_NoDup|].
  intros x; simpl; lia.
Qed.

(** ** The bounds of the retention policy *)

(** C1, as amended. When neither bound of the configuration is negative,
    both bounds hold after every call of [append], whatever calls came
    before: [stats()] reports [eventCount <= maxEvents] and
    [totalBytes <= maxBytes]. *)
Theorem retention_bounds (config : ConfigArg) (ops : list op)
    (now level source message : string) (data : jval) :
  let b0 := new_LogBuffer config in
  0 <= maxEvents (_config b0) ->
  0 <= maxBytes (_config b0) ->
  let b := fst (append now level source message data (fst (run_ops ops b0))) in
  eventCount (stats b) <= maxEvents (_config b0) /\
  totalBytes (stats b) <= maxBytes (_config b0).
Proof.
  intros b0 He Hb b.
  assert (Hinv : invariant (fst (run_ops ops b0))).
  { apply reachable_invariant, run_ops_reachable. constructor. }
  assert (Hcfg : _config (fst (run_ops ops b0)) = _config b0)
    by apply run_ops_config.
  unfold b, stats, append, _enforceRetention.
  cbn [fst eventCount totalBytes _config _events _seq _totalBytes _droppedCount
       _earliestRetainedSeq].
  rewrite Hcfg.
  apply enforce_bounds; auto.
  rewrite sum_sizes_app, (inv_total _ Hinv).
  cbn [sum_sizes fold_right]. lia.
Qed.

Lemma retention_bounds_witness :
  let b0 := new_LogBuffer (Examples.config (Some 3) None) in
  let b := fst (append Examples.T0 "info" "test" "one more" JNull
                       (fst (run_ops (Examples.messages 1 5) b0))) in
  0 <= maxEvents (_config b0) /\ 0 <= maxBytes (_config b0) /\
  eventCount (stats b) <= 3 /\ totalBytes (stats b) <= 10 * 1024 * 1024.
Proof.
  intros b0 b.
  assert (H1 : 0 <= maxEvents (_config b0)) by (simpl; lia).
  assert (H2 : 0 <= maxBytes (_config b0)) by (simpl; lia).
  split; [exact H1|]. split; [exact H2|].
  exact (retention_bounds (Examples.config (Some 3) None) (Examples.messages 1 5)
           Examples.T0 "info" "test" "one more" JNull H1 H2).
Defined.

(** C1 as stated fails for a configuration with a negative bound: the
    loop stops on the empty buffer, which holds more than -1 events. *)
Lemma retention_bounds_negative_config :
  let b := fst (append Examples.T0 "info" "test" "Hello world" JNull
                       Examples.negative) in
  maxEvents (_config b) = -1 /\ eventCount (stats b) = 0 /\
  ~ eventCount (stats b) <= maxEvents (_config b).
Proof. vm_compute. repeat split; congruence. Qed.

(** ** An event larger than the whole budget *)

Lemma sum_sizes_cons a r : sum_sizes (a :: r) = _size a + sum_sizes r.
Proof. reflexivity. Qed.

Lemma sum_sizes_last r e : sum_sizes (r ++ [e]) = sum_sizes r + _size e.
Proof. rewrite sum_sizes_app, sum_sizes_cons. simpl. lia. Qed.

Lemma enforce_oversized cfg seq_ e :
  maxBytes cfg < _size e ->
  forall old total dropped earliest,
    total = sum_sizes (old ++ [e]) ->
    Forall (fun x => 100 <= _size x) old ->
    enforce cfg seq_ (old ++ [e]) total dropped earliest =
    mkBuffer cfg [] seq_ 0 (dropped + zlength old + 1) seq_.
Proof.
  intros Hbig old.
  induction old as [|a r IH]; intros total dropped earliest Ht Hs.
  - rewrite sum_sizes_last in Ht. change (sum_sizes []) with 0 in Ht.
    cbn [app enforce].
    assert (Hc : (total >? maxBytes cfg) = true) by (apply Z.gtb_lt; lia).
    rewrite Hc, orb_true_r.
    replace (total - _size e) with 0 by lia.
    destruct (_ || _); unfold zlength; simpl; f_equal; lia.
  - apply Forall_cons_iff in Hs. destruct Hs as [Ha Hr].
    change ((a :: r) ++ [e]) with (a :: (r ++ [e])).
    change ((a :: r) ++ [e]) with (a :: (r ++ [e])) in Ht.
    rewrite sum_sizes_cons, sum_sizes_last in Ht.
    assert (Hr' := sum_sizes_nonneg _ Hr).
    cbn [enforce].
    assert (Hc : (total >? maxBytes cfg) = true) by (apply Z.gtb_lt; lia).
    rewrite Hc, orb_true_r.
    rewrite IH; auto.
    + f_equal. rewrite zlength_cons. lia.
    + rewrite sum_sizes_last. lia.
Qed.

(** C10. On a reachable buffer, a call of [append] whose event is larger
    than [maxBytes] returns the new sequence number and leaves the buffer
    empty: the new event is dropped with all the others and counted, the
    byte total is 0 and the earliest retained sequence is the sequence
    counter. *)
Theorem oversized_append_empties (b : LogBuffer)
    (now level source message : string) (data : jval) :
  reachable b ->
  maxBytes (_config b) <
    _size (make_event now (_seq b + 1) level source message data) ->
  let b' := fst (append now level source message data b) in
  let returned := snd (append now level source message data b) in
  returned = _seq b + 1 /\
  _events b' = [] /\
  eventCount (stats b') = 0 /\
  droppedCount (stats b') = _droppedCount b + zlength (_events b) + 1 /\
  totalBytes (stats b') = 0 /\
  totalBytes (stats b') = sum_sizes (_events b') /\
  currentSeq (stats b') = returned /\
  earliestRetainedSeq (stats b') = currentSeq (stats b').
Proof.
  intros Hr Hbig b' returned.
  pose proof (reachable_invariant _ Hr) as Hinv.
  assert (Hb' : b' = mkBuffer (_config b) [] (_seq b + 1) 0
                       (_droppedCount b + zlength (_events b) + 1) (_seq b + 1)).
  { unfold b', append, _enforceRetention.
    cbn [fst _config _events _seq _totalBytes _droppedCount _earliestRetainedSeq].
    apply enforce_oversized; auto.
    - rewrite sum_sizes_last, (inv_total _ Hinv). reflexivity.
    - apply (inv_sizes _ Hinv). }
  rewrite Hb'. unfold returned. simpl. repeat split; reflexivity.
Qed.

Lemma oversized_append_empties_witness :
  let b := Examples.tiny in
  let b' := fst (append Examples.T0 "info" "test" "Hello world" JNull b) in
  reachable b /\
  maxBytes (_config b) <
    _size (make_event Examples.T0 (_seq b + 1) "info" "test" "Hello world" JNull) /\
  _events b' = [] /\ droppedCount (stats b') = 1 /\ totalBytes (stats b') = 0 /\
  earliestRetainedSeq (stats b') = 1.
Proof.
  intros b b'.
  assert (H1 : reachable b) by constructor.
  assert (H2 : maxBytes (_config b) <
    _size (make_event Examples.T0 (_seq b + 1) "info" "test" "Hello world" JNull))
    by (vm_compute; reflexivity).
  destruct (oversized_append_empties b Examples.T0 "info" "test" "Hello world"
              JNull H1 H2) as (_ & E & _ & D & B & _ & S & R).
  split; [exact H1|]. split; [exact H2|].
  split; [exact E|]. split; [exact D|]. split; [exact B|].
  exact (eq_trans R S).
Defined.

(** ** Sanitisation *)

Lemma jval_induction (P : jval -> Prop) :
  P JNull -> (forall b, P (JBool b)) -> (forall x, P (JNum x)) ->
  (forall s, P (JStr s)) ->
  (forall items, Forall P items -> P (JArr items)) ->
  (forall entries, Forall (fun kv => P (snd kv)) entries -> P (JObj entries)) ->
  forall v, P v.
Proof.
  intros Hnull Hbool Hnum Hstr Harr Hobj.
  fix IH 1. intros [ | b | x | s | items | entries ].
  - exact Hnull.
  - apply Hbool.
  - apply Hnum.
  - apply Hstr.
  - apply Harr. induction items as [|a r IHr]; constructor.
    + apply IH.
    + exact IHr.
  - apply Hobj. induction entries as [|a r IHr]; constructor.
    + apply IH.
    + exact IHr.
Qed.


Lemma forallb_map {A B} (p : B -> bool) (f : A -> B) (l : list A) :
  Forall (fun x => p (f x) = true) l -> forallb p (map f l) = true.
Proof. induction 1; simpl; auto. rewrite H, IHForall. reflexivity. Qed.


Lemma forallb_filter {A} (p f : A -> bool) (l : list A) :
  forallb p l = true -> forallb p (filter f l) = true.
Proof.
  induction l as [|x r IH]; [reflexivity|].
  cbn [forallb filter]. intros H. apply andb_true_iff in H. destruct H as [Hx H].
  destruct (f x); [cbn [forallb]; rewrite Hx|]; apply IH, H.
Qed.



Lemma sanitizeObject_redacted (v : jval) :
  redacted_everywhere (_sanitizeObject v) = true.
Proof.
  induction v as [ | b | x | s | items IH | entries IH ] using jval_induction;
    cbn [_sanitizeObject redacted_everywhere]; try reflexivity.
  - apply forallb_map. exact IH.
  - apply forallb_filter, forallb_map. eapply Forall_impl; [|exact IH].
    intros [k v] Hv. cbn [fst snd] in *.
    destruct (is_sensitive_key k) eqn:Hk.
    + cbn [fst snd]. rewrite Hk. reflexivity.
    + destruct v; cbn [fst snd]; rewrite Hk; try reflexivity; exact Hv.
Qed.

Lemma make_event_data now s level source message payload :
  data (make_event now s level source message payload) =
  if Json.truthy payload then _sanitizeObject payload else JNull.
Proof. reflexivity. Qed.




(** The payload of the examples, as it is stored. *)
Example sanitize_payload :
  Json.stringify (_sanitizeObject SanitizeExamples.payload) =
  Json.stringify
    (JObj [("headers", JObj [("authorization", JStr REDACTED);
                             ("content-type", JStr "application/json")]);
           ("password", JStr REDACTED);
           ("API_KEY", JStr REDACTED);
           ("attempts", JNum (of_Z 3));
           ("tags", JArr [JStr "a"; JObj [("sessionCookie", JStr REDACTED)]])]%string).
Proof. vm_compute. reflexivity. Qed.

(** ** Lines *)

Lemma no_nl_append a b : no_nl (a ++ b) = no_nl a && no_nl b.
Proof.
  induction a as [|c a IH]; [reflexivity|].
  change (String c a ++ b)%string with (String c (a ++ b)).
  cbn [no_nl]. rewrite IH, andb_assoc. reflexivity.
Qed.

Lemma no_nl_take n s : no_nl s = true -> no_nl (Str.take n s) = true.
Proof.
  revert s. induction n as [|n IH]; intros [|c s]; cbn [Str.take no_nl]; auto.
  intros H. apply andb_true_iff in H. destruct H as [H1 H2].
  rewrite H1, IH; auto.
Qed.

Lemma no_nl_drop n s : no_nl s = true -> no_nl (Str.drop n s) = true.
Proof.
  revert s. induction n as [|n IH]; intros [|c s]; cbn [Str.drop no_nl]; auto.
  intros H. apply andb_true_iff in H. destruct H as [H1 H2]. auto.
Qed.

Lemma no_nl_repeat c n :
  Ascii.eqb c Str.newline = false -> no_nl (Str.repeat c n) = true.
Proof. intros H. induction n; cbn [Str.repeat no_nl]; auto. rewrite H, IHn. reflexivity. Qed.

Lemma split_no_nl s : no_nl s = true -> Str.split Str.newline s = [s].
Proof.
  induction s as [|c s IH]; [reflexivity|].
  cbn [no_nl Str.split]. intros H. apply andb_true_iff in H. destruct H as [H1 H2].
  apply negb_true_iff in H1. rewrite H1, (IH H2). reflexivity.
Qed.

Lemma split_append_nl a t :
  no_nl a = true ->
  Str.split Str.newline (a ++ Str.nl ++ t) = a :: Str.split Str.newline t.
Proof.
  induction a as [|c a IH]; intros H.
  - change (Str.split Str.newline (String Str.newline t) =
            EmptyString :: Str.split Str.newline t).
    cbn [Str.split]. rewrite Ascii.eqb_refl. reflexivity.
  - cbn [no_nl] in H. apply andb_true_iff in H. destruct H as [H1 H2].
    apply negb_true_iff in H1.
    change (String c a ++ Str.nl ++ t)%string with (String c (a ++ Str.nl ++ t)).
    cbn [Str.split]. rewrite H1, (IH H2). reflexivity.
Qed.

Lemma split_join ls :
  ls <> [] -> Forall (fun l => no_nl l = true) ls ->
  Str.split Str.newline (Str.join Str.nl ls) = ls.
Proof.
  induction ls as [|x r IH]; intros Hne H; [congruence|].
  apply Forall_cons_iff in H. destruct H as [Hx Hr].
  destruct r as [|y r].
  - apply split_no_nl. exact Hx.
  - change (Str.join Str.nl (x :: y :: r)) with
      (x ++ Str.nl ++ Str.join Str.nl (y :: r))%string.
    rewrite split_append_nl; auto. rewrite IH; auto. congruence.
Qed.

Lemma split_lines_no_nl s :
  Forall (fun l => no_nl l = true) (Str.split Str.newline s).
Proof.
  induction s as [|c s IH]; cbn [Str.split].
  - constructor; auto.
  - destruct (Ascii.eqb c Str.newline) eqn:E.
    + constructor; auto.
    + destruct (Str.split Str.newline s) as [|l ls].
      * constructor; auto. cbn [no_nl]. rewrite E. reflexivity.
      * apply Forall_cons_iff in IH. destruct IH as [Hl Hls].
        constructor; auto. cbn [no_nl]. rewrite E, Hl. reflexivity.
Qed.

Lemma join_split s : Str.join Str.nl (Str.split Str.newline s) = s.
Proof.
  induction s as [|c s IH]; [reflexivity|].
  cbn [Str.split].
  destruct (Ascii.eqb c Str.newline) eqn:E.
  - apply Ascii.eqb_eq in E. subst c.
    destruct (Str.split Str.newline s) as [|l ls] eqn:Es.
    + simpl in IH. subst s. discriminate.
    + change (Str.join Str.nl (EmptyString :: l :: ls)) with
        (EmptyString ++ Str.nl ++ Str.join Str.nl (l :: ls))%string.
      rewrite IH. reflexivity.
  - destruct (Str.split Str.newline s) as [|l ls] eqn:Es.
    + simpl in IH. subst s. discriminate.
    + destruct ls as [|l' ls].
      * simpl in IH. subst. reflexivity.
      * change (Str.join Str.nl (String c l :: l' :: ls)) with
          (String c (l ++ Str.nl ++ Str.join Str.nl (l' :: ls)))%string.
        change (Str.join Str.nl (l :: l' :: ls)) with
          (l ++ Str.nl ++ Str.join Str.nl (l' :: ls))%string in IH.
        rewrite IH. reflexivity.
Qed.

(** ** The text of a number has no line break *)

Lemma digit_char_not_nl n :
  Ascii.eqb (Str.chr (48 + Z.to_N (n mod 10))) Str.newline = false.
Proof.
  assert (H : 0 <= n mod 10 < 10) by (apply Z.mod_pos_bound; lia).
  assert (C : n mod 10 = 0 \/ n mod 10 = 1 \/ n mod 10 = 2 \/ n mod 10 = 3 \/
              n mod 10 = 4 \/ n mod 10 = 5 \/ n mod 10 = 6 \/ n mod 10 = 7 \/
              n mod 10 = 8 \/ n mod 10 = 9) by lia.
  repeat (destruct C as [C|C]; [rewrite C; reflexivity|]).
  rewrite C; reflexivity.
Qed.

Lemma digits_fuel_no_nl fuel n acc :
  no_nl acc = true -> no_nl (Num.digits_fuel fuel n acc) = true.
Proof.
  revert n acc. induction fuel as [|f IH]; intros n acc H; cbn [Num.digits_fuel]; auto.
  assert (H' : no_nl (String (Str.chr (48 + Z.to_N (n mod 10))) acc) = true).
  { cbn [no_nl]. rewrite digit_char_not_nl, H. reflexivity. }
  destruct (n <? 10); auto.
Qed.

Lemma digits_no_nl n : no_nl (Num.digits n) = true.
Proof. apply digits_fuel_no_nl. reflexivity. Qed.

Lemma no_nl_forallb s : no_nl s = forallb not_nl (list_ascii_of_string s).
Proof.
  induction s as [|c s IH]; [reflexivity|].
  cbn [no_nl list_ascii_of_string forallb]. rewrite IH. reflexivity.
Qed.

Lemma forallb_strip_zeros l :
  forallb not_nl l = true -> forallb not_nl (Num.strip_zeros_rev l) = true.
Proof.
  induction l as [|c l IH]; cbn [Num.strip_zeros_rev forallb]; auto.
  intros H. destruct (Ascii.eqb c (Str.chr 48)); auto.
  apply andb_true_iff in H. tauto.
Qed.

Lemma forallb_rev {A} (p : A -> bool) l : forallb p (rev l) = forallb p l.
Proof.
  induction l as [|x l IH]; [reflexivity|].
  cbn [rev forallb]. rewrite forallb_app, IH. cbn [forallb].
  rewrite andb_true_r, andb_comm. reflexivity.
Qed.

Lemma strip_trailing_zeros_no_nl s :
  no_nl s = true -> no_nl (Num.strip_trailing_zeros s) = true.
Proof.
  intros H. unfold Num.strip_trailing_zeros.
  rewrite no_nl_forallb, list_ascii_of_string_of_list_ascii, forallb_rev.
  apply forallb_strip_zeros. rewrite forallb_rev, <- no_nl_forallb. exact H.
Qed.

Lemma format_no_nl s n : no_nl s = true -> no_nl (Num.format s n) = true.
Proof.
  intros H. unfold Num.format.
  repeat match goal with
         | |- context [if ?c then _ else _] => destruct c
         end;
    rewrite ?no_nl_append, ?H, ?no_nl_take, ?no_nl_drop, ?no_nl_repeat,
      ?digits_no_nl by auto; reflexivity.
Qed.

Lemma to_string_no_nl x : no_nl (Num.to_string x) = true.
Proof.
  unfold Num.to_string.
  destruct (_ =? 0); [reflexivity|].
  assert (H : no_nl (Num.format
                       (Num.strip_trailing_zeros (Num.digits (Z.abs (mant (Num.norm x)))))
                       (Str.len (Num.digits (Z.abs (mant (Num.norm x))))
                          - Z.of_nat (scale (Num.norm x)))) = true).
  { apply format_no_nl, strip_trailing_zeros_no_nl, digits_no_nl. }
  destruct (_ <? 0); [rewrite no_nl_append, H; reflexivity | exact H].
Qed.

Lemma frames_trailer_no_nl n : no_nl (frames_trailer n) = true.
Proof.
  unfold frames_trailer. rewrite !no_nl_append, to_string_no_nl. reflexivity.
Qed.

(** ** Stack-trace truncation *)

Lemma first_frame_cons_false l r k :
  is_frame l = false -> (first_frame (l :: r) (S k) <-> first_frame r k).
Proof.
  intros El. unfold first_frame. cbn [List.length nth]. split.
  - intros (H1 & H2 & H3). repeat split; auto; try lia.
    intros j Hj. apply (H3 (S j)). lia.
  - intros (H1 & H2 & H3). repeat split; auto; try lia.
    intros [|j] Hj; auto. apply H3. lia.
Qed.

Lemma find_frame_first lines k : find_frame lines = Some k <-> first_frame lines k.
Proof.
  revert k. induction lines as [|l r IH]; intros k; cbn [find_frame].
  - split; [discriminate|]. intros (H & _). simpl in H. lia.
  - destruct (is_frame l) eqn:El.
    + split.
      * intros E. inversion E; subst. repeat split; simpl; auto; try lia.
      * intros (H1 & H2 & H3). destruct k; auto.
        specialize (H3 O ltac:(lia)). simpl in H3. congruence.
    + destruct k as [|k].
      * split.
        -- destruct (find_frame r); discriminate.
        -- intros (H1 & H2 & H3). simpl in H2. congruence.
      * rewrite (first_frame_cons_false l r k El), <- IH.
        destruct (find_frame r) as [i|]; split; intros E;
          inversion E; subst; reflexivity.
Qed.

Lemma find_frame_none lines : find_frame lines = None <-> no_frame lines.
Proof.
  induction lines as [|l r IH]; cbn [find_frame].
  - split; auto. constructor.
  - destruct (is_frame l) eqn:El.
    + split; [discriminate|]. intros H. inversion H; congruence.
    + destruct (find_frame r) eqn:Er.
      * split; [discriminate|]. intros H. inversion H; subst.
        apply IH in H3. discriminate.
      * split; auto. intros _. constructor; auto. apply IH; auto.
Qed.

Lemma slice0_firstn {A} (l : list A) n :
  0 <= n -> slice0 l n = firstn (Z.to_nat n) l.
Proof.
  intros H. unfold slice0.
  replace (n <? 0) with false by (symmetry; apply Z.ltb_ge; lia).
  destruct (Z.le_gt_cases n (Z.of_nat (List.length l))).
  - rewrite Z.min_l by lia. reflexivity.
  - rewrite Z.min_r by lia. rewrite Nat2Z.id.
    rewrite !firstn_all2; auto; lia.
Qed.

Lemma string_app_assoc (a b c : string) : ((a ++ b) ++ c = a ++ (b ++ c))%string.
Proof. induction a as [|x a IH]; [reflexivity|]. simpl. rewrite IH. reflexivity. Qed.

Lemma join_snoc ls t :
  ls <> [] -> Str.join Str.nl (ls ++ [t]) = (Str.join Str.nl ls ++ Str.nl ++ t)%string.
Proof.
  induction ls as [|x r IH]; intros H; [congruence|].
  destruct r as [|y r].
  - reflexivity.
  - change (Str.join Str.nl ((x :: y :: r) ++ [t])) with
      (x ++ Str.nl ++ Str.join Str.nl ((y :: r) ++ [t]))%string.
    rewrite IH by congruence.
    change (Str.join Str.nl (x :: y :: r)) with
      (x ++ Str.nl ++ Str.join Str.nl (y :: r))%string.
    rewrite !string_app_assoc. reflexivity.
Qed.

Lemma normal_level_not_debug lvl :
  String.eqb lvl "debug" = false ->
  String.eqb (if includes_str lvl LOG_LEVELS then lvl else "info"%string) "debug" = false.
Proof. intros H. destruct (includes_str lvl LOG_LEVELS); auto. Qed.

Lemma make_event_message now s lvl src msg payload :
  message (make_event now s lvl src msg payload) =
  if String.eqb lvl "debug" then _sanitize msg
  else _truncateStackTrace (_sanitize msg).
Proof.
  unfold make_event, new_LogEvent. cbn [message].
  destruct (String.eqb lvl "debug") eqn:E.
  - apply String.eqb_eq in E. subst lvl. reflexivity.
  - rewrite (normal_level_not_debug _ E). reflexivity.
Qed.

Lemma Forall_firstn {A} (P : A -> Prop) k (l : list A) :
  Forall P l -> Forall P (firstn k l).
Proof.
  revert l. induction k; intros [|x l] H; simpl; auto.
  inversion H; auto.
Qed.

(** C7, as amended. At a level other than debug, a sanitised message of
    more than 40 lines whose first frame line is line [k], with [k] at
    most 40, is stored as its [k] lines of text, its first [40 - k] stack
    lines and a trailer that counts the omitted frames: 41 lines. With
    no frame line, it is stored as its first 40 lines and the trailer
    [... (truncated)]. At level debug the sanitised message is stored as
    it is. *)
Theorem stack_truncation (now : string) (s : Z) (lvl src msg : string)
    (payload : jval) :
  let lines := Str.split Str.newline (_sanitize msg) in
  let total := zlength lines in
  MAX_STACK_LINES < total ->
  String.eqb lvl "debug" = false ->
  let stored := message (make_event now s lvl src msg payload) in
  (forall k, first_frame lines k -> Z.of_nat k <= MAX_STACK_LINES ->
     Str.split Str.newline stored =
       firstn k lines ++ firstn (40 - k) (skipn k lines)
         ++ [frames_trailer (total - MAX_STACK_LINES)] /\
     zlength (Str.split Str.newline stored) = MAX_STACK_LINES + 1) /\
  (no_frame lines ->
     Str.split Str.newline stored = firstn 40 lines ++ ["... (truncated)"%string]) /\
  message (make_event now s "debug" src msg payload) = _sanitize msg.
Proof.
  intros lines total Hlong Hlvl stored.
  assert (Hst : stored = _truncateStackTrace (_sanitize msg)).
  { unfold stored. rewrite make_event_message, Hlvl. reflexivity. }
  assert (Hnl : Forall (fun l => no_nl l = true) lines) by apply split_lines_no_nl.
  assert (Hcmp : (zlength lines <=? MAX_STACK_LINES) = false)
    by (apply Z.leb_gt; exact Hlong).
  unfold MAX_STACK_LINES in *.
  split; [|split].
  - intros k Hk Hk40.
    assert (Hf : find_frame lines = Some k) by (apply find_frame_first; exact Hk).
    destruct Hk as (Hklen & _ & _).
    assert (Hml : zlength (firstn k lines) = Z.of_nat k).
    { unfold zlength. rewrite length_firstn. lia. }
    assert (Hsl : zlength (skipn k lines) = total - Z.of_nat k).
    { unfold total, zlength. rewrite length_skipn. lia. }
    assert (E : stored =
              Str.join Str.nl
                (firstn k lines ++ firstn (40 - k) (skipn k lines)
                   ++ [frames_trailer (total - 40)])).
    { rewrite Hst. unfold _truncateStackTrace. fold lines.
      unfold MAX_STACK_LINES. rewrite Hcmp, Hf, Hml, Hsl.
      replace (total - Z.of_nat k <=? 40 - Z.of_nat k) with false
        by (symmetry; apply Z.leb_gt; lia).
      rewrite slice0_firstn by lia.
      replace (Z.to_nat (40 - Z.of_nat k)) with (40 - k)%nat by lia.
      replace (total - Z.of_nat k - (40 - Z.of_nat k)) with (total - 40) by lia.
      reflexivity. }
    assert (S : Str.split Str.newline stored =
                firstn k lines ++ firstn (40 - k) (skipn k lines)
                  ++ [frames_trailer (total - 40)]).
    { rewrite E. apply split_join.
      - intros C. apply app_eq_nil in C. destruct C as [_ C].
        apply app_eq_nil in C. destruct C as [_ C]. discriminate.
      - apply Forall_app. split; [apply Forall_firstn; exact Hnl|].
        apply Forall_app. split.
        + apply Forall_firstn, Forall_skipn. exact Hnl.
        + constructor; [apply frames_trailer_no_nl | constructor]. }
    split; [exact S|].
    rewrite S. rewrite !zlength_app, Hml.
    unfold zlength at 1. rewrite length_firstn, length_skipn.
    unfold zlength, total, zlength in *. simpl List.length. lia.
  - intros Hno.
    assert (Hf : find_frame lines = None) by (apply find_frame_none; exact Hno).
    rewrite Hst. unfold _truncateStackTrace. fold lines.
    unfold MAX_STACK_LINES. rewrite Hcmp, Hf.
    rewrite slice0_firstn by lia.
    change (Z.to_nat 40) with 40%nat.
    assert (Hne : firstn 40 lines <> []).
    { intros C. apply (f_equal (@List.length string)) in C.
      rewrite length_firstn in C. cbn [List.length] in C.
      unfold total, zlength in Hlong. lia. }
    rewrite <- join_snoc by exact Hne.
    apply split_join.
    + intros C. apply app_eq_nil in C. destruct C as [_ C]. discriminate.
    + apply Forall_app. split; [apply Forall_firstn; exact Hnl|].
      constructor; [reflexivity | constructor].
  - rewrite make_event_message. reflexivity.
Qed.

Lemma stack_truncation_witness :
  let lines := Str.split Str.newline (_sanitize TruncateExamples.long_stack) in
  let stored :=
    message (make_event Examples.T0 1 "error" "test" TruncateExamples.long_stack JNull) in
  MAX_STACK_LINES < zlength lines /\
  String.eqb "error" "debug" = false /\
  first_frame lines 1 /\
  zlength (Str.split Str.newline stored) = MAX_STACK_LINES + 1.
Proof.
  intros lines stored.
  assert (H1 : MAX_STACK_LINES < zlength lines) by (vm_compute; reflexivity).
  assert (H2 : String.eqb "error" "debug" = false) by reflexivity.
  assert (H3 : first_frame lines 1)
    by (apply find_frame_first; vm_compute; reflexivity).
  split; [exact H1|]. split; [exact H2|]. split; [exact H3|].
  destruct (stack_truncation Examples.T0 1 "error" "test"
              TruncateExamples.long_stack JNull H1 H2) as (F & _ & _).
  exact (proj2 (F 1%nat H3 ltac:(vm_compute; discriminate))).
Defined.

(** C7 as stated fails when more than 40 lines come before the first
    frame line: of 41 lines of text and 2 stack lines, 43 lines are
    stored, and the trailer counts 3 omitted frames where one was left
    out. *)
Lemma stack_truncation_late_frames :
  let lines := Str.split Str.newline (_sanitize TruncateExamples.late_stack) in
  let stored :=
    message (make_event Examples.T0 1 "error" "test" TruncateExamples.late_stack JNull) in
  first_frame lines 41 /\
  zlength lines = 43 /\
  Str.split Str.newline stored =
    firstn 41 lines ++ ["at f"%string; frames_trailer 3] /\
  ~ zlength (Str.split Str.newline stored) <= MAX_STACK_LINES + 1.
Proof.
  intros lines stored. split; [apply find_frame_first; vm_compute; reflexivity|].
  split; [vm_compute; reflexivity|].
  split; [vm_compute; reflexivity|].
  vm_compute. intros H. apply H. reflexivity.
Qed.

(** ** The loop of read *)

Lemma geb_false a b : (a >=? b) = false -> a < b.
Proof. rewrite Z.geb_leb. apply Z.leb_gt. Qed.

Lemma geb_true a b : (a >=? b) = true -> b <= a.
Proof. rewrite Z.geb_leb. apply Z.leb_le. Qed.

Lemma gtb_false a b : (a >? b) = false -> a <= b.
Proof. rewrite Z.gtb_ltb. apply Z.ltb_ge. Qed.

Lemma gtb_true a b : (a >? b) = true -> b < a.
Proof. rewrite Z.gtb_ltb. apply Z.ltb_lt. Qed.

Lemma gtb_le a b : a <= b -> (a >? b) = false.
Proof. rewrite Z.gtb_ltb. apply Z.ltb_ge. Qed.

Lemma gtb_lt a b : b < a -> (a >? b) = true.
Proof. rewrite Z.gtb_ltb. apply Z.ltb_lt. Qed.

Lemma geb_lt a b : a < b -> (a >=? b) = false.
Proof. rewrite Z.geb_leb. apply Z.leb_gt. Qed.

Lemma geb_le a b : b <= a -> (a >=? b) = true.
Proof. rewrite Z.geb_leb. apply Z.leb_le. Qed.

Section Scan.

Variable options : ReadOptions.
Variable eff : jsnum.

Let L := effectiveLimit options.
Let M := effectiveMaxBytes options.

Lemma scan_skip e rest st :
  candidate options eff e = false ->
  scan options eff (e :: rest) st = scan options eff rest st.
Proof.
  unfold candidate. cbn [scan]. intros H.
  destruct (Num.leb _ _); [reflexivity|].
  destruct (filtered_out (levels options) _); [reflexivity|].
  destruct (filtered_out (sources options) _); [reflexivity|].
  discriminate.
Qed.

Lemma scan_candidate e rest st :
  candidate options eff e = true ->
  scan options eff (e :: rest) st =
  if s_currentBytes st + eventSize (view_of options e) >? M then
    mkScan (s_events st) (s_currentBytes st) (s_lastSeq st) true true
  else if zlength (s_events st) >=? L then
    mkScan (s_events st) (s_currentBytes st) (s_lastSeq st) true (s_truncated st)
  else
    scan options eff rest
         (mkScan (s_events st ++ [view_of options e])
                 (s_currentBytes st + eventSize (view_of options e))
                 (of_Z (seq e)) (s_has_more st) (s_truncated st)).
Proof.
  unfold candidate. cbn [scan]. intros H.
  destruct (Num.leb _ _); [discriminate|].
  destruct (filtered_out (levels options) _); [discriminate|].
  destruct (filtered_out (sources options) _); [discriminate|].
  reflexivity.
Qed.

Lemma scan_nil st : scan options eff [] st = st.
Proof. reflexivity. Qed.

(** Case analysis on the first retained event. *)
Ltac scan_step e rest st :=
  destruct (candidate options eff e) eqn:?Hcand;
  [ rewrite (scan_candidate e rest st) by assumption;
    destruct (s_currentBytes st + eventSize (view_of options e) >? M) eqn:?Hbytes;
    [ | destruct (zlength (s_events st) >=? L) eqn:?Hfull ]
  | rewrite (scan_skip e rest st) by assumption ].

(** What the loop adds to the result are views of candidates, in the
    order of the buffer, and it adds their sizes to the running total. *)
Lemma scan_added evs st :
  exists added,
    s_events (scan options eff evs st) = s_events st ++ map (view_of options) added /\
    s_currentBytes (scan options eff evs st) =
      s_currentBytes st + sum_eventSize (map (view_of options) added) /\
    Forall (fun e => In e evs /\ candidate options eff e = true) added.
Proof.
  revert st. induction evs as [|e rest IH]; intros st.
  - exists []. cbn. rewrite app_nil_r. repeat split; auto. lia.
  - scan_step e rest st.
    + exists []. cbn. rewrite app_nil_r. repeat split; auto. lia.
    + exists []. cbn. rewrite app_nil_r. repeat split; auto. lia.
    + destruct (IH (mkScan (s_events st ++ [view_of options e])
                           (s_currentBytes st + eventSize (view_of options e))
                           (of_Z (seq e)) (s_has_more st) (s_truncated st)))
        as (added & H1 & H2 & H3).
      exists (e :: added). cbn [s_events s_currentBytes] in *.
      rewrite H1, H2. cbn [map]. rewrite <- app_assoc. cbn [app].
      repeat split.
      * unfold sum_eventSize. cbn [fold_right]. lia.
      * constructor; [split; [left; reflexivity | assumption]|].
        eapply Forall_impl; [|exact H3]. cbn. intros a [Ha Hc]. auto.
    + destruct (IH st) as (added & H1 & H2 & H3).
      exists added. repeat split; auto.
      eapply Forall_impl; [|exact H3]. cbn. intros a [Ha Hc]. auto.
Qed.

Lemma scan_limit evs st :
  zlength (s_events st) <= L -> zlength (s_events (scan options eff evs st)) <= L.
Proof.
  revert st. induction evs as [|e rest IH]; intros st H; [exact H|].
  scan_step e rest st; auto.
  apply IH. cbn [s_events]. rewrite zlength_app.
  apply geb_false in Hfull. unfold zlength at 2. cbn [List.length]. lia.
Qed.

Lemma scan_bytes evs st :
  s_currentBytes st <= M -> s_currentBytes (scan options eff evs st) <= M.
Proof.
  revert st. induction evs as [|e rest IH]; intros st H; [exact H|].
  scan_step e rest st; auto.
  apply IH. cbn [s_currentBytes]. apply gtb_false. exact Hbytes.
Qed.

(** A stored event is admitted only under the byte cap. *)
Lemma scan_bytes_admitted evs st :
  s_events (scan options eff evs st) <> s_events st ->
  s_currentBytes (scan options eff evs st) <= M.
Proof.
  revert st. induction evs as [|e rest IH]; intros st H; [cbn in H; congruence|].
  revert H. scan_step e rest st; cbn [s_events]; intros H; try congruence; auto.
  apply scan_bytes. cbn [s_currentBytes]. apply gtb_false. exact Hbytes.
Qed.

Lemma scan_truncated_has_more evs st :
  (s_truncated st = true -> s_has_more st = true) ->
  s_truncated (scan options eff evs st) = true ->
  s_has_more (scan options eff evs st) = true.
Proof.
  revert st. induction evs as [|e rest IH]; intros st H; [exact H|].
  scan_step e rest st; cbn [s_truncated s_has_more]; auto.
Qed.

(** The loop over [pre ++ rest] when it does not break in [pre]. *)
Lemma scan_app pre rest st :
  s_has_more (scan options eff pre st) = false ->
  scan options eff (pre ++ rest) st = scan options eff rest (scan options eff pre st).
Proof.
  revert st. induction pre as [|e pre IH]; intros st; [reflexivity|].
  change ((e :: pre) ++ rest) with (e :: (pre ++ rest)).
  destruct (candidate options eff e) eqn:Hcand.
  - rewrite (scan_candidate e pre st), (scan_candidate e (pre ++ rest) st) by assumption.
    destruct (_ >? M); [cbn; discriminate|].
    destruct (_ >=? L); [cbn; discriminate|].
    apply IH.
  - rewrite (scan_skip e pre st), (scan_skip e (pre ++ rest) st) by assumption.
    apply IH.
Qed.

(** [truncated] is set by the byte cap and by nothing else. *)
Lemma scan_truncated_cause evs st :
  s_has_more st = false -> s_truncated st = false ->
  s_truncated (scan options eff evs st) = true ->
  exists pre e,
    reaches options eff st evs pre e /\
    s_currentBytes (scan options eff pre st) + eventSize (view_of options e) > M /\
    s_events (scan options eff evs st) = s_events (scan options eff pre st).
Proof.
  revert st. induction evs as [|e rest IH]; intros st Hm Ht H.
  - cbn in H. congruence.
  - destruct (candidate options eff e) eqn:Hcand.
    + rewrite (scan_candidate e rest st) in * by assumption.
      destruct (_ >? M) eqn:Hb.
      * exists [], e. unfold reaches. cbn [scan app s_events].
        repeat split; eauto. apply gtb_true in Hb. lia.
      * destruct (_ >=? L) eqn:Hf; [cbn in H; congruence|].
        apply IH in H; [|exact Hm|exact Ht].
        destruct H as (pre & e' & (Hsp & Hnb & Hc) & Hby & Hev).
        destruct Hsp as [post Hsp].
        exists (e :: pre), e'. unfold reaches.
        rewrite !(scan_candidate e pre st), Hb, Hf by assumption.
        repeat split; auto.
        exists post. rewrite Hsp. reflexivity.
    + rewrite (scan_skip e rest st) in * by assumption.
      destruct (IH _ Hm Ht H) as (pre & e' & (Hsp & Hnb & Hc) & Hby & Hev).
      destruct Hsp as [post Hsp].
      exists (e :: pre), e'. unfold reaches.
      rewrite !(scan_skip e pre st) by assumption.
      repeat split; auto.
      exists post. rewrite Hsp. reflexivity.
Qed.

(** What the loop does at the candidate it reaches: the byte cap is
    tested first, the item limit after it. *)
Lemma scan_reaches evs st pre e :
  reaches options eff st evs pre e ->
  let st' := scan options eff pre st in
  ((s_currentBytes st' + eventSize (view_of options e) >? M) = true ->
   scan options eff evs st =
   mkScan (s_events st') (s_currentBytes st') (s_lastSeq st') true true) /\
  ((s_currentBytes st' + eventSize (view_of options e) >? M) = false ->
   (zlength (s_events st') >=? L) = true ->
   scan options eff evs st =
   mkScan (s_events st') (s_currentBytes st') (s_lastSeq st') true (s_truncated st')).
Proof.
  intros ([post Hsp] & Hnb & Hc) st'.
  assert (E : scan options eff evs st = scan options eff (e :: post) st')
    by (rewrite Hsp; apply scan_app; exact Hnb).
  rewrite E, (scan_candidate e post st' Hc).
  split.
  - intros Hb. rewrite Hb. reflexivity.
  - intros Hb Hf. rewrite Hb, Hf. reflexivity.
Qed.

Lemma scan_truncated_stays evs st :
  s_truncated st = false -> s_has_more (scan options eff evs st) = false ->
  s_truncated (scan options eff evs st) = false.
Proof.
  intros Ht Hm. destruct (s_truncated (scan options eff evs st)) eqn:E; auto.
  rewrite scan_truncated_has_more in Hm; auto. congruence.
Qed.

End Scan.

(** ** Reading *)

Lemma decodeCursor_returns cursor : exists n, _decodeCursor cursor = Returns n.
Proof. unfold _decodeCursor. destruct (decode_try cursor); eauto. Qed.

Lemma start_of_returns cursor : exists startSeq, start_of cursor = Returns startSeq.
Proof.
  destruct cursor as [[|c s]|]; cbn [start_of]; eauto.
  apply decodeCursor_returns.
Qed.

Lemma read_start now options b startSeq :
  start_of (cursor options) = Returns startSeq ->
  read now options b = Returns (b, read_from now options startSeq b).
Proof. unfold read. intros H. rewrite H. reflexivity. Qed.

Lemma read_returns now options b :
  exists startSeq,
    start_of (cursor options) = Returns startSeq /\
    read now options b = Returns (b, read_from now options startSeq b).
Proof.
  destruct (start_of_returns (cursor options)) as [s H].
  exists s. split; [exact H | apply read_start; exact H].
Qed.

Lemma read_from_events now options startSeq b :
  events (read_from now options startSeq b) =
  s_events (scan options (effective_start startSeq b) (_events b)
                 (scan_start now startSeq b)).
Proof. reflexivity. Qed.

Lemma read_from_truncated now options startSeq b :
  truncated (read_from now options startSeq b) =
  s_truncated (scan options (effective_start startSeq b) (_events b)
                    (scan_start now startSeq b)).
Proof. reflexivity. Qed.

Lemma read_from_cursor now options startSeq b :
  r_cursor (read_from now options startSeq b) =
  _encodeCursor
    (s_lastSeq (scan options (effective_start startSeq b) (_events b)
                     (scan_start now startSeq b))).
Proof. reflexivity. Qed.

Lemma read_from_has_more now options startSeq b :
  s_has_more (scan options (effective_start startSeq b) (_events b)
                   (scan_start now startSeq b)) = true ->
  has_more (read_from now options startSeq b) = true.
Proof.
  intros H. unfold read_from. cbn [has_more].
  change (scan options _ (_events b) _) with
    (scan options (effective_start startSeq b) (_events b) (scan_start now startSeq b)).
  rewrite H. reflexivity.
Qed.

Lemma effectiveLimit_range options : 1 <= effectiveLimit options <= 1000.
Proof. unfold effectiveLimit. lia. Qed.

Lemma effectiveMaxBytes_range options : 1000 <= effectiveMaxBytes options <= 1000000.
Proof. unfold effectiveMaxBytes. lia. Qed.

Lemma scan_start_length now startSeq b :
  zlength (s_events (scan_start now startSeq b)) <= 1.
Proof.
  unfold scan_start. destruct (points_to_dropped startSeq b); cbn; unfold zlength; simpl; lia.
Qed.

(** C6. Every call of [read] returns, and its result obeys the effective
    limits: the item limit is [limit] (200 by default) brought into
    [1, 1000], the byte cap is [maxBytes] (256000 by default) brought
    into [1000, 1000000]; the events returned are never more than the
    item limit; [truncated] comes with [has_more], and only from a
    candidate event that the byte cap refused; at the candidate where the
    loop stops, the byte cap decides first, and the item limit alone
    sets [has_more] without [truncated]. *)
Theorem read_limits (now : string) (options : ReadOptions) (b : LogBuffer) :
  let L := effectiveLimit options in
  let M := effectiveMaxBytes options in
  L = Z.min (Z.max 1 (default 200 (limit options))) 1000 /\
  M = Z.min (Z.max 1000 (default 256000 (opt_maxBytes options))) 1000000 /\
  effectiveLimit no_options = 200 /\
  effectiveMaxBytes no_options = 256000 /\
  exists startSeq,
    read now options b = Returns (b, read_from now options startSeq b) /\
    let r := read_from now options startSeq b in
    let eff := effective_start startSeq b in
    let st0 := scan_start now startSeq b in
    zlength (events r) <= L /\
    (truncated r = true -> has_more r = true) /\
    (truncated r = true ->
     exists pre e,
       reaches options eff st0 (_events b) pre e /\
       s_currentBytes (scan options eff pre st0) + eventSize (view_of options e) > M) /\
    (forall pre e,
       reaches options eff st0 (_events b) pre e ->
       let st := scan options eff pre st0 in
       if s_currentBytes st + eventSize (view_of options e) >? M then
         truncated r = true /\ has_more r = true /\ events r = s_events st
       else
         zlength (s_events st) >= L ->
         truncated r = false /\ has_more r = true /\ events r = s_events st).
Proof.
  intros L M.
  split; [reflexivity|]. split; [reflexivity|].
  split; [reflexivity|]. split; [reflexivity|].
  destruct (read_returns now options b) as (startSeq & _ & Hr).
  exists startSeq. split; [exact Hr|].
  intros r eff st0.
  pose proof (effectiveLimit_range options) as HL.
  assert (E : events r = s_events (scan options eff (_events b) st0))
    by apply read_from_events.
  assert (T : truncated r = s_truncated (scan options eff (_events b) st0))
    by apply read_from_truncated.
  assert (Hm : s_has_more (scan options eff (_events b) st0) = true ->
               has_more r = true)
    by apply read_from_has_more.
  split; [|split; [|split]].
  - rewrite E. apply scan_limit.
    pose proof (scan_start_length now startSeq b) as H0.
    change (zlength (s_events st0) <= 1) in H0. fold L in HL. lia.
  - rewrite T. intros H. apply Hm.
    apply scan_truncated_has_more; [discriminate | exact H].
  - rewrite T. intros H.
    destruct (scan_truncated_cause options eff (_events b) st0) as (pre & e & R & B & _);
      auto.
    exists pre, e. split; [exact R | exact B].
  - intros pre e R st.
    destruct (scan_reaches options eff (_events b) st0 pre e R) as [Sb Sl].
    fold st in Sb, Sl. fold M L in Sb, Sl.
    destruct R as (_ & Hnb & _).
    destruct (_ >? M) eqn:Hb.
    + specialize (Sb eq_refl).
      rewrite T, E, Sb. cbn. repeat split. apply Hm. rewrite Sb. reflexivity.
    + intros Hfull.
      assert (Hf : (zlength (s_events st) >=? L) = true) by (apply geb_le; lia).
      specialize (Sl eq_refl Hf).
      rewrite T, E, Sl. cbn [s_truncated s_events]. repeat split.
      * apply scan_truncated_stays; [reflexivity | exact Hnb].
      * apply Hm. rewrite Sl. reflexivity.
Qed.

Lemma leb_of_Z a b : Num.leb (of_Z a) (of_Z b) = (a <=? b).
Proof. unfold Num.leb, of_Z, Num.pow10. cbn. rewrite !Z.mul_1_r. reflexivity. Qed.

Lemma ltb_of_Z a b : Num.ltb (of_Z a) (of_Z b) = (a <? b).
Proof. unfold Num.ltb, of_Z, Num.pow10. cbn. rewrite !Z.mul_1_r. reflexivity. Qed.

Lemma ltb_leb x y : Num.ltb x y = true -> Num.leb x y = true.
Proof. unfold Num.ltb, Num.leb. intros H. apply Z.ltb_lt in H. apply Z.leb_le. lia. Qed.

Lemma max_of_smaller x y : Num.ltb x y = true -> Num.max x y = y.
Proof. intros H. unfold Num.max. rewrite (ltb_leb _ _ H). reflexivity. Qed.

Lemma scan_skip_all options eff pre rest st :
  Forall (fun x => candidate options eff x = false) pre ->
  scan options eff (pre ++ rest) st = scan options eff rest st.
Proof.
  induction 1 as [|e pre He Hpre IH]; [reflexivity|].
  change ((e :: pre) ++ rest) with (e :: (pre ++ rest)).
  rewrite scan_skip by exact He. exact IH.
Qed.

Lemma events_size_single v :
  events_size [v] = Str.len (Json.stringify (view_value v)) + 2.
Proof.
  unfold events_size. cbn [map]. 
  change (Json.stringify (JArr [view_value v])) with
    ("[" ++ Json.stringify (view_value v) ++ "]")%string.
  rewrite !len_append. change (Str.len "[") with 1. change (Str.len "]") with 1. lia.
Qed.

(** With the warning, the result is the warning and views of
    candidates. *)
Lemma warning_charged_aux now options b startSeq :
  points_to_dropped startSeq b = true ->
  exists stored,
    events (read_from now options startSeq b) =
      dropped_warning now b :: map (view_of options) stored /\
    Forall (fun e => In e (_events b) /\
                     candidate options (effective_start startSeq b) e = true) stored.
Proof.
  intros Hp.
  pose proof (read_from_events now options startSeq b) as E.
  unfold scan_start in E. rewrite Hp in E.
  destruct (scan_added options (effective_start startSeq b) (_events b)
              (mkScan [dropped_warning now b] (events_size [dropped_warning now b])
                      (effective_start startSeq b) false false))
    as (stored & A1 & _ & A3).
  exists stored. split; [|exact A3]. rewrite E. exact A1.
Qed.

(** C9. The warning of a stale cursor counts against both caps of its
    read: it is the first of the at most [effectiveLimit] events, so that
    at most [effectiveLimit - 1] stored events follow it, and the running
    byte total starts at the size of the list that holds it, so that what
    is admitted, warning included, stays under [effectiveMaxBytes], and a
    first candidate that does not fit next to the warning is refused. *)
Theorem warning_charged (now : string) (options : ReadOptions) (b : LogBuffer)
    (startSeq : jsnum) :
  start_of (cursor options) = Returns startSeq ->
  points_to_dropped startSeq b = true ->
  let w := dropped_warning now b in
  let eff := effective_start startSeq b in
  let r := read_from now options startSeq b in
  read now options b = Returns (b, r) /\
  events_size [w] = Str.len (Json.stringify (view_value w)) + 2 /\
  exists stored,
    events r = w :: map (view_of options) stored /\
    Forall (fun e => In e (_events b) /\ candidate options eff e = true) stored /\
    zlength stored <= effectiveLimit options - 1 /\
    (stored <> [] ->
     events_size [w] + sum_eventSize (map (view_of options) stored)
       <= effectiveMaxBytes options) /\
    (forall pre e post,
       _events b = pre ++ e :: post ->
       Forall (fun x => candidate options eff x = false) pre ->
       candidate options eff e = true ->
       events_size [w] + eventSize (view_of options e) > effectiveMaxBytes options ->
       stored = [] /\ truncated r = true).
Proof.
  intros Hs Hp w eff r.
  split; [apply read_start; exact Hs|].
  split; [apply events_size_single|].
  assert (St : scan_start now startSeq b = mkScan [w] (events_size [w]) eff false false).
  { unfold scan_start. rewrite Hp. reflexivity. }
  pose proof (read_from_events now options startSeq b) as E.
  pose proof (read_from_truncated now options startSeq b) as T.
  fold r eff in E, T. rewrite St in E, T.
  destruct (scan_added options eff (_events b) (mkScan [w] (events_size [w]) eff false false))
    as (stored & A1 & A2 & A3).
  cbn [s_events s_currentBytes app] in A1, A2.
  exists stored.
  assert (Ev : events r = w :: map (view_of options) stored) by (rewrite E; exact A1).
  split; [exact Ev|]. split; [exact A3|]. split; [|split].
  - pose proof (scan_limit options eff (_events b)
                  (mkScan [w] (events_size [w]) eff false false)) as Hl.
    cbn [s_events] in Hl. rewrite A1 in Hl.
    pose proof (effectiveLimit_range options).
    unfold zlength in *. cbn [List.length] in Hl. rewrite length_map in Hl. lia.
  - intros Hne. rewrite <- A2. apply scan_bytes_admitted.
    cbn [s_events]. rewrite A1. destruct stored; [congruence|]. discriminate.
  - intros pre e post Hsp Hpre Hc Hbig.
    assert (S : scan options eff (_events b) (mkScan [w] (events_size [w]) eff false false) =
                mkScan [w] (events_size [w]) eff true true).
    { rewrite Hsp, scan_skip_all by exact Hpre.
      rewrite scan_candidate by exact Hc. cbn [s_currentBytes s_events s_lastSeq].
      replace (_ >? _) with true by (symmetry; apply Z.gtb_lt; lia). reflexivity. }
    rewrite S in A1, T. cbn in A1, T. split; [|exact T].
    destruct stored; [reflexivity | discriminate].
Qed.

Lemma warning_charged_witness :
  let options := ReadExamples.from_cursor ReadExamples.stale_cursor in
  let b := Examples.small in
  start_of (cursor options) = Returns (of_Z 1) /\
  points_to_dropped (of_Z 1) b = true /\
  exists r, read Examples.T0 options b = Returns (b, r).
Proof.
  intros options b.
  assert (H1 : start_of (cursor options) = Returns (of_Z 1)) by (vm_compute; reflexivity).
  assert (H2 : points_to_dropped (of_Z 1) b = true) by (vm_compute; reflexivity).
  split; [exact H1|]. split; [exact H2|].
  exists (read_from Examples.T0 options (of_Z 1) b).
  exact (proj1 (warning_charged Examples.T0 options b (of_Z 1) H1 H2)).
Defined.

Lemma candidate_after options a e :
  candidate options (of_Z a) e = true -> a < seq e.
Proof.
  unfold candidate. rewrite leb_of_Z. intros H.
  apply andb_true_iff in H. destruct H as [H _].
  apply andb_true_iff in H. destruct H as [H _].
  apply negb_true_iff, Z.leb_gt in H. exact H.
Qed.

(** C4, as amended. When the starting sequence of a read is above 0 and
    below the earliest retained sequence, the events returned begin with
    the warning: level warn, source log_buffer, a message that tells the
    count of dropped events; after it come views of retained events
    only, all of them after the earliest retained sequence. The buffer
    that [read] leaves is the buffer it found: no sequence number is
    used and the warning is not stored. *)
Theorem stale_cursor_warning (now : string) (options : ReadOptions) (b : LogBuffer)
    (startSeq : jsnum) :
  start_of (cursor options) = Returns startSeq ->
  Num.ltb (of_Z 0) startSeq = true ->
  Num.ltb startSeq (of_Z (_earliestRetainedSeq b)) = true ->
  let w := dropped_warning now b in
  exists r stored,
    read now options b = Returns (b, r) /\
    events r = w :: map (view_of options) stored /\
    v_level w = "warn"%string /\
    v_source w = "log_buffer"%string /\
    v_message w =
      ("Cursor pointed to dropped data. "
         ++ Num.to_string (of_Z (_droppedCount b))
         ++ " events were dropped due to retention policy. Resuming from earliest retained event.")%string /\
    effective_start startSeq b = of_Z (_earliestRetainedSeq b) /\
    Forall (fun e => In e (_events b) /\ _earliestRetainedSeq b < seq e) stored.
Proof.
  intros Hs H0 H1 w.
  assert (Hp : points_to_dropped startSeq b = true)
    by (unfold points_to_dropped; rewrite H0, H1; reflexivity).
  destruct (warning_charged_aux now options b startSeq Hp)
    as (stored & E & F).
  exists (read_from now options startSeq b), stored.
  split; [apply read_start; exact Hs|].
  split; [exact E|].
  repeat (split; [reflexivity|]).
  assert (Heff : effective_start startSeq b = of_Z (_earliestRetainedSeq b))
    by (apply max_of_smaller; exact H1).
  split; [exact Heff|].
  eapply Forall_impl; [|exact F]. cbn. intros e [Hin Hc].
  split; [exact Hin|]. rewrite Heff in Hc. eapply candidate_after; exact Hc.
Qed.

Lemma stale_cursor_warning_witness :
  let options := ReadExamples.from_cursor ReadExamples.stale_cursor in
  let b := Examples.small in
  start_of (cursor options) = Returns (of_Z 1) /\
  Num.ltb (of_Z 0) (of_Z 1) = true /\
  Num.ltb (of_Z 1) (of_Z (_earliestRetainedSeq b)) = true /\
  exists r stored,
    read Examples.T0 options b = Returns (b, r) /\
    events r = dropped_warning Examples.T0 b :: map (view_of options) stored.
Proof.
  intros options b.
  assert (H1 : start_of (cursor options) = Returns (of_Z 1)) by (vm_compute; reflexivity).
  assert (H2 : Num.ltb (of_Z 0) (of_Z 1) = true) by reflexivity.
  assert (H3 : Num.ltb (of_Z 1) (of_Z (_earliestRetainedSeq b)) = true)
    by (vm_compute; reflexivity).
  split; [exact H1|]. split; [exact H2|]. split; [exact H3|].
  destruct (stale_cursor_warning Examples.T0 options b (of_Z 1) H1 H2 H3)
    as (r & stored & R & E & _).
  exists r, stored. split; [exact R | exact E].
Defined.

(** C4 as stated fails for the starting sequence 0. The cursor a reader
    got from the buffer when it was empty decodes to 0; after five
    appends to a buffer of three events the earliest retained sequence is
    3, and a read with that cursor returns no warning. *)
Lemma stale_cursor_zero_no_warning :
  let options := ReadExamples.from_cursor ReadExamples.empty_cursor in
  let b := Examples.small in
  start_of (cursor options) = Returns (of_Z 0) /\
  _earliestRetainedSeq b = 3 /\
  Num.ltb (of_Z 0) (of_Z (_earliestRetainedSeq b)) = true /\
  exists r,
    read Examples.T0 options b = Returns (b, r) /\
    map v_source (events r) = ["test"; "test"]%string /\
    map v_message (events r) = ["Message 4"; "Message 5"]%string.
Proof.
  intros options b.
  assert (H : start_of (cursor options) = Returns (of_Z 0)) by (vm_compute; reflexivity).
  split; [exact H|]. split; [vm_compute; reflexivity|].
  split; [vm_compute; reflexivity|].
  exists (read_from Examples.T0 options (of_Z 0) b).
  split; [apply read_start; exact H|].
  split; vm_compute; reflexivity.
Qed.

(** ** Decoding a cursor *)

Lemma decodeCursor_cases cursor_ :
  _decodeCursor cursor_ =
  match Parse.JSON_parse (Base64url.decode cursor_) with
  | Some (JObj entries) =>
      if is_one (Json.get "v" entries) then
        match Json.get "s" entries with
        | Some (JNum s) => Returns s
        | _ => Returns (of_Z 0)
        end
      else Returns (of_Z 0)
  | _ => Returns (of_Z 0)
  end.
Proof.
  unfold _decodeCursor, decode_try.
  destruct (Parse.JSON_parse _) as [[ | ? | ? | ? | ? | entries]|]; try reflexivity.
  cbn [property]. destruct (is_one _); [|reflexivity].
  destruct (Json.get "s" entries) as [[ | ? | ? | ? | ? | ?]|]; reflexivity.
Qed.

Lemma decodeCursor_malformed cursor_ :
  well_formed_v1 cursor_ = false -> _decodeCursor cursor_ = Returns (of_Z 0).
Proof.
  rewrite decodeCursor_cases. unfold well_formed_v1.
  destruct (Parse.JSON_parse _) as [[ | ? | ? | ? | ? | entries]|]; try reflexivity.
  destruct (is_one _); [|reflexivity].
  destruct (Json.get "s" entries) as [[ | ? | ? | ? | ? | ?]|];
    try reflexivity; discriminate.
Qed.

(** The loop of [read] does not look at the cursor of the options. *)
Lemma scan_with_cursor c options eff evs st :
  scan (with_cursor c options) eff evs st = scan options eff evs st.
Proof.
  revert st. induction evs as [|e rest IH]; intros st; [reflexivity|].
  cbn [scan]. rewrite !IH. reflexivity.
Qed.

Lemma read_from_with_cursor c now options startSeq b :
  read_from now (with_cursor c options) startSeq b = read_from now options startSeq b.
Proof. unfold read_from. rewrite scan_with_cursor. reflexivity. Qed.

(** C8. Decoding a cursor never throws: for every string it returns a
    number. It returns 0 for every string that is not a cursor of version
    1: when the payload is not a JSON text, when it is not an object
    (for [null] the [TypeError] is caught), when its v is not the number
    1, when its s is not a number. A read with such a cursor is the read
    with no cursor. *)
Theorem cursor_decoding (cursor_ : string) :
  (exists n, _decodeCursor cursor_ = Returns n) /\
  (Parse.JSON_parse (Base64url.decode cursor_) = None ->
   decode_try cursor_ = Throws SyntaxError /\ _decodeCursor cursor_ = Returns (of_Z 0)) /\
  (Parse.JSON_parse (Base64url.decode cursor_) = Some JNull ->
   decode_try cursor_ = Throws TypeError /\ _decodeCursor cursor_ = Returns (of_Z 0)) /\
  (forall decoded,
     Parse.JSON_parse (Base64url.decode cursor_) = Some decoded ->
     (forall entries, decoded <> JObj entries) ->
     _decodeCursor cursor_ = Returns (of_Z 0)) /\
  (forall entries,
     Parse.JSON_parse (Base64url.decode cursor_) = Some (JObj entries) ->
     is_one (Json.get "v" entries) = false \/ is_number (Json.get "s" entries) = false ->
     _decodeCursor cursor_ = Returns (of_Z 0)) /\
  (well_formed_v1 cursor_ = false -> _decodeCursor cursor_ = Returns (of_Z 0)) /\
  (forall now options b,
     cursor options = Some cursor_ ->
     well_formed_v1 cursor_ = false ->
     read now options b = Returns (b, read_from now options (of_Z 0) b) /\
     read now options b = read now (with_cursor None options) b).
Proof.
  split; [apply decodeCursor_returns|].
  split; [|split; [|split; [|split; [|split]]]].
  - intros H. unfold _decodeCursor, decode_try. rewrite H. split; reflexivity.
  - intros H. unfold _decodeCursor, decode_try. rewrite H. split; reflexivity.
  - intros decoded H Hno. rewrite decodeCursor_cases, H.
    destruct decoded; try reflexivity. exfalso. eapply Hno. reflexivity.
  - intros entries H Hbad. apply decodeCursor_malformed.
    unfold well_formed_v1. rewrite H. destruct Hbad as [Hb|Hb]; rewrite Hb;
      [reflexivity | apply andb_false_r].
  - apply decodeCursor_malformed.
  - intros now options b Hc Hbad.
    assert (S : start_of (cursor options) = Returns (of_Z 0)).
    { rewrite Hc. destruct cursor_; [reflexivity|].
      cbn [start_of]. apply decodeCursor_malformed. exact Hbad. }
    split; [apply read_start; exact S|].
    rewrite (read_start now options b _ S).
    unfold read. cbn [with_cursor cursor start_of].
    change (mkOptions None (limit options) (opt_maxBytes options) (levels options)
                      (sources options) (includeStructured options))
      with (with_cursor None options).
    rewrite read_from_with_cursor. reflexivity.
Qed.

Lemma cursor_decoding_witness :
  well_formed_v1 CursorExamples.invalid = false /\
  Parse.JSON_parse (Base64url.decode CursorExamples.invalid) = None /\
  _decodeCursor CursorExamples.invalid = Returns (of_Z 0) /\
  _decodeCursor CursorExamples.null_payload = Returns (of_Z 0) /\
  _decodeCursor CursorExamples.wrong_version = Returns (of_Z 0) /\
  _decodeCursor CursorExamples.string_sequence = Returns (of_Z 0).
Proof.
  assert (H : well_formed_v1 CursorExamples.invalid = false) by (vm_compute; reflexivity).
  assert (P : Parse.JSON_parse (Base64url.decode CursorExamples.invalid) = None)
    by (vm_compute; reflexivity).
  split; [exact H|]. split; [exact P|].
  split.
  { destruct (cursor_decoding CursorExamples.invalid) as (_ & F & _).
    exact (proj2 (F P)). }
  split.
  { destruct (cursor_decoding CursorExamples.null_payload) as (_ & _ & F & _).
    exact (proj2 (F ltac:(vm_compute; reflexivity))). }
  split.
  { destruct (cursor_decoding CursorExamples.wrong_version) as (_ & _ & _ & _ & _ & F & _).
    exact (F ltac:(vm_compute; reflexivity)). }
  destruct (cursor_decoding CursorExamples.string_sequence) as (_ & _ & _ & _ & _ & F & _).
  exact (F ltac:(vm_compute; reflexivity)).
Defined.

(** ** The round trip of base64url *)

Lemma sextets_ok_all : forallb sextet_ok (map N.of_nat (List.seq 0 64)) = true.
Proof. vm_compute. reflexivity. Qed.

Lemma sextet_ok_lt x : (x < 64)%N -> sextet_ok x = true.
Proof.
  intros H. pose proof sextets_ok_all as A.
  rewrite forallb_forall in A. apply A.
  apply in_map_iff. exists (N.to_nat x). split; [apply N2Nat.id|].
  apply in_seq. lia.
Qed.

Lemma sextets_cons x r :
  (x < 64)%N ->
  Base64url.sextets (String (Base64url.b64char x) r) = x :: Base64url.sextets r.
Proof.
  intros H. apply sextet_ok_lt in H. unfold sextet_ok in H.
  apply andb_true_iff in H. destruct H as [H1 H2].
  apply negb_true_iff in H2.
  cbn [Base64url.sextets]. rewrite H2.
  destruct (Base64url.unbase64 _) as [y|]; [|discriminate].
  apply N.eqb_eq in H1. subst y. reflexivity.
Qed.

Lemma code_lt c : (Str.code c < 256)%N.
Proof. apply N_ascii_bounded. Qed.

Lemma chr_code c : Str.chr (Str.code c) = c.
Proof. apply ascii_N_embedding. Qed.

Ltac byte_arith :=
  repeat match goal with
         | c : ascii |- _ =>
             lazymatch goal with
             | H : (Str.code c < 256)%N |- _ => fail
             | _ => pose proof (code_lt c)
             end
         end;
  zify; Z.to_euclidean_division_equations; lia.

Lemma chr_eq n c : n = Str.code c -> Str.chr n = c.
Proof. intros H. rewrite H. apply chr_code. Qed.

Lemma base64url_round_trip bytes :
  Base64url.decode (Base64url.encode bytes) = bytes.
Proof.
  unfold Base64url.decode.
  assert (G : forall n bytes, (String.length bytes <= n)%nat ->
                Base64url.bytes_of (Base64url.sextets (Base64url.encode bytes)) = bytes).
  { clear bytes. induction n as [|n IH]; intros bytes Hn.
    - destruct bytes; [reflexivity | simpl in Hn; lia].
    - destruct bytes as [|a [|b [|c r]]]; [reflexivity| | |].
      + cbn [Base64url.encode].
        rewrite !sextets_cons by byte_arith.
        cbn [Base64url.sextets Base64url.bytes_of].
        f_equal. apply chr_eq. byte_arith.
      + cbn [Base64url.encode].
        rewrite !sextets_cons by byte_arith.
        cbn [Base64url.sextets Base64url.bytes_of].
        f_equal; [apply chr_eq; byte_arith|].
        f_equal. apply chr_eq. byte_arith.
      + cbn [Base64url.encode].
        rewrite !sextets_cons by byte_arith.
        cbn [Base64url.bytes_of].
        rewrite IH by (simpl in Hn; lia).
        f_equal; [apply chr_eq; byte_arith|].
        f_equal; [apply chr_eq; byte_arith|].
        f_equal. apply chr_eq. byte_arith. }
  apply (G (String.length bytes)). lia.
Qed.

(** ** The digits of a number *)

Ltac digit_cases k :=
  let C := fresh "C" in
  assert (C : k = 0 \/ k = 1 \/ k = 2 \/ k = 3 \/ k = 4 \/ k = 5 \/ k = 6 \/
              k = 7 \/ k = 8 \/ k = 9) by lia;
  repeat (destruct C as [C|C]; [rewrite C in *|]); [..|rewrite C in *].

Lemma dchar_is_digit k : 0 <= k <= 9 -> Str.is_digit (dchar k) = true.
Proof. intros H. digit_cases k; reflexivity. Qed.

Lemma dchar_value k : 0 <= k <= 9 -> Parse.digit_value (dchar k) = k.
Proof. intros H. digit_cases k; reflexivity. Qed.

Lemma all_digits_append a b : all_digits (a ++ b) = all_digits a && all_digits b.
Proof.
  induction a as [|c a IH]; [reflexivity|].
  change (String c a ++ b)%string with (String c (a ++ b)).
  cbn [all_digits]. rewrite IH, andb_assoc. reflexivity.
Qed.

Lemma dval_append acc a b : dval acc (a ++ b) = dval (dval acc a) b.
Proof.
  revert acc. induction a as [|c a IH]; intros acc; [reflexivity|].
  change (String c a ++ b)%string with (String c (a ++ b)).
  cbn [dval]. apply IH.
Qed.

(** The digits of a positive number: a first digit that is not 0, then
    digits, and their value is the number. *)
Lemma digits_fuel_spec fuel n acc :
  0 < n < 10 ^ Z.of_nat fuel ->
  exists k r,
    Num.digits_fuel fuel n acc = String (dchar k) (r ++ acc) /\
    1 <= k <= 9 /\ all_digits r = true /\ dval k r = n.
Proof.
  revert n acc. induction fuel as [|f IH]; intros n acc H.
  - simpl in H. lia.
  - cbn [Num.digits_fuel]. destruct (n <? 10) eqn:E.
    + apply Z.ltb_lt in E. exists n, EmptyString.
      rewrite Z.mod_small by lia. repeat split; auto; lia.
    + apply Z.ltb_ge in E.
      assert (Hn : 0 < n / 10 < 10 ^ Z.of_nat f).
      { rewrite Nat2Z.inj_succ, Z.pow_succ_r in H by lia.
        split; [apply Z.div_str_pos; lia | apply Z.div_lt_upper_bound; lia]. }
      destruct (IH (n / 10) (String (dchar (n mod 10)) acc) Hn)
        as (k & r & E1 & Hk & Hr & Hv).
      exists k, (r ++ String (dchar (n mod 10)) EmptyString)%string.
      assert (Hm : 0 <= n mod 10 <= 9) by (pose proof (Z.mod_pos_bound n 10); lia).
      repeat split; try lia.
      * fold (dchar (n mod 10)). rewrite E1, string_app_assoc. reflexivity.
      * rewrite all_digits_append, Hr. cbn [all_digits].
        rewrite dchar_is_digit by exact Hm. reflexivity.
      * rewrite dval_append, Hv. cbn [dval]. rewrite dchar_value by exact Hm.
        pose proof (Z.div_mod n 10). lia.
Qed.

Lemma digits_spec n :
  0 < n ->
  exists k r,
    Num.digits n = String (dchar k) r /\
    1 <= k <= 9 /\ all_digits r = true /\ dval k r = n.
Proof.
  intros H. unfold Num.digits.
  destruct (digits_fuel_spec (S (Z.to_nat (Z.log2 n))) n EmptyString)
    as (k & r & E & Hk & Hr & Hv).
  - split; [lia|].
    rewrite Nat2Z.inj_succ, Z2Nat.id by apply Z.log2_nonneg.
    pose proof (Z.log2_spec n H) as [_ L].
    eapply Z.lt_le_trans; [exact L|].
    apply Z.pow_le_mono_l. pose proof (Z.log2_nonneg n). lia.
  - exists k, r. rewrite E.
    replace (r ++ "")%string with r; [auto|].
    clear. induction r as [|c r IH]; [reflexivity|]. simpl. rewrite <- IH. reflexivity.
Qed.

Lemma digits_zero : Num.digits 0 = "0"%string.
Proof. reflexivity. Qed.

Lemma digit_value_nonneg c : Str.is_digit c = true -> 0 <= Parse.digit_value c <= 9.
Proof.
  unfold Str.is_digit, Str.between, Parse.digit_value. intros H.
  apply andb_true_iff in H. destruct H as [H1 H2].
  apply N.leb_le in H1, H2. lia.
Qed.

Lemma dval_lower acc r :
  0 <= acc -> all_digits r = true -> acc * 10 ^ Str.len r <= dval acc r.
Proof.
  revert acc. induction r as [|c r IH]; intros acc Ha Hr.
  - cbn. lia.
  - cbn [all_digits] in Hr. apply andb_true_iff in Hr. destruct Hr as [Hc Hr].
    pose proof (digit_value_nonneg c Hc) as Hd.
    rewrite len_cons. cbn [dval].
    pose proof (len_nonneg r) as Hl.
    replace (1 + Str.len r) with (Z.succ (Str.len r)) by lia.
    rewrite Z.pow_succ_r by exact Hl.
    specialize (IH (acc * 10 + Parse.digit_value c) ltac:(lia) Hr).
    assert (0 <= 10 ^ Str.len r) by (apply Z.pow_nonneg; lia).
    nia.
Qed.

Lemma digits_length n : 0 < n < 10 ^ 21 -> Str.len (Num.digits n) <= 21.
Proof.
  intros [H0 H1].
  destruct (digits_spec n H0) as (k & r & E & Hk & Hr & Hv).
  rewrite E, len_cons.
  pose proof (dval_lower k r ltac:(lia) Hr) as Hl. rewrite Hv in Hl.
  pose proof (len_nonneg r) as Hn.
  destruct (Z.le_gt_cases 21 (Str.len r)) as [C|C]; [|lia].
  assert (10 ^ 21 <= 10 ^ Str.len r) by (apply Z.pow_le_mono_r; lia).
  nia.
Qed.

Lemma string_of_list_app a b :
  string_of_list_ascii (a ++ b) = (string_of_list_ascii a ++ string_of_list_ascii b)%string.
Proof. induction a as [|c a IH]; [reflexivity|]. simpl. rewrite IH. reflexivity. Qed.

Lemma repeat_list c k : Str.repeat c k = string_of_list_ascii (List.repeat c k).
Proof. induction k as [|k IH]; [reflexivity|]. simpl. rewrite IH. reflexivity. Qed.

Lemma len_list l : Str.len (string_of_list_ascii l) = Z.of_nat (List.length l).
Proof.
  induction l as [|c l IH]; [reflexivity|].
  cbn [string_of_list_ascii List.length]. rewrite len_cons, IH. lia.
Qed.

Lemma strip_zeros_rev_spec l :
  exists k, l = List.repeat (Str.chr 48) k ++ Num.strip_zeros_rev l.
Proof.
  induction l as [|c l [k IH]].
  - exists O. reflexivity.
  - cbn [Num.strip_zeros_rev]. destruct (Ascii.eqb c (Str.chr 48)) eqn:E.
    + apply Ascii.eqb_eq in E. subst c. exists (S k). cbn [List.repeat app].
      rewrite <- IH. reflexivity.
    + exists O. reflexivity.
Qed.

Lemma rev_repeat_same {A} (x : A) k : rev (List.repeat x k) = List.repeat x k.
Proof.
  induction k as [|k IH]; [reflexivity|].
  cbn [List.repeat rev]. rewrite IH. symmetry. apply repeat_cons.
Qed.

(** Putting the trailing zeros back. *)
Lemma strip_trailing_zeros_restore s :
  let t := Num.strip_trailing_zeros s in
  s = (t ++ Str.repeat (Str.chr 48) (Z.to_nat (Str.len s - Str.len t)))%string /\
  Str.len t <= Str.len s.
Proof.
  intros t.
  destruct (strip_zeros_rev_spec (rev (list_ascii_of_string s))) as [k Hk].
  assert (Hl : list_ascii_of_string s =
               rev (Num.strip_zeros_rev (rev (list_ascii_of_string s)))
                   ++ List.repeat (Str.chr 48) k).
  { rewrite <- (rev_involutive (list_ascii_of_string s)) at 1.
    rewrite Hk at 1. rewrite rev_app_distr, rev_repeat_same. reflexivity. }
  assert (Hs : s = (t ++ Str.repeat (Str.chr 48) k)%string).
  { rewrite <- (string_of_list_ascii_of_string s) at 1.
    rewrite Hl, string_of_list_app, repeat_list. reflexivity. }
  assert (Hlen : Str.len s = Str.len t + Z.of_nat k).
  { rewrite Hs at 1. rewrite len_append, repeat_list, len_list, repeat_length.
    reflexivity. }
  split; [|lia].
  replace (Z.to_nat (Str.len s - Str.len t)) with k by lia. exact Hs.
Qed.

(** An integer from 0 to below 10^21 is printed as its digits. *)
Lemma to_string_of_Z n : 0 <= n < 10 ^ 21 -> Num.to_string (of_Z n) = Num.digits n.
Proof.
  intros [H0 H1].
  destruct (Z.eq_dec n 0) as [->|Hn]; [reflexivity|].
  unfold Num.to_string, of_Z, Num.norm. cbn [mant scale Num.strip].
  replace (n =? 0) with false by (symmetry; apply Z.eqb_neq; exact Hn).
  replace (n <? 0) with false by (symmetry; apply Z.ltb_ge; lia).
  rewrite Z.abs_eq by lia. rewrite Z.sub_0_r.
  pose proof (digits_length n ltac:(lia)) as Hl.
  destruct (strip_trailing_zeros_restore (Num.digits n)) as [Hs Hk].
  cbn zeta in Hs, Hk.
  unfold Num.format.
  replace (_ <=? Str.len (Num.digits n)) with true by (symmetry; apply Z.leb_le; lia).
  replace (Str.len (Num.digits n) <=? 21) with true by (symmetry; apply Z.leb_le; lia).
  cbn [andb]. symmetry. exact Hs.
Qed.

(** ** The round trip of a cursor *)

Lemma run_app st a b : Parse.run st (a ++ b) = Parse.run (Parse.run st a) b.
Proof.
  revert st. induction a as [|c a IH]; intros st; [reflexivity|].
  change (String c a ++ b)%string with (String c (a ++ b)).
  cbn [Parse.run]. apply IH.
Qed.

Lemma step_int_digit c acc stack res :
  Str.is_digit c = true ->
  Parse.step (Parse.mkState (Parse.MNum (Parse.mkNum false Parse.PInt acc 0 false 0))
                            stack res) c =
  Parse.mkState
    (Parse.MNum (Parse.mkNum false Parse.PInt (acc * 10 + Parse.digit_value c) 0 false 0))
    stack res.
Proof.
  intros H. unfold Parse.step. cbn [Parse.st_mode].
  unfold Parse.step_num. cbn [Parse.n_phase Parse.n_neg Parse.n_mant].
  rewrite H. reflexivity.
Qed.

Lemma run_int_digits r acc stack res :
  all_digits r = true ->
  Parse.run (Parse.mkState (Parse.MNum (Parse.mkNum false Parse.PInt acc 0 false 0))
                           stack res) r =
  Parse.mkState (Parse.MNum (Parse.mkNum false Parse.PInt (dval acc r) 0 false 0))
                stack res.
Proof.
  revert acc. induction r as [|c r IH]; intros acc H; [reflexivity|].
  cbn [all_digits] in H. apply andb_true_iff in H. destruct H as [Hc Hr].
  cbn [Parse.run dval]. rewrite step_int_digit by exact Hc. apply IH. exact Hr.
Qed.

Lemma step_first_digit k st :
  1 <= k <= 9 ->
  Parse.step_value false st (dchar k) =
  Parse.set_mode (Parse.MNum (Parse.mkNum false Parse.PInt k 0 false 0)) st.
Proof. intros H. digit_cases k; try lia; reflexivity. Qed.

Lemma num_value_int n :
  Parse.num_value (Parse.mkNum false Parse.PInt n 0 false 0) = of_Z n.
Proof. unfold Parse.num_value, of_Z. cbn. rewrite Z.mul_1_r. reflexivity. Qed.

(** The closing brace after the digits of the last entry of an object at
    the top of the text. *)
Lemma finish_int_entry n done key :
  Parse.finish
    (Parse.step
       (Parse.mkState (Parse.MNum (Parse.mkNum false Parse.PInt n 0 false 0))
                      [Parse.FObj done key] None)
       "}") =
  Some (JObj (rev ((key, JNum (of_Z n)) :: done))).
Proof.
  rewrite <- num_value_int. reflexivity.
Qed.

Lemma stringify_cursor x :
  Json.stringify (cursor_value x) = (cursor_prefix ++ Num.to_string x ++ "}")%string.
Proof. reflexivity. Qed.

Lemma parse_cursor_text n :
  0 <= n ->
  Parse.JSON_parse (cursor_prefix ++ Num.digits n ++ "}") = Some (cursor_value (of_Z n)).
Proof.
  intros H. unfold Parse.JSON_parse. rewrite run_app.
  change (Parse.run Parse.init cursor_prefix) with
    (Parse.mkState Parse.MValue [Parse.FObj [("v"%string, JNum (of_Z 1))] "s"] None).
  destruct (Z.eq_dec n 0) as [->|Hn]; [reflexivity|].
  destruct (digits_spec n ltac:(lia)) as (k & r & E & Hk & Hr & Hv).
  rewrite E.
  change (String (dchar k) r ++ "}")%string with (String (dchar k) (r ++ "}")).
  cbn [Parse.run].
  change (Parse.step ?st (dchar k)) with (Parse.step_value false st (dchar k)).
  rewrite step_first_digit by exact Hk. unfold Parse.set_mode.
  cbn [Parse.st_stack Parse.st_result].
  rewrite run_app, run_int_digits by exact Hr. rewrite Hv.
  cbn [Parse.run]. rewrite finish_int_entry. reflexivity.
Qed.

Lemma cursor_round_trip n :
  0 <= n < 10 ^ 21 -> _decodeCursor (_encodeCursor (of_Z n)) = Returns (of_Z n).
Proof.
  intros H. unfold _decodeCursor, decode_try, _encodeCursor.
  rewrite base64url_round_trip, stringify_cursor, to_string_of_Z by exact H.
  rewrite parse_cursor_text by lia. reflexivity.
Qed.

(** ** Paging through a buffer *)

Lemma eventSize_pos v : 0 < eventSize v.
Proof. unfold eventSize. pose proof (len_nonneg (Json.stringify (view_value v))). lia. Qed.

Lemma sum_eventSize_nonneg vs : 0 <= sum_eventSize vs.
Proof.
  induction vs as [|v vs IH]; [cbn; lia|].
  unfold sum_eventSize in *. cbn [fold_right]. pose proof (eventSize_pos v). lia.
Qed.

Lemma sum_eventSize_cons v vs : sum_eventSize (v :: vs) = eventSize v + sum_eventSize vs.
Proof. reflexivity. Qed.

Lemma last_cons_default {A} (a d : A) l : last (a :: l) d = last l a.
Proof.
  revert a d. induction l as [|x l IH]; intros a d; [reflexivity|].
  change (last (a :: x :: l) d) with (last (x :: l) d). rewrite !IH. reflexivity.
Qed.

(** The loop takes candidates up to the item limit when they fit under
    the byte cap, and stops at the candidate after them. *)
Lemma scan_take options eff taken e0 rest st :
  Forall (fun e => candidate options eff e = true) taken ->
  candidate options eff e0 = true ->
  s_currentBytes st + sum_eventSize (map (view_of options) taken)
    <= effectiveMaxBytes options ->
  zlength (s_events st) + zlength taken = effectiveLimit options ->
  let res := scan options eff (taken ++ e0 :: rest) st in
  s_events res = s_events st ++ map (view_of options) taken /\
  s_has_more res = true /\
  s_lastSeq res = last (map (fun e => of_Z (seq e)) taken) (s_lastSeq st).
Proof.
  intros Ht. revert st. induction Ht as [|a taken Ha Ht IH]; intros st H0 Hb Hl res.
  - unfold res. cbn [app map last]. rewrite scan_candidate by exact H0.
    destruct (_ >? _); [cbn; rewrite app_nil_r; auto|].
    rewrite geb_le by (unfold zlength in *; cbn [List.length] in *; lia).
    cbn. rewrite app_nil_r. auto.
  - unfold res. change ((a :: taken) ++ e0 :: rest) with (a :: (taken ++ e0 :: rest)).
    rewrite scan_candidate by exact Ha.
    cbn [map] in Hb. rewrite sum_eventSize_cons in Hb.
    pose proof (sum_eventSize_nonneg (map (view_of options) taken)) as Hs.
    rewrite zlength_cons in Hl. pose proof (zlength_nonneg taken) as Hz.
    rewrite gtb_le by lia. rewrite geb_lt by lia.
    specialize (IH (mkScan (s_events st ++ [view_of options a])
                           (s_currentBytes st + eventSize (view_of options a))
                           (of_Z (seq a)) (s_has_more st) (s_truncated st)) H0).
    cbn [s_events s_currentBytes s_lastSeq] in IH.
    destruct IH as (I1 & I2 & I3).
    + lia.
    + rewrite zlength_app. unfold zlength at 2. cbn [List.length]. lia.
    + rewrite I1, I2, I3. cbn [map]. rewrite <- app_assoc, last_cons_default.
      repeat split.
Qed.

Lemma start_of_some c : start_of (Some c) = _decodeCursor c.
Proof. destruct c; reflexivity. Qed.

Lemma candidate_no_filter c n eff e :
  candidate (page c n) eff e = negb (Num.leb (of_Z (seq e)) eff).
Proof. unfold candidate. cbn. rewrite !andb_true_r. reflexivity. Qed.

Lemma max_of_Z a b : Num.max (of_Z a) (of_Z b) = of_Z (Z.max a b).
Proof.
  unfold Num.max. rewrite leb_of_Z.
  destruct (Z.leb_spec a b); [rewrite Z.max_r | rewrite Z.max_l]; auto; lia.
Qed.

(** A read of one page of five events with no filter: the events up to
    the effective start are skipped and the five after them are
    returned, when they fit under the default byte cap and one more
    event follows. *)
Lemma read_page now c startSeq b skipped taken e0 rest :
  _events b = skipped ++ taken ++ e0 :: rest ->
  points_to_dropped (of_Z startSeq) b = false ->
  let eff := Z.max startSeq (_earliestRetainedSeq b) in
  Forall (fun e => seq e <= eff) skipped ->
  Forall (fun e => eff < seq e) (e0 :: taken) ->
  zlength taken = 5 ->
  response_size taken <= 256000 ->
  let r := read_from now (page c 5) (of_Z startSeq) b in
  events r = map (toJSON true) taken /\
  has_more r = true /\
  r_cursor r = _encodeCursor (last (map (fun e => of_Z (seq e)) taken) (of_Z eff)).
Proof.
  intros Hev Hp eff Hsk Htk Hlen Hsize r.
  assert (Heff : effective_start (of_Z startSeq) b = of_Z eff)
    by apply max_of_Z.
  assert (Hst : scan_start now (of_Z startSeq) b =
                mkScan [] (events_size []) (of_Z eff) false false).
  { unfold scan_start. rewrite Hp, Heff. reflexivity. }
  assert (Hcand : forall e, candidate (page c 5) (of_Z eff) e = negb (seq e <=? eff)).
  { intros e. rewrite candidate_no_filter, leb_of_Z. reflexivity. }
  apply Forall_cons_iff in Htk. destruct Htk as [H0 Htk].
  destruct (scan_take (page c 5) (of_Z eff) taken e0 rest
              (mkScan [] (events_size []) (of_Z eff) false false))
    as (S1 & S2 & S3).
  - eapply Forall_impl; [|exact Htk]. cbn. intros e He.
    rewrite Hcand. apply negb_true_iff, Z.leb_gt. exact He.
  - rewrite Hcand. apply negb_true_iff, Z.leb_gt. exact H0.
  - exact Hsize.
  - cbn [s_events]. rewrite Hlen. reflexivity.
  - assert (Hscan : scan (page c 5) (effective_start (of_Z startSeq) b) (_events b)
                         (scan_start now (of_Z startSeq) b) =
                    scan (page c 5) (of_Z eff) (taken ++ e0 :: rest)
                         (mkScan [] (events_size []) (of_Z eff) false false)).
    { rewrite Heff, Hst, Hev. apply scan_skip_all.
      eapply Forall_impl; [|exact Hsk]. cbn. intros e He.
      rewrite Hcand. apply negb_false_iff, Z.leb_le. exact He. }
    unfold r. split; [|split].
    + rewrite read_from_events, Hscan, S1. reflexivity.
    + apply read_from_has_more. rewrite Hscan. exact S2.
    + rewrite read_from_cursor, Hscan, S3. reflexivity.
Qed.

Lemma pow_2_53_lt : 2 ^ 53 < 10 ^ 21.
Proof. reflexivity. Qed.

(** C5, as amended. On a reachable buffer of more than ten events whose
    first event is after the earliest retained sequence, a read of five
    events and a read of five events from the cursor of the first
    return the first five and the next five retained events, when each
    five fit under the default byte cap of a read: ten events in
    ascending order, none twice and none left out. The sequence counter
    is below 2^53. *)
Theorem cursor_paging (now1 now2 : string) (b : LogBuffer) :
  reachable b ->
  (10 < List.length (_events b))%nat ->
  _seq b < 2 ^ 53 ->
  (forall e, hd_error (_events b) = Some e -> _earliestRetainedSeq b < seq e) ->
  response_size (firstn 5 (_events b)) <= 256000 ->
  response_size (firstn 5 (skipn 5 (_events b))) <= 256000 ->
  exists r1 r2,
    read now1 (page None 5) b = Returns (b, r1) /\
    read now2 (page (Some (r_cursor r1)) 5) b = Returns (b, r2) /\
    events r1 = map (toJSON true) (firstn 5 (_events b)) /\
    events r2 = map (toJSON true) (firstn 5 (skipn 5 (_events b))) /\
    firstn 5 (_events b) ++ firstn 5 (skipn 5 (_events b)) = firstn 10 (_events b) /\
    ascending (_earliestRetainedSeq b) (firstn 10 (_events b)).
Proof.
  intros Hr Hlen Hseq Hfirst Hs1 Hs2.
  pose proof (reachable_invariant b Hr) as [_ _ Hear Hasc Hlast _].
  destruct (_events b)
    as [|a1 [|a2 [|a3 [|a4 [|a5 [|b1 [|b2 [|b3 [|b4 [|b5 [|c rest]]]]]]]]]]] eqn:Hev;
    cbn [List.length] in Hlen; try lia.
  specialize (Hfirst a1 eq_refl).
  cbn [firstn skipn] in *. cbn [ascending] in Hasc.
  repeat match goal with H : Forall _ (_ :: _) |- _ =>
    apply Forall_cons_iff in H; destruct H as [? H] end.
  set (e := _earliestRetainedSeq b) in *.
  (* the first page *)
  destruct (read_page now1 None 0 b [] [a1; a2; a3; a4; a5] b1
              (b2 :: b3 :: b4 :: b5 :: c :: rest)) as (E1 & _ & C1).
  { rewrite Hev. reflexivity. }
  { unfold points_to_dropped. rewrite ltb_of_Z. reflexivity. }
  { constructor. }
  { fold e. repeat constructor; lia. }
  { reflexivity. }
  { exact Hs1. }
  fold e in C1. cbn [map last] in C1.
  (* the second page, from the cursor of the first *)
  set (r1 := read_from now1 (page None 5) (of_Z 0) b) in *.
  assert (Hstart : start_of (cursor (page (Some (r_cursor r1)) 5)) = Returns (of_Z (seq a5))).
  { cbn [page cursor]. rewrite start_of_some, C1. apply cursor_round_trip.
    pose proof pow_2_53_lt. lia. }
  destruct (read_page now2 (Some (r_cursor r1)) (seq a5) b [a1; a2; a3; a4; a5]
              [b1; b2; b3; b4; b5] c rest) as (E2 & _ & _).
  { rewrite Hev. reflexivity. }
  { unfold points_to_dropped. rewrite !ltb_of_Z. fold e.
    replace (seq a5 <? e) with false by (symmetry; apply Z.ltb_ge; lia).
    apply andb_false_r. }
  { fold e. repeat constructor; lia. }
  { fold e. repeat constructor; lia. }
  { reflexivity. }
  { exact Hs2. }
  exists r1, (read_from now2 (page (Some (r_cursor r1)) 5) (of_Z (seq a5)) b).
  split; [apply read_start; reflexivity|].
  split; [apply read_start; exact Hstart|].
  split; [exact E1|]. split; [exact E2|]. split; [reflexivity|].
  cbn [ascending]. repeat split; try lia.
Qed.

Lemma cursor_paging_witness :
  let b := PagingExamples.eleven in
  reachable b /\
  (10 < List.length (_events b))%nat /\
  _seq b < 2 ^ 53 /\
  response_size (firstn 5 (_events b)) <= 256000 /\
  response_size (firstn 5 (skipn 5 (_events b))) <= 256000 /\
  exists r1 r2,
    read Examples.T0 (page None 5) b = Returns (b, r1) /\
    read Examples.T0 (page (Some (r_cursor r1)) 5) b = Returns (b, r2) /\
    events r1 = map (toJSON true) (firstn 5 (_events b)) /\
    events r2 = map (toJSON true) (firstn 5 (skipn 5 (_events b))).
Proof.
  intros b.
  assert (H1 : reachable b) by (apply run_ops_reachable; constructor).
  assert (H2 : (10 < List.length (_events b))%nat) by (vm_compute; repeat constructor).
  assert (H3 : _seq b < 2 ^ 53) by (vm_compute; reflexivity).
  assert (H4 : forall e, hd_error (_events b) = Some e -> _earliestRetainedSeq b < seq e).
  { intros e H. vm_compute in H. inversion H. vm_compute. reflexivity. }
  assert (H5 : response_size (firstn 5 (_events b)) <= 256000)
    by (vm_compute; discriminate).
  assert (H6 : response_size (firstn 5 (skipn 5 (_events b))) <= 256000)
    by (vm_compute; discriminate).
  split; [exact H1|]. split; [exact H2|]. split; [exact H3|].
  split; [exact H5|]. split; [exact H6|].
  destruct (cursor_paging Examples.T0 Examples.T0 b H1 H2 H3 H4 H5 H6)
    as (r1 & r2 & R1 & R2 & E1 & E2 & _).
  exists r1, r2. repeat split; assumption.
Defined.

(** After an eviction that leaves events in the buffer, the earliest
    retained sequence is the sequence of the first retained event, and
    the loop of [read] skips the events up to it: the first retained
    event is not returned. *)
Example first_retained_event_skipped :
  let b := PagingExamples.after_eviction in
  map seq (_events b) = [2; 3; 4; 5; 6; 7; 8; 9; 10; 11; 12] /\
  _earliestRetainedSeq b = 2 /\
  map v_message (events (read_from Examples.T0 (page None 5) (of_Z 0) b)) =
    ["Message 2"; "Message 3"; "Message 4"; "Message 5"; "Message 6"]%string /\
  map message (firstn 5 (_events b)) =
    ["Message 1"; "Message 2"; "Message 3"; "Message 4"; "Message 5"]%string.
Proof. vm_compute. repeat split; reflexivity. Qed.

(** ** A run of appends that drops nothing *)

Lemma enforce_fits cfg seq_ evs total dropped earliest :
  zlength evs <= maxEvents cfg -> total <= maxBytes cfg ->
  enforce cfg seq_ evs total dropped earliest =
  mkBuffer cfg evs seq_ total dropped earliest.
Proof.
  intros H1 H2.
  assert (C : (zlength evs >? maxEvents cfg) || (total >? maxBytes cfg) = false)
    by (rewrite !gtb_le by assumption; reflexivity).
  destruct evs; cbn [enforce]; rewrite C; reflexivity.
Qed.

Lemma built_events_sizes s ops :
  Forall (fun e => 100 <= _size e) (built_events s ops).
Proof.
  revert s. induction ops as [|[now level source message data|] rest IH]; intros s;
    cbn [built_events]; auto.
  constructor; [apply make_event_size | apply IH].
Qed.

Lemma buffer_eta b :
  b = mkBuffer (_config b) (_events b) (_seq b) (_totalBytes b) (_droppedCount b)
               (_earliestRetainedSeq b).
Proof. destruct b; reflexivity. Qed.

Lemma run_ops_keeps ops b :
  forallb is_append ops = true ->
  zlength (_events b) + zlength ops <= maxEvents (_config b) ->
  _totalBytes b + sum_sizes (built_events (_seq b) ops) <= maxBytes (_config b) ->
  fst (run_ops ops b) =
  mkBuffer (_config b) (_events b ++ built_events (_seq b) ops)
           (_seq b + zlength ops)
           (_totalBytes b + sum_sizes (built_events (_seq b) ops))
           (_droppedCount b) (_earliestRetainedSeq b).
Proof.
  revert b. induction ops as [|[now level source message data|] rest IH];
    intros b Ha He Hb.
  - cbn [run_ops fst built_events]. rewrite app_nil_r.
    change (sum_sizes []) with 0. change (zlength (@nil op)) with 0.
    rewrite !Z.add_0_r. apply buffer_eta.
  - rewrite run_ops_append. cbn [fst].
    cbn [forallb is_append andb] in Ha.
    cbn [built_events] in Hb |- *. rewrite sum_sizes_cons in Hb |- *.
    rewrite zlength_cons in He |- *.
    set (e := make_event now (_seq b + 1) level source message data) in *.
    pose proof (sum_sizes_nonneg _ (built_events_sizes (_seq b + 1) rest)) as Hs.
    pose proof (zlength_nonneg rest) as Hz.
    assert (Hap : fst (append now level source message data b) =
                  mkBuffer (_config b) (_events b ++ [e]) (_seq b + 1)
                           (_totalBytes b + _size e) (_droppedCount b)
                           (_earliestRetainedSeq b)).
    { unfold append, _enforceRetention. cbn [fst _config _events _seq _totalBytes
        _droppedCount _earliestRetainedSeq]. fold e.
      apply enforce_fits; [|lia].
      rewrite zlength_app. unfold zlength at 2. cbn [List.length]. lia. }
    rewrite Hap, IH; cbn [_config _events _seq _totalBytes _droppedCount
                           _earliestRetainedSeq]; auto.
    + rewrite <- app_assoc. cbn [app]. f_equal; lia.
    + rewrite zlength_app. unfold zlength at 2. cbn [List.length]. lia.
    + lia.
  - cbn in Ha. discriminate.
Qed.

(** ** A message that no pattern touches *)

Lemma replace_repeat r f c n :
  never_starts_with c r -> Regex.replace r f (Str.repeat c n) = Str.repeat c n.
Proof.
  intros [H1 H2]. unfold Regex.replace.
  induction n as [|n IH]; cbn [Str.repeat Regex.replace_from].
  - rewrite H2. reflexivity.
  - rewrite H1, IH. reflexivity.
Qed.

Lemma sanitize_repeat c n :
  Forall (never_starts_with c) REDACTION_PATTERNS ->
  _sanitize (Str.repeat c n) = Str.repeat c n.
Proof.
  unfold _sanitize. induction 1 as [|r rs Hr Hrs IH]; [reflexivity|].
  cbn [fold_left]. rewrite replace_repeat by exact Hr. exact IH.
Qed.

Lemma patterns_never_start_with_z : Forall (never_starts_with "z") REDACTION_PATTERNS.
Proof. repeat constructor. Qed.

Lemma truncate_one_line s : no_nl s = true -> _truncateStackTrace s = s.
Proof.
  intros H. unfold _truncateStackTrace. rewrite split_no_nl by exact H. reflexivity.
Qed.

Lemma len_repeat c n : Str.len (Str.repeat c n) = Z.of_nat n.
Proof. rewrite repeat_list, len_list, repeat_length. reflexivity. Qed.

(** ** The size of a view *)

Lemma len_escape c : 1 <= Str.len (Json.escape c).
Proof.
  unfold Json.escape.
  repeat match goal with
         | |- context [if ?b then _ else _] => destruct b
         end;
    rewrite len_cons;
    match goal with |- 1 <= 1 + Str.len ?x => pose proof (len_nonneg x); lia end.
Qed.

Lemma len_escape_all s : Str.len s <= Str.len (Json.escape_all s).
Proof.
  induction s as [|c s IH]; [reflexivity|].
  cbn [Json.escape_all]. rewrite len_append, len_cons.
  pose proof (len_escape c). lia.
Qed.

Lemma len_quote s : Str.len s + 2 <= Str.len (Json.quote s).
Proof.
  unfold Json.quote. rewrite !len_append.
  change (Str.len Str.dq) with 1. pose proof (len_escape_all s). lia.
Qed.

Lemma eventSize_message v : Str.len (v_message v) + 2 <= eventSize v.
Proof.
  unfold eventSize.
  change (Json.stringify (view_value v)) with
    ("{" ++ ((Json.quote "ts" ++ ":" ++ Json.quote (v_ts v)) ++ "," ++
             ((Json.quote "level" ++ ":" ++ Json.quote (v_level v)) ++ "," ++
              ((Json.quote "source" ++ ":" ++ Json.quote (v_source v)) ++ "," ++
               ((Json.quote "message" ++ ":" ++ Json.quote (v_message v)) ++ "," ++
                (Json.quote "data" ++ ":" ++ Json.stringify (v_data v))))))
         ++ "}")%string.
  rewrite !len_append.
  pose proof (len_quote (v_message v)).
  repeat match goal with
         | |- context [Str.len ?x] =>
             lazymatch goal with
             | H : 0 <= Str.len x |- _ => fail
             | _ => pose proof (len_nonneg x)
             end
         end.
  lia.
Qed.

(** A first event whose message alone reaches the default byte cap is
    refused by a read that starts before it: the read returns no event. *)
Lemma read_large_first_event now c startSeq b e rest :
  _events b = e :: rest ->
  points_to_dropped (of_Z startSeq) b = false ->
  Z.max startSeq (_earliestRetainedSeq b) < seq e ->
  256000 <= Str.len (message e) ->
  let r := read_from now (page c 5) (of_Z startSeq) b in
  events r = [] /\ truncated r = true /\
  r_cursor r = _encodeCursor (of_Z (Z.max startSeq (_earliestRetainedSeq b))).
Proof.
  intros Hev Hp Hseq Hbig r.
  set (eff := Z.max startSeq (_earliestRetainedSeq b)) in *.
  assert (Heff : effective_start (of_Z startSeq) b = of_Z eff) by apply max_of_Z.
  assert (Hst : scan_start now (of_Z startSeq) b =
                mkScan [] (events_size []) (of_Z eff) false false).
  { unfold scan_start. rewrite Hp, Heff. reflexivity. }
  assert (Hscan : scan (page c 5) (effective_start (of_Z startSeq) b) (_events b)
                       (scan_start now (of_Z startSeq) b) =
                  mkScan [] (events_size []) (of_Z eff) true true).
  { rewrite Heff, Hst, Hev. rewrite scan_candidate.
    - cbn [s_currentBytes s_events s_lastSeq].
      pose proof (eventSize_message (view_of (page c 5) e)) as Hsz.
      change (v_message (view_of (page c 5) e)) with (message e) in Hsz.
      rewrite gtb_lt; [reflexivity|].
      change (effectiveMaxBytes (page c 5)) with 256000.
      change (events_size []) with 2. lia.
    - rewrite candidate_no_filter, leb_of_Z. apply negb_true_iff, Z.leb_gt. exact Hseq. }
  unfold r. rewrite read_from_events, read_from_truncated, read_from_cursor, Hscan.
  repeat split.
Qed.

Lemma make_event_ts now s lvl src msg payload :
  ts (make_event now s lvl src msg payload) = now.
Proof. reflexivity. Qed.

Lemma make_event_source now s lvl src msg payload :
  source (make_event now s lvl src msg payload) = src.
Proof. reflexivity. Qed.

Lemma make_event_level now s lvl src msg payload :
  level (make_event now s lvl src msg payload) =
  if includes_str lvl LOG_LEVELS then lvl else "info"%string.
Proof. reflexivity. Qed.

Lemma make_event_size_sum now s lvl src msg payload :
  let e := make_event now s lvl src msg payload in
  _size e =
  Str.len (ts e) + Str.len (level e) + Str.len (source e) + Str.len (message e) + 100
  + (if Json.truthy (data e) then Str.len (Json.stringify (data e)) else 0).
Proof.
  intros e. unfold e, make_event, new_LogEvent, _calculateSize.
  cbn [_size ts level source message data].
  destruct (Json.truthy _); lia.
Qed.

Lemma large_message_stored now s payload n :
  message (make_event now s "info" "test" (Str.repeat "z" n) payload) = Str.repeat "z" n.
Proof.
  rewrite make_event_message.
  replace (String.eqb "info" "debug") with false by reflexivity.
  rewrite sanitize_repeat by apply patterns_never_start_with_z.
  apply truncate_one_line, no_nl_repeat. reflexivity.
Qed.

Lemma large_event_size s n :
  _size (make_event Examples.T0 s "info" "test" (Str.repeat "z" n) JNull) =
  Z.of_nat n + 132.
Proof.
  rewrite make_event_size_sum. cbn zeta.
  rewrite make_event_ts, make_event_source, make_event_level, make_event_data,
    large_message_stored, len_repeat.
  replace (includes_str "info" LOG_LEVELS) with true by reflexivity.
  replace (Json.truthy JNull) with false by reflexivity.
  replace (Str.len Examples.T0) with 24 by reflexivity.
  replace (Str.len "info") with 4 by reflexivity.
  replace (Str.len "test") with 4 by reflexivity.
  cbn [Json.truthy]. lia.
Qed.

Lemma small_events_size :
  sum_sizes (built_events 1 (Examples.messages 1 10)) = 1411 /\
  zlength (built_events 1 (Examples.messages 1 10)) = 10.
Proof. vm_compute. split; reflexivity. Qed.

Lemma large_first_events n :
  Z.of_nat n = 256000 ->
  exists e rest,
    _events (PagingExamples.large_first_of n) = e :: rest /\
    zlength rest = 10 /\
    seq e = 1 /\
    Str.len (message e) = 256000 /\
    _earliestRetainedSeq (PagingExamples.large_first_of n) = 0 /\
    _droppedCount (PagingExamples.large_first_of n) = 0.
Proof.
  intros Hn.
  destruct small_events_size as [Hsmall Hcount].
  pose proof (large_event_size 1 n) as Hsz.
  pose proof (large_message_stored Examples.T0 1 JNull n) as Hm.
  unfold PagingExamples.large_first_of.
  rewrite run_ops_keeps.
  - cbn [_events new_LogBuffer app built_events _seq].
    change (0 + 1) with 1.
    exists (make_event Examples.T0 1 "info" "test" (Str.repeat "z" n) JNull),
      (built_events 1 (Examples.messages 1 10)).
    repeat split; try assumption.
    rewrite Hm, len_repeat. exact Hn.
  - reflexivity.
  - cbn [_events new_LogBuffer _config arg_maxEvents no_config maxEvents DEFAULT_CONFIG].
    change (zlength (@nil LogEvent)) with 0.
    rewrite zlength_cons.
    replace (zlength (Examples.messages 1 10)) with 10 by reflexivity. lia.
  - cbn [new_LogBuffer _config _totalBytes _seq arg_maxBytes no_config maxBytes
         DEFAULT_CONFIG built_events].
    change (0 + 1) with 1.
    rewrite sum_sizes_cons, Hsz, Hsmall, Hn. vm_compute. discriminate.
Qed.

(** A read of five events from the buffer of the large message, and the
    read from its cursor. *)
Lemma cursor_paging_large n :
  Z.of_nat n = 256000 ->
  let b := PagingExamples.large_first_of n in
  reachable b /\
  zlength (_events b) = 11 /\
  _droppedCount b = 0 /\
  exists r1 r2,
    read Examples.T0 (page None 5) b = Returns (b, r1) /\
    read Examples.T0 (page (Some (r_cursor r1)) 5) b = Returns (b, r2) /\
    events r1 = [] /\ truncated r1 = true /\
    events r2 = [] /\
    events r1 <> map (toJSON true) (firstn 5 (_events b)).
Proof.
  intros Hn b.
  destruct (large_first_events n Hn) as (e & rest & Hev & Hrest & Hseq & Hlen & Hear & Hdr).
  fold b in Hev, Hear, Hdr.
  assert (Hp : points_to_dropped (of_Z 0) b = false)
    by (unfold points_to_dropped; rewrite ltb_of_Z; reflexivity).
  assert (Hmax : Z.max 0 (_earliestRetainedSeq b) = 0) by (rewrite Hear; reflexivity).
  destruct (read_large_first_event Examples.T0 None 0 b e rest Hev Hp)
    as (E1 & T1 & C1); [lia | lia |].
  rewrite Hmax in C1.
  set (r1 := read_from Examples.T0 (page None 5) (of_Z 0) b) in *.
  destruct (read_large_first_event Examples.T0 (Some (r_cursor r1)) 0 b e rest Hev Hp)
    as (E2 & _ & _); [lia | lia |].
  split; [apply run_ops_reachable; constructor|].
  split; [rewrite Hev, zlength_cons, Hrest; reflexivity|].
  split; [exact Hdr|].
  exists r1, (read_from Examples.T0 (page (Some (r_cursor r1)) 5) (of_Z 0) b).
  split; [apply read_start; reflexivity|].
  split.
  { apply read_start. cbn [page cursor]. rewrite start_of_some, C1.
    apply cursor_round_trip. lia. }
  split; [exact E1|]. split; [exact T1|]. split; [exact E2|].
  rewrite E1, Hev. cbn [firstn map]. discriminate.
Qed.

(** C5 as stated fails when the events are large: a message of 256000
    characters alone exceeds the default byte cap of a read, so the read
    of five events returns none of the eleven retained events, and the
    read from its cursor returns none either. *)
Lemma cursor_paging_large_events :
  let b := PagingExamples.large_first in
  reachable b /\
  zlength (_events b) = 11 /\
  _droppedCount b = 0 /\
  exists r1 r2,
    read Examples.T0 (page None 5) b = Returns (b, r1) /\
    read Examples.T0 (page (Some (r_cursor r1)) 5) b = Returns (b, r2) /\
    events r1 = [] /\ truncated r1 = true /\
    events r2 = [] /\
    events r1 <> map (toJSON true) (firstn 5 (_events b)).
Proof. exact (cursor_paging_large (N.to_nat 256000) (N_nat_Z 256000)). Qed.

(** ** Retention: which events are kept *)

Lemma count_from_app from n m :
  count_from from (n + m) = count_from from n ++ count_from (from + Z.of_nat n) m.
Proof.
  revert from. induction n as [|n IH]; intros from.
  - cbn [Nat.add count_from app]. f_equal. lia.
  - cbn [Nat.add count_from app]. rewrite IH. do 3 f_equal. lia.
Qed.

Lemma skipn_count_from k from n :
  skipn k (count_from from n) = count_from (from + Z.of_nat k) (n - k).
Proof.
  revert from n. induction k as [|k IH]; intros from n.
  - rewrite Nat.sub_0_r. cbn [skipn]. f_equal. lia.
  - destruct n as [|n]; [reflexivity|].
    cbn [count_from skipn Nat.sub]. rewrite IH. f_equal. lia.
Qed.

(** The retained events carry the sequence numbers that end at [s],
    without a gap. *)
Lemma consecutive_append s evs e :
  map seq evs = count_from (s - zlength evs) (List.length evs) ->
  seq e = s + 1 ->
  map seq (evs ++ [e]) =
  count_from (s + 1 - zlength (evs ++ [e])) (List.length (evs ++ [e])).
Proof.
  intros H He. rewrite map_app, H, length_app, zlength_app, count_from_app.
  cbn [List.length map count_from]. unfold zlength. cbn [List.length].
  rewrite He. replace (s + 1 - (Z.of_nat (List.length evs) + Z.of_nat 1))
    with (s - Z.of_nat (List.length evs)) by lia.
  do 2 f_equal. lia.
Qed.

Lemma consecutive_skipn s evs k :
  map seq evs = count_from (s - zlength evs) (List.length evs) ->
  map seq (skipn k evs) =
  count_from (s - zlength (skipn k evs)) (List.length (skipn k evs)).
Proof.
  intros H. rewrite <- skipn_map, H, skipn_count_from.
  unfold zlength. rewrite length_skipn.
  destruct (le_lt_dec k (List.length evs)) as [Hk|Hk].
  - f_equal. lia.
  - replace (List.length evs - k)%nat with O by lia. reflexivity.
Qed.

Lemma append_events now level source message data b :
  exists k : nat,
    let e := make_event now (_seq b + 1) level source message data in
    let b' := fst (append now level source message data b) in
    (k <= List.length (_events b) + 1)%nat /\
    _events b' = skipn k (_events b ++ [e]) /\
    _totalBytes b' = _totalBytes b + _size e - sum_sizes (firstn k (_events b ++ [e])) /\
    _droppedCount b' = _droppedCount b + Z.of_nat k.
Proof.
  unfold append, _enforceRetention.
  cbn [fst _config _events _seq _totalBytes _droppedCount _earliestRetainedSeq].
  set (e := make_event now (_seq b + 1) level source message data).
  destruct (enforce_drops (_config b) (_seq b + 1) (_events b ++ [e])
              (_totalBytes b + _size e) (_droppedCount b) (_earliestRetainedSeq b))
    as (k & Hk & He & Ht & Hd & _).
  exists k. cbn zeta. rewrite length_app in Hk. cbn [List.length] in Hk.
  repeat split; assumption.
Qed.

Lemma reachable_consecutive b :
  reachable b ->
  map seq (_events b) = count_from (_seq b - zlength (_events b)) (List.length (_events b)).
Proof.
  induction 1 as [config|now level source message data b Hb IH|b Hb IH].
  - reflexivity.
  - destruct (append_events now level source message data b) as (k & _ & He & _).
    cbn zeta in He. rewrite He, append_seq.
    apply consecutive_skipn, consecutive_append; [exact IH|apply make_event_seq].
  - reflexivity.
Qed.

(** X1. After any calls of [append] and [clear] on a new buffer, the
    retained events carry consecutive sequence numbers that end at the
    sequence counter: the buffer holds the most recent events, none
    missing between them. *)
Theorem retained_events_consecutive (config : ConfigArg) (ops : list op) :
  let b := fst (run_ops ops (new_LogBuffer config)) in
  let n := List.length (_events b) in
  map seq (_events b) = count_from (currentSeq (stats b) - Z.of_nat n) n.
Proof.
  intros b n. apply reachable_consecutive, run_ops_reachable, reach_new.
Qed.

(** X2. A call of [append] puts the new event last and drops events
    from the front only; every dropped event is counted and its size is
    taken off the byte total, so that the events held and the events
    dropped together grow by one. *)
Theorem append_evicts_oldest (now level source message : string) (data : jval)
    (b : LogBuffer) :
  let e := make_event now (_seq b + 1) level source message data in
  let b' := fst (append now level source message data b) in
  exists k : nat,
    (k <= List.length (_events b) + 1)%nat /\
    _events b' = skipn k (_events b ++ [e]) /\
    droppedCount (stats b') = droppedCount (stats b) + Z.of_nat k /\
    totalBytes (stats b') =
      totalBytes (stats b) + _size e - sum_sizes (firstn k (_events b ++ [e])) /\
    eventCount (stats b') + droppedCount (stats b') =
      eventCount (stats b) + droppedCount (stats b) + 1.
Proof.
  intros e b'.
  destruct (append_events now level source message data b) as (k & Hk & He & Ht & Hd).
  cbn zeta in *. fold e in He, Ht. fold b' in He, Ht, Hd.
  exists k. unfold stats. cbn [eventCount droppedCount totalBytes].
  repeat split; try assumption.
  rewrite He, Hd. unfold zlength. rewrite length_skipn, length_app.
  cbn [List.length]. lia.
Qed.

Lemma sum_sizes_ge evs :
  Forall (fun e => 100 <= _size e) evs -> 100 * zlength evs <= sum_sizes evs.
Proof.
  induction 1 as [|e r He _ IH].
  - reflexivity.
  - rewrite sum_sizes_cons, zlength_cons. lia.
Qed.

(** X3. The byte total that [stats] reports is the sum of the sizes of
    the retained events, whatever calls came before, and every retained
    event counts for 100 bytes at least. *)
Theorem stats_total_bytes (config : ConfigArg) (ops : list op) :
  let b := fst (run_ops ops (new_LogBuffer config)) in
  totalBytes (stats b) = sum_sizes (_events b) /\
  100 * eventCount (stats b) <= totalBytes (stats b).
Proof.
  intros b.
  assert (I : invariant b) by apply reachable_invariant, run_ops_reachable, reach_new.
  destruct I as [It Is _ _ _ _]. unfold stats. cbn [totalBytes eventCount].
  split; [exact It|]. rewrite It. apply sum_sizes_ge, Is.
Qed.

(** X4. When the new event fits under both bounds next to the events
    held, [append] drops nothing: the event is added at the end, and the
    dropped count and the earliest retained sequence stay. *)
Theorem append_within_bounds (now level source message : string) (data : jval)
    (b : LogBuffer) :
  eventCount (stats b) + 1 <= maxEvents (_config b) ->
  totalBytes (stats b)
    + _size (make_event now (_seq b + 1) level source message data)
    <= maxBytes (_config b) ->
  let e := make_event now (_seq b + 1) level source message data in
  let b' := fst (append now level source message data b) in
  _events b' = _events b ++ [e] /\
  totalBytes (stats b') = totalBytes (stats b) + _size e /\
  droppedCount (stats b') = droppedCount (stats b) /\
  earliestRetainedSeq (stats b') = earliestRetainedSeq (stats b).
Proof.
  intros H1 H2 e b'. unfold stats in *.
  cbn [eventCount totalBytes droppedCount earliestRetainedSeq] in *.
  unfold b', append, _enforceRetention.
  cbn [fst _config _events _seq _totalBytes _droppedCount _earliestRetainedSeq].
  fold e. rewrite enforce_fits.
  - cbn [_events _totalBytes _droppedCount _earliestRetainedSeq]. repeat split.
  - rewrite zlength_app. unfold zlength at 2. cbn [List.length]. lia.
  - exact H2.
Qed.

Lemma append_within_bounds_witness :
  let b := new_LogBuffer no_config in
  let b' := fst (append Examples.T0 "info" "test" "Hello world" JNull b) in
  map message (_events b') = ["Hello world"%string] /\
  droppedCount (stats b') = 0.
Proof.
  cbn zeta.
  destruct (append_within_bounds Examples.T0 "info" "test" "Hello world" JNull
              (new_LogBuffer no_config)) as (He & _ & Hd & _).
  - vm_compute. discriminate.
  - vm_compute. discriminate.
  - rewrite He, Hd. split; reflexivity.
Defined.

Lemma enforce_minimal cfg seq_ events total dropped earliest :
  total = sum_sizes events ->
  forall j : nat,
    (j < List.length events
         - List.length (_events (enforce cfg seq_ events total dropped earliest)))%nat ->
    maxEvents cfg < zlength (skipn j events) \/
    maxBytes cfg < sum_sizes (skipn j events).
Proof.
  revert total dropped earliest.
  induction events as [|e rest IH]; intros total dropped earliest Ht j Hj.
  - cbn [List.length Nat.sub] in Hj. lia.
  - cbn [enforce] in Hj.
    destruct ((zlength (e :: rest) >? maxEvents cfg) || (total >? maxBytes cfg)) eqn:Hc.
    + destruct j as [|j].
      * cbn [skipn]. apply orb_true_iff in Hc. destruct Hc as [Hc|Hc];
          apply gtb_true in Hc; [left|right]; lia.
      * cbn [skipn].
        apply (IH (total - _size e) (dropped + 1)
                  (match rest with first :: _ => seq first | [] => seq_ end)).
        -- rewrite sum_sizes_cons in Ht. lia.
        -- destruct (enforce_drops cfg seq_ rest (total - _size e) (dropped + 1)
                       (match rest with first :: _ => seq first | [] => seq_ end))
             as (k & Hk & He & _).
           cbn zeta in He. rewrite He, length_skipn in Hj |- *.
           cbn [List.length] in Hj. lia.
    + cbn [_events List.length] in Hj. lia.
Qed.

(** X5. [append] drops no more events than the bounds demand: when it
    has dropped [k] of the events it held with the new one, every
    shorter cut would have left more than [maxEvents] events or more
    than [maxBytes] bytes. *)
Theorem eviction_is_minimal (config : ConfigArg) (ops : list op)
    (now level source message : string) (data : jval) :
  let b := fst (run_ops ops (new_LogBuffer config)) in
  let all := _events b ++ [make_event now (_seq b + 1) level source message data] in
  let b' := fst (append now level source message data b) in
  let k := (List.length all - List.length (_events b'))%nat in
  _events b' = skipn k all /\
  forall j : nat, (j < k)%nat ->
    maxEvents (_config b) < zlength (skipn j all) \/
    maxBytes (_config b) < sum_sizes (skipn j all).
Proof.
  intros b all b' k.
  assert (I : invariant b) by apply reachable_invariant, run_ops_reachable, reach_new.
  split.
  - destruct (append_events now level source message data b) as (k' & Hk & He & _).
    cbn zeta in He. fold all in He. fold b' in He.
    unfold k. rewrite He at 2. rewrite He, length_skipn. f_equal.
    unfold all in *. rewrite length_app in *. cbn [List.length] in *. lia.
  - intros j Hj. unfold k, b', append, _enforceRetention in Hj.
    cbn [fst _config _events _seq _totalBytes _droppedCount _earliestRetainedSeq] in Hj.
    fold all in Hj.
    eapply enforce_minimal; [|exact Hj].
    unfold all. rewrite sum_sizes_last, (inv_total _ I). reflexivity.
Qed.

Lemma reachable_levels b :
  reachable b -> Forall (fun e => In (level e) LOG_LEVELS) (_events b).
Proof.
  induction 1 as [config|now lvl source message data b Hb IH|b Hb IH].
  - constructor.
  - destruct (append_events now lvl source message data b) as (k & _ & He & _).
    cbn zeta in He. rewrite He. apply Forall_skipn, Forall_app. split; [exact IH|].
    constructor; [|constructor]. rewrite make_event_level.
    destruct (includes_str lvl LOG_LEVELS) eqn:E.
    + unfold includes_str in E. apply existsb_exists in E.
      destruct E as (x & Hx & Hq). apply String.eqb_eq in Hq. subst x. exact Hx.
    + cbn. auto.
  - constructor.
Qed.

(** X6. Every retained event has one of the four levels debug, info,
    warn and error: [append] stores a level it knows as it is, and any
    other level as info. *)
Theorem stored_levels_are_known (config : ConfigArg) (ops : list op) :
  let b := fst (run_ops ops (new_LogBuffer config)) in
  Forall (fun e => In (level e) LOG_LEVELS) (_events b) /\
  forall now s lvl src msg payload,
    let e := make_event now s lvl src msg payload in
    (In lvl LOG_LEVELS -> level e = lvl) /\
    (~ In lvl LOG_LEVELS -> level e = "info"%string).
Proof.
  intros b. split.
  - apply reachable_levels, run_ops_reachable, reach_new.
  - intros now s lvl src msg payload e. unfold e. rewrite make_event_level.
    destruct (includes_str lvl LOG_LEVELS) eqn:E; split; intros H; try reflexivity.
    + exfalso. apply H. unfold includes_str in E. apply existsb_exists in E.
      destruct E as (x & Hx & Hq). apply String.eqb_eq in Hq. subst x. exact Hx.
    + unfold includes_str in E.
      assert (T : existsb (String.eqb lvl) LOG_LEVELS = true).
      { apply existsb_exists. exists lvl. split; [exact H|apply String.eqb_refl]. }
      congruence.
Qed.
(** ** The order of numbers *)

Lemma pow10_pos k : 0 < Num.pow10 k.
Proof. unfold Num.pow10. apply Z.pow_pos_nonneg; lia. Qed.

Lemma leb_false_ltb x y : Num.leb x y = false -> Num.ltb y x = true.
Proof.
  unfold Num.leb, Num.ltb. intros H. apply Z.leb_gt in H. apply Z.ltb_lt. lia.
Qed.

Lemma ltb_false_leb x y : Num.ltb x y = false -> Num.leb y x = true.
Proof.
  unfold Num.leb, Num.ltb. intros H. apply Z.ltb_ge in H. apply Z.leb_le. lia.
Qed.

Lemma ltb_of_Z_mono x a b :
  Num.ltb x (of_Z a) = true -> a <= b -> Num.ltb x (of_Z b) = true.
Proof.
  unfold Num.ltb, of_Z. cbn [mant scale]. intros H Hab.
  apply Z.ltb_lt in H. apply Z.ltb_lt.
  pose proof (pow10_pos (scale x)). nia.
Qed.

Lemma leb_of_Z_mono a b x :
  Num.leb (of_Z b) x = true -> a <= b -> Num.leb (of_Z a) x = true.
Proof.
  unfold Num.leb, of_Z. cbn [mant scale]. intros H Hab.
  apply Z.leb_le in H. apply Z.leb_le.
  pose proof (pow10_pos (scale x)). nia.
Qed.

Lemma leb_refl x : Num.leb x x = true.
Proof. unfold Num.leb. apply Z.leb_refl. Qed.

Lemma leb_max_r x y : Num.leb y (Num.max x y) = true.
Proof.
  unfold Num.max. destruct (Num.leb x y) eqn:E; [apply leb_refl|].
  apply ltb_leb, leb_false_ltb, E.
Qed.

Lemma leb_max_l x y : Num.leb x (Num.max x y) = true.
Proof.
  unfold Num.max. destruct (Num.leb x y) eqn:E; [exact E|apply leb_refl].
Qed.

(** ** Which events a read returns *)

Lemma ascending_In lo evs x : ascending lo evs -> In x evs -> lo < seq x.
Proof.
  revert lo. induction evs as [|y r IH]; intros lo Ha Hx.
  - destruct Hx.
  - destruct Ha as [Hy Hr]. destruct Hx as [->|Hx]; [exact Hy|].
    specialize (IH _ Hr Hx). lia.
Qed.

Section ScanOrder.

Variable options : ReadOptions.
Variable eff : jsnum.

Ltac scan_cases e rest st :=
  destruct (candidate options eff e) eqn:?Hcand;
  [ rewrite (scan_candidate options eff e rest st) by assumption;
    destruct (s_currentBytes st + eventSize (view_of options e)
                >? effectiveMaxBytes options) eqn:?Hbytes;
    [ | destruct (zlength (s_events st) >=? effectiveLimit options) eqn:?Hfull ]
  | rewrite (scan_skip options eff e rest st) by assumption ].

(** The loop returns the first candidates, in the order of the buffer. *)
Lemma scan_prefix evs st :
  exists n : nat,
    s_events (scan options eff evs st) =
    s_events st ++ map (view_of options) (firstn n (filter (candidate options eff) evs)).
Proof.
  revert st. induction evs as [|e rest IH]; intros st.
  - exists O. cbn. rewrite app_nil_r. reflexivity.
  - cbn [filter]. scan_cases e rest st.
    + exists O. cbn. rewrite app_nil_r. reflexivity.
    + exists O. cbn. rewrite app_nil_r. reflexivity.
    + destruct (IH (mkScan (s_events st ++ [view_of options e])
                           (s_currentBytes st + eventSize (view_of options e))
                           (of_Z (seq e)) (s_has_more st) (s_truncated st)))
        as (n & Hn).
      exists (S n). rewrite Hn. cbn [s_events firstn map].
      rewrite <- app_assoc. reflexivity.
    + apply IH.
Qed.

(** A loop that ends without [break] has returned every candidate. *)
Lemma scan_complete evs st :
  s_has_more (scan options eff evs st) = false ->
  s_events (scan options eff evs st) =
    s_events st ++ map (view_of options) (filter (candidate options eff) evs) /\
  s_truncated (scan options eff evs st) = s_truncated st /\
  s_lastSeq (scan options eff evs st) =
    last (map (fun e => of_Z (seq e)) (filter (candidate options eff) evs))
         (s_lastSeq st).
Proof.
  revert st. induction evs as [|e rest IH]; intros st.
  - intros _. cbn. rewrite app_nil_r. auto.
  - cbn [filter]. scan_cases e rest st.
    + cbn [s_has_more]. discriminate.
    + cbn [s_has_more]. discriminate.
    + intros H. destruct (IH _ H) as (H1 & H2 & H3).
      rewrite H1, H2, H3. cbn [s_events s_truncated s_lastSeq map].
      rewrite <- app_assoc. repeat split.
      symmetry. apply last_cons_default.
    + apply IH.
Qed.

(** The sequence the loop ends with is the one it started with or the
    sequence of a retained event. *)
Lemma scan_lastSeq evs st :
  s_lastSeq (scan options eff evs st) = s_lastSeq st \/
  exists e, In e evs /\ s_lastSeq (scan options eff evs st) = of_Z (seq e).
Proof.
  revert st. induction evs as [|e rest IH]; intros st.
  - left. reflexivity.
  - scan_cases e rest st.
    + left. reflexivity.
    + left. reflexivity.
    + destruct (IH (mkScan (s_events st ++ [view_of options e])
                           (s_currentBytes st + eventSize (view_of options e))
                           (of_Z (seq e)) (s_has_more st) (s_truncated st)))
        as [H|(x & Hx & H)].
      * right. exists e. split; [left; reflexivity|exact H].
      * right. exists x. split; [right; exact Hx|exact H].
    + destruct (IH st) as [H|(x & Hx & H)].
      * left. exact H.
      * right. exists x. split; [right; exact Hx|exact H].
Qed.

(** When the loop stops at a [break], a retained event lies after the
    sequence it ends with. *)
Lemma scan_break_later lo evs st :
  ascending lo evs ->
  (forall e, In e evs -> candidate options eff e = true ->
             Num.ltb (s_lastSeq st) (of_Z (seq e)) = true) ->
  s_has_more st = false ->
  s_has_more (scan options eff evs st) = true ->
  exists e, In e evs /\
            Num.ltb (s_lastSeq (scan options eff evs st)) (of_Z (seq e)) = true.
Proof.
  revert lo st. induction evs as [|e rest IH]; intros lo st Ha H0 Hs Hm.
  - cbn in Hm. congruence.
  - destruct Ha as [Hlo Ha]. revert Hm. scan_cases e rest st; intros Hm.
    + exists e. split; [left; reflexivity|]. cbn [s_lastSeq].
      apply H0; [left; reflexivity|assumption].
    + exists e. split; [left; reflexivity|]. cbn [s_lastSeq].
      apply H0; [left; reflexivity|assumption].
    + destruct (IH (seq e)
                  (mkScan (s_events st ++ [view_of options e])
                          (s_currentBytes st + eventSize (view_of options e))
                          (of_Z (seq e)) (s_has_more st) (s_truncated st)) Ha)
        as (x & Hx & H).
      * cbn [s_lastSeq]. intros x Hx _. rewrite ltb_of_Z. apply Z.ltb_lt.
        exact (ascending_In _ _ _ Ha Hx).
      * exact Hs.
      * exact Hm.
      * exists x. split; [right; exact Hx|exact H].
    + destruct (IH (seq e) st Ha) as (x & Hx & H).
      * intros x Hx. apply H0. right. exact Hx.
      * exact Hs.
      * exact Hm.
      * exists x. split; [right; exact Hx|exact H].
Qed.

End ScanOrder.

Lemma scan_start_events now startSeq b :
  s_events (scan_start now startSeq b) = warning_of now startSeq b.
Proof. reflexivity. Qed.

Lemma read_inv now options b r :
  read now options b = Returns (b, r) ->
  exists startSeq,
    start_of (cursor options) = Returns startSeq /\
    r = read_from now options startSeq b.
Proof.
  intros H. destruct (read_returns now options b) as (s & Hs & Hr).
  exists s. split; [exact Hs|]. rewrite Hr in H. injection H as H. auto.
Qed.

Lemma read_from_no_more now options startSeq b :
  has_more (read_from now options startSeq b) = false ->
  s_has_more (scan options (effective_start startSeq b) (_events b)
                   (scan_start now startSeq b)) = false.
Proof.
  intros H.
  destruct (s_has_more (scan options (effective_start startSeq b) (_events b)
                             (scan_start now startSeq b))) eqn:E; [|reflexivity].
  apply (read_from_has_more now options startSeq b) in E. congruence.
Qed.

(** X7. The stored events that a read returns are the first of the
    retained events that lie after the effective start and pass both
    filters, in the order of the buffer: none is skipped, none comes
    twice, and only the warning of a stale cursor comes before them. *)
Theorem read_returns_first_candidates (now : string) (options : ReadOptions)
    (b : LogBuffer) :
  exists (startSeq : jsnum) (r : ReadResult) (n : nat),
    start_of (cursor options) = Returns startSeq /\
    read now options b = Returns (b, r) /\
    events r =
      warning_of now startSeq b
        ++ map (view_of options)
               (firstn n (filter (candidate options (effective_start startSeq b))
                                 (_events b))).
Proof.
  destruct (read_returns now options b) as (s & Hs & Hr).
  destruct (scan_prefix options (effective_start s b) (_events b) (scan_start now s b))
    as (n & Hn).
  exists s, (read_from now options s b), n.
  split; [exact Hs|]. split; [exact Hr|].
  rewrite read_from_events, Hn. reflexivity.
Qed.

(** X8. When a read reports [has_more] false, nothing was left out:
    it has returned every retained event after the effective start that
    passes the filters, and [truncated] is false. *)
Theorem read_without_more_is_complete (now : string) (options : ReadOptions)
    (b : LogBuffer) (r : ReadResult) :
  read now options b = Returns (b, r) ->
  has_more r = false ->
  exists startSeq : jsnum,
    start_of (cursor options) = Returns startSeq /\
    events r =
      warning_of now startSeq b
        ++ map (view_of options)
               (filter (candidate options (effective_start startSeq b)) (_events b)) /\
    truncated r = false.
Proof.
  intros Hr Hm. destruct (read_inv _ _ _ _ Hr) as (s & Hs & ->).
  exists s. split; [exact Hs|].
  apply read_from_no_more in Hm.
  destruct (scan_complete _ _ _ _ Hm) as (H1 & H2 & _).
  rewrite read_from_events, read_from_truncated, H1, H2. split; reflexivity.
Qed.

Lemma read_without_more_is_complete_witness :
  let b := Examples.small in
  exists r,
    read Examples.T0 no_options b = Returns (b, r) /\
    has_more r = false /\
    truncated r = false.
Proof.
  cbn zeta.
  set (r := read_from Examples.T0 no_options (of_Z 0) Examples.small).
  assert (H1 : read Examples.T0 no_options Examples.small
               = Returns (Examples.small, r)) by reflexivity.
  assert (H2 : has_more r = false) by (vm_compute; reflexivity).
  exists r. split; [exact H1|]. split; [exact H2|].
  destruct (read_without_more_is_complete _ _ _ _ H1 H2) as (s & _ & _ & Ht).
  exact Ht.
Defined.

Lemma includes_str_In x l : includes_str x l = true -> In x l.
Proof.
  unfold includes_str. intros H. apply existsb_exists in H.
  destruct H as (y & Hy & Hq). apply String.eqb_eq in Hq. subst y. exact Hy.
Qed.

Lemma not_filtered_out f x l :
  filtered_out f x = false -> f = Some l -> l <> [] -> In x l.
Proof.
  intros H -> Hl. destruct l as [|y l]; [congruence|].
  cbn [filtered_out] in H. apply negb_false_iff in H.
  apply includes_str_In, H.
Qed.

(** X9. Apart from the warning of a stale cursor, every event that a
    read returns is the view of a retained event, and it passes the
    filters of the read: its level is one of [levels] and its source
    one of [sources], when these lists are given and not empty. *)
Theorem read_respects_filters (now : string) (options : ReadOptions)
    (b : LogBuffer) :
  exists (startSeq : jsnum) (r : ReadResult),
    start_of (cursor options) = Returns startSeq /\
    read now options b = Returns (b, r) /\
    forall v, In v (events r) ->
      In v (warning_of now startSeq b) \/
      exists e, In e (_events b) /\ v = view_of options e /\
        (forall lv, levels options = Some lv -> lv <> [] -> In (v_level v) lv) /\
        (forall sv, sources options = Some sv -> sv <> [] -> In (v_source v) sv).
Proof.
  destruct (read_returns now options b) as (s & Hs & Hr).
  exists s, (read_from now options s b).
  split; [exact Hs|]. split; [exact Hr|].
  intros v Hv. rewrite read_from_events in Hv.
  destruct (scan_added options (effective_start s b) (_events b) (scan_start now s b))
    as (added & H1 & _ & H3).
  rewrite H1, scan_start_events in Hv. apply in_app_or in Hv.
  destruct Hv as [Hv|Hv]; [left; exact Hv|right].
  apply in_map_iff in Hv. destruct Hv as (e & <- & He).
  rewrite Forall_forall in H3. destruct (H3 e He) as [Hin Hc].
  exists e. split; [exact Hin|]. split; [reflexivity|].
  unfold candidate in Hc.
  apply andb_true_iff in Hc. destruct Hc as [Hc Hsrc].
  apply andb_true_iff in Hc. destruct Hc as [_ Hlv].
  apply negb_true_iff in Hlv, Hsrc.
  split; intros f Hf Hne.
  - exact (not_filtered_out _ _ _ Hlv Hf Hne).
  - exact (not_filtered_out _ _ _ Hsrc Hf Hne).
Qed.

(** X10. A read with [includeStructured] false returns no structured
    data: the data of every event in the result is null. *)
Theorem read_without_structured_data (now : string) (options : ReadOptions)
    (b : LogBuffer) (r : ReadResult) :
  includeStructured options = Some false ->
  read now options b = Returns (b, r) ->
  Forall (fun v => v_data v = JNull) (events r).
Proof.
  intros Hi Hr. destruct (read_inv _ _ _ _ Hr) as (s & Hs & ->).
  rewrite read_from_events.
  destruct (scan_added options (effective_start s b) (_events b) (scan_start now s b))
    as (added & H1 & _ & _).
  rewrite H1, scan_start_events. apply Forall_app. split.
  - unfold warning_of. destruct (points_to_dropped s b); repeat constructor.
  - apply Forall_forall. intros v Hv. apply in_map_iff in Hv.
    destruct Hv as (e & <- & _). unfold view_of. rewrite Hi. reflexivity.
Qed.

Lemma read_without_structured_data_witness :
  let b := ReadMoreExamples.with_data in
  exists r,
    read Examples.T0 ReadMoreExamples.unstructured b = Returns (b, r) /\
    map (fun e => Json.truthy (data e)) (_events b) = [true] /\
    Forall (fun v => v_data v = JNull) (events r).
Proof.
  cbn zeta.
  exists (read_from Examples.T0 ReadMoreExamples.unstructured (of_Z 0)
                    ReadMoreExamples.with_data).
  split; [reflexivity|]. split; [vm_compute; reflexivity|].
  apply (read_without_structured_data Examples.T0 ReadMoreExamples.unstructured
           ReadMoreExamples.with_data); reflexivity.
Defined.

(** Options that differ in filters that let the same events pass make
    the same loop. *)
Lemma scan_ext o1 o2 eff evs st :
  effectiveLimit o1 = effectiveLimit o2 ->
  effectiveMaxBytes o1 = effectiveMaxBytes o2 ->
  default true (includeStructured o1) = default true (includeStructured o2) ->
  (forall x, filtered_out (levels o1) x = filtered_out (levels o2) x) ->
  (forall x, filtered_out (sources o1) x = filtered_out (sources o2) x) ->
  scan o1 eff evs st = scan o2 eff evs st.
Proof.
  intros Hl Hm Hi Hlv Hsv. revert st.
  induction evs as [|e rest IH]; intros st; [reflexivity|].
  cbn [scan]. rewrite Hlv, Hsv, Hi, Hl, Hm, !IH. reflexivity.
Qed.

Lemma read_ext now o1 o2 b :
  cursor o1 = cursor o2 ->
  effectiveLimit o1 = effectiveLimit o2 ->
  effectiveMaxBytes o1 = effectiveMaxBytes o2 ->
  default true (includeStructured o1) = default true (includeStructured o2) ->
  (forall x, filtered_out (levels o1) x = filtered_out (levels o2) x) ->
  (forall x, filtered_out (sources o1) x = filtered_out (sources o2) x) ->
  read now o1 b = read now o2 b.
Proof.
  intros Hc Hl Hm Hi Hlv Hsv. unfold read, read_from. rewrite Hc.
  destruct (start_of (cursor o2)); try reflexivity.
  rewrite (scan_ext o1 o2) by assumption. reflexivity.
Qed.

(** X11. An empty list of levels or of sources filters nothing: a read
    with [levels: []] returns what a read without [levels] returns, and
    the same holds of [sources]. *)
Theorem empty_filter_is_no_filter (now : string) (c : option string)
    (l m : option Z) (lv sv : option (list string)) (i : option bool)
    (b : LogBuffer) :
  read now (mkOptions c l m (Some []) sv i) b = read now (mkOptions c l m None sv i) b /\
  read now (mkOptions c l m lv (Some []) i) b = read now (mkOptions c l m lv None i) b.
Proof.
  split; apply read_ext; reflexivity.
Qed.

(** ** When a read reports more *)

Lemma append_earliest now level source message data b :
  let b' := fst (append now level source message data b) in
  _events b' = [] -> _earliestRetainedSeq b' = _seq b'.
Proof.
  unfold append, _enforceRetention.
  cbn [fst _config _events _seq _totalBytes _droppedCount _earliestRetainedSeq].
  set (e := make_event now (_seq b + 1) level source message data).
  destruct (enforce_drops (_config b) (_seq b + 1) (_events b ++ [e])
              (_totalBytes b + _size e) (_droppedCount b) (_earliestRetainedSeq b))
    as (k & _ & He & _ & _ & Hr).
  cbn zeta in *. intros Hnil. rewrite enforce_seq, Hr. rewrite He in Hnil.
  destruct k as [|k].
  - cbn [skipn] in Hnil. destruct (_events b); discriminate.
  - rewrite Hnil. reflexivity.
Qed.

Lemma reachable_empty b :
  reachable b -> _events b = [] -> _earliestRetainedSeq b = _seq b.
Proof.
  induction 1 as [config|now level source message data b Hb IH|b Hb IH].
  - reflexivity.
  - apply append_earliest.
  - reflexivity.
Qed.

Lemma last_count_from a n d : last (count_from a (S n)) d = a + Z.of_nat (S n).
Proof.
  revert a d. induction n as [|n IH]; intros a d.
  - cbn. lia.
  - change (count_from a (S (S n))) with ((a + 1) :: count_from (a + 1) (S n)).
    rewrite last_cons_default, IH. lia.
Qed.

Lemma last_map_Some {A} (l : list A) (d : A) :
  last (map Some l) None = match l with [] => None | _ => Some (last l d) end.
Proof.
  induction l as [|x l IH]; [reflexivity|].
  destruct l as [|y l]; [reflexivity|].
  change (last (map Some (x :: y :: l)) None) with (last (map Some (y :: l)) None).
  rewrite IH. reflexivity.
Qed.

(** The last retained event carries the sequence counter. *)
Lemma reachable_last_seq b :
  reachable b ->
  last (map (fun e => Some (seq e)) (_events b)) None =
  if zlength (_events b) >? 0 then Some (_seq b) else None.
Proof.
  intros Hb. pose proof (reachable_consecutive b Hb) as Hc.
  rewrite <- (map_map seq Some), (last_map_Some _ 0), Hc.
  unfold zlength. destruct (_events b) as [|e r]; [reflexivity|].
  cbn [List.length]. rewrite last_count_from.
  replace (Z.of_nat (S (List.length r)) >? 0) with true by (symmetry; apply gtb_lt; lia).
  cbn [count_from]. f_equal. lia.
Qed.

Lemma leb_true_ltb x y : Num.leb x y = true -> Num.ltb y x = false.
Proof.
  unfold Num.leb, Num.ltb. intros H. apply Z.leb_le in H. apply Z.ltb_ge. lia.
Qed.

Lemma candidate_later options eff e :
  candidate options eff e = true -> Num.ltb eff (of_Z (seq e)) = true.
Proof.
  unfold candidate. intros H.
  apply andb_true_iff in H. destruct H as [H _].
  apply andb_true_iff in H. destruct H as [H _].
  apply negb_true_iff in H. apply leb_false_ltb, H.
Qed.

(** On a reachable buffer, [has_more] tells whether the sequence that
    the loop of [read] ends with is below the sequence counter. *)
Lemma read_from_has_more_exact now options startSeq b :
  reachable b ->
  has_more (read_from now options startSeq b) =
  Num.ltb (s_lastSeq (scan options (effective_start startSeq b) (_events b)
                           (scan_start now startSeq b)))
          (of_Z (_seq b)).
Proof.
  intros Hb. pose proof (reachable_invariant b Hb) as I.
  unfold read_from. cbn [has_more].
  change (scan options _ (_events b) _) with
    (scan options (effective_start startSeq b) (_events b) (scan_start now startSeq b)).
  rewrite (reachable_last_seq b Hb).
  destruct (s_has_more (scan options (effective_start startSeq b) (_events b)
                             (scan_start now startSeq b))) eqn:E.
  - cbn [negb andb]. symmetry.
    destruct (scan_break_later options (effective_start startSeq b)
                (_earliestRetainedSeq b - 1) (_events b) (scan_start now startSeq b))
      as (e & He & Hlt).
    + apply (inv_ascending _ I).
    + intros e _ Hc. apply candidate_later in Hc. exact Hc.
    + reflexivity.
    + exact E.
    + apply (ltb_of_Z_mono _ _ _ Hlt).
      pose proof (inv_last _ I) as Hl. rewrite Forall_forall in Hl. apply Hl, He.
  - cbn [negb andb]. destruct (zlength (_events b) >? 0) eqn:Hz; [reflexivity|].
    assert (Hnil : _events b = []).
    { apply gtb_false in Hz. unfold zlength in Hz.
      destruct (_events b); [reflexivity|cbn [List.length] in Hz; lia]. }
    symmetry. rewrite Hnil. cbn [scan scan_start s_lastSeq].
    unfold effective_start. rewrite (reachable_empty b Hb Hnil).
    apply leb_true_ltb, leb_max_r.
Qed.

(** ** A reader that has caught up *)

Lemma result_eta r :
  r = mkResult (r_cursor r) (has_more r) (events r) (truncated r).
Proof. destruct r; reflexivity. Qed.

Lemma not_candidate_upto options k e :
  seq e <= k -> candidate options (of_Z k) e = false.
Proof.
  intros H. unfold candidate. rewrite leb_of_Z.
  replace (seq e <=? k) with true by (symmetry; apply Z.leb_le; exact H).
  reflexivity.
Qed.

(** A read from the sequence [k], not below the earliest retained one,
    that meets no candidate: the loop returns nothing and ends with
    [k]. *)
Lemma scan_nothing_new now options k b :
  _earliestRetainedSeq b <= k ->
  Forall (fun e => candidate options (of_Z k) e = false) (_events b) ->
  scan options (effective_start (of_Z k) b) (_events b) (scan_start now (of_Z k) b) =
  mkScan [] (events_size []) (of_Z k) false false.
Proof.
  intros Hk Hc.
  assert (He : effective_start (of_Z k) b = of_Z k).
  { unfold effective_start. rewrite max_of_Z. f_equal. lia. }
  assert (Hp : points_to_dropped (of_Z k) b = false).
  { unfold points_to_dropped. rewrite !ltb_of_Z.
    replace (k <? _earliestRetainedSeq b) with false
      by (symmetry; apply Z.ltb_ge; exact Hk).
    apply andb_false_r. }
  unfold scan_start. rewrite Hp, He.
  rewrite <- (app_nil_r (_events b)). rewrite scan_skip_all by exact Hc.
  reflexivity.
Qed.

Lemma scan_lastSeq_int options eff evs st k0 :
  s_lastSeq st = of_Z k0 ->
  exists k, s_lastSeq (scan options eff evs st) = of_Z k /\
            (k = k0 \/ exists e, In e evs /\ k = seq e).
Proof.
  intros H0. destruct (scan_lastSeq options eff evs st) as [H|(e & He & H)].
  - exists k0. split; [congruence|left; reflexivity].
  - exists (seq e). split; [exact H|right; exists e; auto].
Qed.

(** X13. A reader that has caught up stays where it is. After any calls
    of [append] and [clear] on a new buffer, when a read that started at
    a whole sequence number not above the sequence counter reports
    [has_more] false, its cursor encodes the sequence counter, and a
    read from that cursor returns no event, [has_more] false and the
    same cursor. The sequence counter is below 2^53. *)
Theorem caught_up_reader (config : ConfigArg) (ops : list op) (now1 now2 : string)
    (options : ReadOptions) (k0 : Z) (r1 : ReadResult) :
  let b := fst (run_ops ops (new_LogBuffer config)) in
  currentSeq (stats b) < 2 ^ 53 ->
  start_of (cursor options) = Returns (of_Z k0) ->
  k0 <= currentSeq (stats b) ->
  read now1 options b = Returns (b, r1) ->
  has_more r1 = false ->
  r_cursor r1 = _encodeCursor (of_Z (currentSeq (stats b))) /\
  read now2 (with_cursor (Some (r_cursor r1)) options) b =
    Returns (b, mkResult (r_cursor r1) false [] false).
Proof.
  intros b Hlt Hs Hk0 Hr Hm. unfold stats in *. cbn [currentSeq] in *.
  assert (Hb : reachable b) by apply run_ops_reachable, reach_new.
  pose proof (reachable_invariant b Hb) as I.
  destruct (read_inv _ _ _ _ Hr) as (s & Hs' & ->).
  rewrite Hs in Hs'. injection Hs' as <-.
  rewrite read_from_has_more_exact in Hm by exact Hb.
  rewrite read_from_cursor.
  destruct (scan_lastSeq_int options (effective_start (of_Z k0) b) (_events b)
              (scan_start now1 (of_Z k0) b) (Z.max k0 (_earliestRetainedSeq b)))
    as (k & Hk & Hwhich).
  { cbn [scan_start s_lastSeq]. apply max_of_Z. }
  rewrite Hk in Hm |- *. rewrite ltb_of_Z in Hm. apply Z.ltb_ge in Hm.
  pose proof (inv_earliest _ I) as He.
  pose proof (inv_last _ I) as Hl. rewrite Forall_forall in Hl.
  assert (Hkeq : k = _seq b).
  { destruct Hwhich as [->|(e & Hin & ->)]; [lia|]. specialize (Hl e Hin). lia. }
  subst k. split; [reflexivity|].
  assert (Hstart : start_of (cursor (with_cursor (Some (_encodeCursor (of_Z (_seq b))))
                                                 options))
                   = Returns (of_Z (_seq b))).
  { cbn [with_cursor cursor]. rewrite start_of_some. apply cursor_round_trip.
    pose proof pow_2_53_lt. lia. }
  rewrite (read_start _ _ _ _ Hstart). do 2 f_equal.
  rewrite (result_eta (read_from _ _ _ _)).
  rewrite read_from_has_more_exact by exact Hb.
  rewrite read_from_events, read_from_truncated, read_from_cursor.
  rewrite scan_nothing_new.
  - cbn [s_lastSeq s_events s_truncated]. rewrite ltb_of_Z, Z.ltb_irrefl. reflexivity.
  - lia.
  - apply Forall_forall. intros e Hin. apply not_candidate_upto, Hl, Hin.
Qed.

Lemma caught_up_reader_witness :
  let b := ReadMoreExamples.two_infos in
  exists r1,
    read Examples.T0 no_options b = Returns (b, r1) /\
    has_more r1 = false /\
    read Examples.T0 (with_cursor (Some (r_cursor r1)) no_options) b =
      Returns (b, mkResult (r_cursor r1) false [] false).
Proof.
  cbn zeta.
  set (r1 := read_from Examples.T0 no_options (of_Z 0) ReadMoreExamples.two_infos).
  assert (H1 : read Examples.T0 no_options ReadMoreExamples.two_infos
               = Returns (ReadMoreExamples.two_infos, r1)) by reflexivity.
  assert (H2 : has_more r1 = false) by (vm_compute; reflexivity).
  exists r1. split; [exact H1|]. split; [exact H2|].
  refine (proj2 (caught_up_reader no_config (Examples.messages 1 2)
                   Examples.T0 Examples.T0 no_options 0 r1 _ _ _ H1 H2)).
  - vm_compute. reflexivity.
  - reflexivity.
  - vm_compute. discriminate.
Defined.

(** X14. The cursor codec is a round trip on the sequence numbers: a
    whole number from 0 to below 10^21 that [_encodeCursor] encodes is
    what [_decodeCursor] returns, and where a read with that cursor
    starts. *)
Theorem cursor_codec_round_trip (n : Z) :
  0 <= n < 10 ^ 21 ->
  _decodeCursor (_encodeCursor (of_Z n)) = Returns (of_Z n) /\
  start_of (Some (_encodeCursor (of_Z n))) = Returns (of_Z n).
Proof.
  intros H. rewrite start_of_some. split; apply cursor_round_trip, H.
Qed.

Lemma cursor_codec_round_trip_witness :
  _decodeCursor (_encodeCursor (of_Z 42)) = Returns (of_Z 42) /\
  start_of (Some (_encodeCursor (of_Z 42))) = Returns (of_Z 42).
Proof.
  apply (cursor_codec_round_trip 42). lia.
Defined.

(** ** The first event after an eviction *)

Lemma append_dropping now level source message data b e0 rest :
  let b' := fst (append now level source message data b) in
  _droppedCount b < _droppedCount b' ->
  _events b' = e0 :: rest ->
  _earliestRetainedSeq b' = seq e0.
Proof.
  unfold append, _enforceRetention.
  cbn [fst _config _events _seq _totalBytes _droppedCount _earliestRetainedSeq].
  set (e := make_event now (_seq b + 1) level source message data).
  destruct (enforce_drops (_config b) (_seq b + 1) (_events b ++ [e])
              (_totalBytes b + _size e) (_droppedCount b) (_earliestRetainedSeq b))
    as (k & _ & He & _ & Hd & Hr).
  cbn zeta in *. intros Hlt Hev. rewrite Hr. rewrite He in Hev.
  destruct k as [|k]; [lia|]. rewrite Hev. reflexivity.
Qed.

(** X15. After a call of [append] that has dropped an event and left
    the buffer non-empty, the earliest retained sequence is the sequence
    of the first retained event, and no read returns that event: with
    any cursor and any options, the stored events returned all come
    after it. *)
Theorem evicting_append_hides_first_event (now level source message : string)
    (data : jval) (b : LogBuffer) (now' : string) (options : ReadOptions)
    (e0 : LogEvent) (rest : list LogEvent) :
  let b' := fst (append now level source message data b) in
  droppedCount (stats b) < droppedCount (stats b') ->
  _events b' = e0 :: rest ->
  earliestRetainedSeq (stats b') = seq e0 /\
  exists (startSeq : jsnum) (r : ReadResult) (stored : list LogEvent),
    start_of (cursor options) = Returns startSeq /\
    read now' options b' = Returns (b', r) /\
    events r = warning_of now' startSeq b' ++ map (view_of options) stored /\
    Forall (fun e => In e (_events b') /\ seq e0 < seq e) stored.
Proof.
  intros b' Hd Hev. unfold stats in *. cbn [droppedCount earliestRetainedSeq] in *.
  pose proof (append_dropping now level source message data b e0 rest Hd Hev) as He.
  fold b' in He. split; [exact He|].
  destruct (read_returns now' options b') as (s & Hs & Hr).
  destruct (scan_added options (effective_start s b') (_events b') (scan_start now' s b'))
    as (added & H1 & _ & H3).
  exists s, (read_from now' options s b'), added.
  split; [exact Hs|]. split; [exact Hr|]. split.
  - rewrite read_from_events, H1. reflexivity.
  - eapply Forall_impl; [|exact H3]. cbn beta. intros e [Hin Hc].
    split; [exact Hin|].
    destruct (Z_lt_le_dec (seq e0) (seq e)) as [Hlt|Hle]; [exact Hlt|exfalso].
    unfold candidate in Hc.
    apply andb_true_iff in Hc. destruct Hc as [Hc _].
    apply andb_true_iff in Hc. destruct Hc as [Hc _].
    apply negb_true_iff in Hc.
    rewrite (leb_of_Z_mono (seq e) (_earliestRetainedSeq b')) in Hc.
    + discriminate.
    + apply leb_max_r.
    + lia.
Qed.

Lemma evicting_append_hides_first_event_witness :
  let b := ReadMoreExamples.full in
  let b' := fst (append Examples.T0 "info" "test" "Message 3" JNull b) in
  droppedCount (stats b) < droppedCount (stats b') /\
  map seq (_events b') = [2; 3] /\
  earliestRetainedSeq (stats b') = 2.
Proof.
  cbn zeta.
  set (e2 := make_event Examples.T0 2 "info" "test" "Message 2" JNull).
  set (e3 := make_event Examples.T0 3 "info" "test" "Message 3" JNull).
  assert (Hd : droppedCount (stats ReadMoreExamples.full)
               < droppedCount (stats (fst (append Examples.T0 "info" "test" "Message 3"
                                                  JNull ReadMoreExamples.full))))
    by (vm_compute; reflexivity).
  assert (Hev : _events (fst (append Examples.T0 "info" "test" "Message 3" JNull
                                     ReadMoreExamples.full)) = e2 :: [e3])
    by (vm_compute; reflexivity).
  split; [exact Hd|]. split; [rewrite Hev; reflexivity|].
  exact (proj1 (evicting_append_hides_first_event Examples.T0 "info" "test" "Message 3"
                  JNull ReadMoreExamples.full Examples.T0 no_options e2 [e3] Hd Hev)).
Defined.

(** ** Reading a cleared buffer *)

Lemma read_from_no_break now options startSeq b :
  s_has_more (scan options (effective_start startSeq b) (_events b)
                   (scan_start now startSeq b)) = false ->
  has_more (read_from now options startSeq b) =
  (zlength (_events b) >? 0)
  && match last (map (fun e => Some (seq e)) (_events b)) None with
     | Some lastEventSeq =>
         Num.ltb (s_lastSeq (scan options (effective_start startSeq b) (_events b)
                                  (scan_start now startSeq b)))
                 (of_Z lastEventSeq)
     | None => false
     end.
Proof.
  intros H. unfold read_from. cbn [has_more].
  change (scan options _ (_events b) _) with
    (scan options (effective_start startSeq b) (_events b) (scan_start now startSeq b)).
  rewrite H. cbn [negb andb].
  destruct (zlength (_events b) >? 0); [|reflexivity].
  cbn [andb]. destruct (last _ None); reflexivity.
Qed.

(** X16. After [clear], the buffer is empty and counts no bytes and no
    dropped event, the earliest retained sequence is the sequence
    counter, which stays, and a read with no cursor returns no event,
    [has_more] false and a cursor that encodes the sequence counter. *)
Theorem read_after_clear (config : ConfigArg) (ops : list op) (now : string)
    (l m : option Z) (lv sv : option (list string)) (i : option bool) :
  let b0 := fst (run_ops ops (new_LogBuffer config)) in
  let b := clear b0 in
  eventCount (stats b) = 0 /\
  totalBytes (stats b) = 0 /\
  droppedCount (stats b) = 0 /\
  currentSeq (stats b) = currentSeq (stats b0) /\
  earliestRetainedSeq (stats b) = currentSeq (stats b) /\
  read now (mkOptions None l m lv sv i) b =
    Returns (b, mkResult (_encodeCursor (of_Z (currentSeq (stats b)))) false [] false).
Proof.
  intros b0 b. repeat (split; [reflexivity|]).
  assert (Hb : reachable b0) by apply run_ops_reachable, reach_new.
  pose proof (inv_earliest _ (reachable_invariant b0 Hb)) as He.
  unfold read. cbn [cursor start_of]. do 2 f_equal.
  rewrite (result_eta (read_from _ _ _ _)).
  assert (Hscan : scan (mkOptions None l m lv sv i) (effective_start (of_Z 0) b)
                       (_events b) (scan_start now (of_Z 0) b)
                  = mkScan [] (events_size []) (of_Z (_seq b0)) false false).
  { unfold b, clear, scan_start, points_to_dropped, effective_start.
    cbn [_events _earliestRetainedSeq scan]. rewrite max_of_Z, !ltb_of_Z.
    cbn [Z.ltb Z.compare andb]. do 2 f_equal. lia. }
  rewrite read_from_no_break by (rewrite Hscan; reflexivity).
  rewrite read_from_events, read_from_truncated, read_from_cursor, Hscan.
  reflexivity.
Qed.

(** ** A filter that hides the newest events *)

(** X17. A read whose filters reject every retained event after its
    cursor, while the newest retained event is after it, returns no
    event, [has_more] true and the cursor it was given: the next read
    with that cursor is the same read. *)
Theorem filtered_read_stalls (now : string) (l m : option Z)
    (lv sv : option (list string)) (i : option bool) (b : LogBuffer) (k : Z)
    (pre : list LogEvent) (newest : LogEvent) :
  let c := _encodeCursor (of_Z k) in
  0 <= k < 10 ^ 21 ->
  _earliestRetainedSeq b <= k ->
  _events b = pre ++ [newest] ->
  k < seq newest ->
  Forall (fun e => k < seq e ->
                   filtered_out lv (level e) || filtered_out sv (source e) = true)
         (_events b) ->
  read now (mkOptions (Some c) l m lv sv i) b = Returns (b, mkResult c true [] false).
Proof.
  intros c Hk He Hev Hnew Hf.
  set (options := mkOptions (Some c) l m lv sv i).
  assert (Hs : start_of (cursor options) = Returns (of_Z k)).
  { cbn [options cursor]. rewrite start_of_some. apply cursor_round_trip, Hk. }
  rewrite (read_start _ _ _ _ Hs). do 2 f_equal.
  rewrite (result_eta (read_from _ _ _ _)).
  assert (Hscan : scan options (effective_start (of_Z k) b) (_events b)
                       (scan_start now (of_Z k) b)
                  = mkScan [] (events_size []) (of_Z k) false false).
  { apply scan_nothing_new; [exact He|].
    eapply Forall_impl; [|exact Hf]. cbn beta. intros e H.
    destruct (Z_lt_le_dec k (seq e)) as [Hlt|Hle].
    - unfold candidate. cbn [options levels sources].
      apply H in Hlt. apply orb_true_iff in Hlt. destruct Hlt as [-> | ->].
      + rewrite andb_false_r. reflexivity.
      + apply andb_false_r.
    - apply not_candidate_upto, Hle. }
  rewrite read_from_no_break by (rewrite Hscan; reflexivity).
  rewrite read_from_events, read_from_truncated, read_from_cursor, Hscan.
  cbn [s_events s_truncated s_lastSeq]. fold c. f_equal.
  rewrite Hev, map_app. cbn [map]. rewrite last_last, ltb_of_Z.
  unfold zlength. rewrite length_app. cbn [List.length].
  replace (k <? seq newest) with true by (symmetry; apply Z.ltb_lt; exact Hnew).
  rewrite andb_true_r. apply gtb_lt. lia.
Qed.

Lemma filtered_read_stalls_witness :
  let b := ReadMoreExamples.two_infos in
  let c := _encodeCursor (of_Z 0) in
  read Examples.T0 (ReadMoreExamples.errors_only (Some c)) b =
    Returns (b, mkResult c true [] false).
Proof.
  cbn zeta.
  set (e1 := make_event Examples.T0 1 "info" "test" "Message 1" JNull).
  set (e2 := make_event Examples.T0 2 "info" "test" "Message 2" JNull).
  apply (filtered_read_stalls Examples.T0 None None (Some ["error"%string]) None None
           ReadMoreExamples.two_infos 0 [e1] e2).
  - lia.
  - vm_compute. discriminate.
  - vm_compute. reflexivity.
  - vm_compute. reflexivity.
  - vm_compute. repeat constructor.
Defined.
(** ** Loggers *)

(** X18. Each method of a logger appends one event through [append]:
    it returns the next sequence number, and the event has the level of
    the method, which [append] does not rewrite, the source of the
    logger and the sanitised message, whose stack trace is cut at every
    level but debug. *)
Theorem logger_methods (src now msg : string) (payload : option jval)
    (b : LogBuffer) :
  let logger := createLogger src in
  Forall (fun method_level =>
            let method := fst method_level in
            let lvl := snd method_level in
            let e := make_event now (_seq b + 1) lvl src msg (default JNull payload) in
            snd (method now msg payload b) = _seq b + 1 /\
            (exists k : nat,
               _events (fst (method now msg payload b)) = skipn k (_events b ++ [e])) /\
            level e = lvl /\
            source e = src /\
            message e = (if String.eqb lvl "debug" then _sanitize msg
                         else _truncateStackTrace (_sanitize msg)))
         [(debug logger, "debug"%string);
          (info logger, "info"%string);
          (warn logger, "warn"%string);
          (error logger, "error"%string)].
Proof.
  intros logger.
  assert (H : forall lvl, includes_str lvl LOG_LEVELS = true ->
            let e := make_event now (_seq b + 1) lvl src msg (default JNull payload) in
            snd (append now lvl src msg (default JNull payload) b) = _seq b + 1 /\
            (exists k : nat,
               _events (fst (append now lvl src msg (default JNull payload) b))
               = skipn k (_events b ++ [e])) /\
            level e = lvl /\
            source e = src /\
            message e = (if String.eqb lvl "debug" then _sanitize msg
                         else _truncateStackTrace (_sanitize msg))).
  { intros lvl Hl e. split; [apply append_returns|]. split.
    - destruct (append_events now lvl src msg (default JNull payload) b)
        as (k & _ & He & _).
      exists k. exact He.
    - unfold e, make_event. rewrite Hl.
      cbn [new_LogEvent level source message].
      destruct (String.eqb lvl "debug"); repeat split. }
  repeat constructor; cbn [fst snd logger createLogger debug info warn error];
    apply H; reflexivity.
Qed.

(** ** The arguments of a tool in the log *)

Lemma get_absent key (entries : list (string * jval)) :
  Forall (fun kv => String.eqb (fst kv) key = false) entries ->
  Json.get key entries = None.
Proof.
  induction 1 as [|[k v] r Hk _ IH]; [reflexivity|].
  cbn [Json.get]. rewrite IH. cbn [fst] in Hk. rewrite Hk. reflexivity.
Qed.

Lemma own_entries_keys (g : string * jval -> string * jval)
    (entries : list (string * jval)) :
  (forall kv, fst (g kv) = fst kv) ->
  map fst (filter own_entry (map g entries)) =
  filter (fun key => negb (String.eqb key "__proto__")) (map fst entries).
Proof.
  intros Hg. induction entries as [|kv r IH]; [reflexivity|].
  cbn [map filter]. unfold own_entry at 1. rewrite Hg.
  destruct (negb (String.eqb (fst kv) "__proto__")); cbn [map];
    rewrite IH; [rewrite Hg|]; reflexivity.
Qed.

Lemma sanitizeObject_entries entries :
  exists entries',
    _sanitizeObject (JObj entries) = JObj entries' /\
    map fst entries' =
      filter (fun key => negb (String.eqb key "__proto__")) (map fst entries).
Proof.
  eexists. split; [reflexivity|]. apply own_entries_keys.
  intros [k v]. cbn [fst snd].
  destruct (is_sensitive_key k); [reflexivity|]. destruct v; reflexivity.
Qed.

Lemma filter_filter {A} (f g : A -> bool) (l : list A) :
  filter f (filter g l) = filter (fun x => g x && f x) l.
Proof.
  induction l as [|x r IH]; [reflexivity|].
  cbn [filter]. destruct (g x); cbn [filter andb]; rewrite IH; reflexivity.
Qed.

Lemma sanitizeArguments_keys rawArguments :
  map fst (Backend._sanitizeArguments rawArguments) =
  filter (fun key => negb (String.eqb key "_meta"))
         (map fst (match rawArguments with Some entries => entries | None => [] end)).
Proof.
  unfold Backend._sanitizeArguments. destruct rawArguments as [entries|];
    [|reflexivity].
  induction entries as [|[k0 v0] r IH]; [reflexivity|].
  cbn [filter map fst]. destruct (negb (String.eqb k0 "_meta")); cbn [map fst];
    rewrite IH; reflexivity.
Qed.

(** X19. The call of [read_log] is not logged when it starts. The call
    of any other tool appends one event of level info whose source is
    the name of the tool and whose data holds the arguments under the
    key [arguments]: the names of the arguments in their order without
    [_meta] and without [__proto__], which the copy that redacts does not
    keep, and every argument with a sensitive name redacted, at any
    depth. *)
Theorem tool_start_logged_without_meta (now name : string)
    (rawArguments : option (list (string * jval))) (b : LogBuffer) :
  (name = "read_log"%string -> Backend.log_started now name rawArguments b = b) /\
  (name <> "read_log"%string ->
   exists (k : nat) (e : LogEvent) (logged : list (string * jval)),
     _events (Backend.log_started now name rawArguments b) = skipn k (_events b ++ [e]) /\
     seq e = _seq b + 1 /\
     level e = "info"%string /\
     source e = name /\
     data e = JObj [("arguments"%string, JObj logged)] /\
     map fst logged =
       filter (fun key => negb (String.eqb key "_meta") &&
                          negb (String.eqb key "__proto__"))
              (map fst (match rawArguments with Some entries => entries | None => [] end)) /\
     Json.get "_meta" logged = None /\
     Json.get "__proto__" logged = None /\
     redacted_everywhere (JObj logged) = true).
Proof.
  split.
  - intros ->. reflexivity.
  - intros Hn. unfold Backend.log_started.
    replace (String.eqb name "read_log") with false
      by (symmetry; apply String.eqb_neq; exact Hn).
    cbn [negb createLogger info default].
    set (args := Backend._sanitizeArguments rawArguments).
    set (payload := JObj [("arguments"%string, JObj args)]).
    destruct (append_events now "info" name (Backend.started name) payload b)
      as (k & _ & He & _).
    cbn zeta in He.
    destruct (sanitizeObject_entries args) as (logged & Hs & Hk).
    exists k, (make_event now (_seq b + 1) "info" name (Backend.started name) payload),
      logged.
    split; [exact He|]. split; [apply make_event_seq|].
    split; [reflexivity|]. split; [reflexivity|].
    pose proof (sanitizeArguments_keys rawArguments) as Hkeys. fold args in Hkeys.
    rewrite Hkeys, filter_filter in Hk.
    assert (Habs : forall kv, In kv logged ->
              String.eqb (fst kv) "_meta" = false /\
              String.eqb (fst kv) "__proto__" = false).
    { intros kv Hin.
      assert (Hf : In (fst kv) (map fst logged)) by (apply in_map; exact Hin).
      rewrite Hk in Hf. apply filter_In in Hf. destruct Hf as [_ Hf].
      apply andb_true_iff in Hf. destruct Hf as [H1 H2].
      apply negb_true_iff in H1, H2. split; assumption. }
    split; [|split; [|split; [|split]]].
    + rewrite make_event_data. unfold payload. cbn [Json.truthy].
      change (_sanitizeObject (JObj [("arguments"%string, JObj args)]))
        with (JObj [("arguments"%string, _sanitizeObject (JObj args))]).
      rewrite Hs. reflexivity.
    + exact Hk.
    + apply get_absent. rewrite Forall_forall. intros kv Hin.
      apply (Habs kv Hin).
    + apply get_absent. rewrite Forall_forall. intros kv Hin.
      apply (Habs kv Hin).
    + rewrite <- Hs. apply sanitizeObject_redacted.
Qed.

(** ** The tool that reads the log *)

(** X20. The tool [read_log] reports an error when the session has no
    buffer, and no other: with a buffer it always reports a result and
    leaves the buffer as it was. A parameter that is null or left out
    takes the default of [read]: the result is the text of what [read]
    returns for the parameters as they are. *)
Theorem read_log_reports_read (error_message : exn -> string) (now : string)
    (params : ReadLog.Params) (b : LogBuffer) :
  ReadLog.handle error_message now None params =
    (None, ReadLog.addError "Log buffer not initialized for this session") /\
  exists result : ReadResult,
    read now (ReadLog.as_options params) b = Returns (b, result) /\
    ReadLog.handle error_message now (Some b) params =
      (Some b, ReadLog.addResult (stringify_indented "" (ReadLog.output result))).
Proof.
  split; [reflexivity|].
  destruct (read_returns now (ReadLog.as_options params) b) as (s & _ & Hr).
  exists (read_from now (ReadLog.as_options params) s b).
  split; [exact Hr|].
  unfold ReadLog.handle.
  rewrite (read_ext now (ReadLog.build_options params) (ReadLog.as_options params)).
  - rewrite Hr. reflexivity.
  - reflexivity.
  - unfold effectiveLimit. cbn [ReadLog.build_options ReadLog.as_options limit default].
    reflexivity.
  - unfold effectiveMaxBytes.
    cbn [ReadLog.build_options ReadLog.as_options opt_maxBytes default]. reflexivity.
  - reflexivity.
  - reflexivity.
  - reflexivity.
Qed.
(** ** The target of the tool that sets up a page *)

Lemma endsWith_slash_app s : SetupPage.endsWith_slash (s ++ "/") = true.
Proof.
  induction s as [|c r IH]; [reflexivity|].
  cbn [String.append]. destruct r as [|d r']; [reflexivity|].
  cbn [String.append] in IH |- *. exact IH.
Qed.

Lemma slice_0_minus_1_app s : SetupPage.slice_0_minus_1 (s ++ "/") = s.
Proof.
  induction s as [|c r IH]; [reflexivity|].
  cbn [String.append]. destruct r as [|d r']; [reflexivity|].
  cbn [String.append] in IH |- *. cbn [SetupPage.slice_0_minus_1]. f_equal. exact IH.
Qed.

(** X21. [resolveUrl] joins the base and the path with one slash: a
    base given with or without a slash at its end, by the parameter
    [baseUrl] or by the variable [BASE_URL], and a path given with or
    without a slash at its start resolve to the same URL; a path left
    out is the path [/]. *)
Theorem resolveUrl_joins_with_one_slash (BASE_URL : option string) (B P : string) :
  B <> EmptyString ->
  SetupPage.endsWith_slash B = false ->
  Str.startsWith "/" P = false ->
  forall base path,
    In base [B; (B ++ "/")%string] ->
    In path [P; ("/" ++ P)%string] ->
    SetupPage.resolveUrl BASE_URL (SetupPage.mkParams None (Some base) (Some path))
      = SetupPage.Value (B ++ "/" ++ P) /\
    SetupPage.resolveUrl (Some base) (SetupPage.mkParams None None (Some path))
      = SetupPage.Value (B ++ "/" ++ P) /\
    SetupPage.resolveUrl BASE_URL (SetupPage.mkParams None (Some base) None)
      = SetupPage.Value (B ++ "/").
Proof.
  intros HB He HP base path Hb Hp.
  assert (Hbase : exists c r, base = String c r /\
                    (if SetupPage.endsWith_slash base
                     then SetupPage.slice_0_minus_1 base else base) = B).
  { cbn [In] in Hb. destruct Hb as [<-|[<-|[]]].
    - destruct B as [|c r]; [congruence|]. exists c, r. rewrite He. auto.
    - rewrite endsWith_slash_app, slice_0_minus_1_app.
      destruct B as [|c r]; [congruence|]. exists c, (r ++ "/")%string. auto. }
  destruct Hbase as (c & r & Hc & Hbase).
  assert (Hpath : (let p := match SetupPage.or_else (Some path) (Some "/"%string) with
                            | Some p => p
                            | None => "/"%string
                            end in
                   if Str.startsWith "/" p then p else ("/" ++ p)%string)
                  = ("/" ++ P)%string).
  { cbn [In] in Hp. destruct Hp as [<-|[<-|[]]].
    - destruct P as [|d P']; [reflexivity|].
      cbn [SetupPage.or_else]. cbn zeta. rewrite HP. reflexivity.
    - reflexivity. }
  cbn zeta in Hpath.
  unfold SetupPage.resolveUrl.
  cbn [SetupPage.url SetupPage.baseUrl SetupPage.path].
  rewrite Hpath. subst base. cbn [SetupPage.or_else]. rewrite Hbase.
  repeat split.
Qed.

Lemma resolveUrl_joins_with_one_slash_witness :
  SetupPage.resolveUrl None
    (SetupPage.mkParams None (Some "http://localhost:3000/"%string)
                        (Some "login"%string))
  = SetupPage.Value "http://localhost:3000/login".
Proof.
  refine (proj1 (resolveUrl_joins_with_one_slash None "http://localhost:3000" "login"
                   _ _ _ "http://localhost:3000/"%string "login"%string _ _)).
  - discriminate.
  - reflexivity.
  - reflexivity.
  - right. left. reflexivity.
  - left. reflexivity.
Defined.

(** ** The size of a response *)

Lemma len_join_snoc sep l x :
  Str.len (Str.join sep (l ++ [x])) <= Str.len (Str.join sep l) + Str.len sep + Str.len x.
Proof.
  induction l as [|a r IH].
  - cbn [app Str.join Str.len]. pose proof (len_nonneg sep). lia.
  - destruct r as [|b r'].
    + cbn [app Str.join]. rewrite !len_append. lia.
    + change (Str.join sep ((a :: b :: r') ++ [x]))
        with (a ++ sep ++ Str.join sep ((b :: r') ++ [x]))%string.
      change (Str.join sep (a :: b :: r'))
        with (a ++ sep ++ Str.join sep (b :: r'))%string.
      rewrite !len_append. lia.
Qed.

(** One more event makes the text of the events longer by its own text
    and two characters at most. *)
Lemma events_size_snoc l v : events_size (l ++ [v]) <= events_size l + eventSize v.
Proof.
  unfold events_size, eventSize. cbn [Json.stringify].
  rewrite map_app, map_app. cbn [map]. rewrite !len_append.
  pose proof (len_join_snoc "," (map Json.stringify (map view_value l))
                (Json.stringify (view_value v))) as H.
  change (Str.len ",") with 1 in H. change (Str.len "]") with 1. lia.
Qed.
(** ** Pages that follow one another *)

Section ScanLast.

Variable options : ReadOptions.
Variable eff : jsnum.

Ltac scan_cases e rest st :=
  destruct (candidate options eff e) eqn:?Hcand;
  [ rewrite (scan_candidate options eff e rest st) by assumption;
    destruct (s_currentBytes st + eventSize (view_of options e)
                >? effectiveMaxBytes options) eqn:?Hbytes;
    [ | destruct (zlength (s_events st) >=? effectiveLimit options) eqn:?Hfull ]
  | rewrite (scan_skip options eff e rest st) by assumption ].

(** The loop returns the first [n] candidates and ends with the
    sequence of the last of them. *)
Lemma scan_prefix_last evs st :
  exists n : nat,
    (n <= List.length (filter (candidate options eff) evs))%nat /\
    s_events (scan options eff evs st) =
      s_events st
        ++ map (view_of options) (firstn n (filter (candidate options eff) evs)) /\
    s_lastSeq (scan options eff evs st) =
      last (map (fun e => of_Z (seq e)) (firstn n (filter (candidate options eff) evs)))
           (s_lastSeq st).
Proof.
  revert st. induction evs as [|e rest IH]; intros st.
  - exists O. cbn. rewrite app_nil_r. auto.
  - cbn [filter]. scan_cases e rest st.
    + exists O. cbn. rewrite app_nil_r. repeat split. lia.
    + exists O. cbn. rewrite app_nil_r. repeat split. lia.
    + destruct (IH (mkScan (s_events st ++ [view_of options e])
                           (s_currentBytes st + eventSize (view_of options e))
                           (of_Z (seq e)) (s_has_more st) (s_truncated st)))
        as (n & Hn & H1 & H2).
      exists (S n). rewrite H1, H2. cbn [s_events s_lastSeq firstn map List.length].
      rewrite <- app_assoc, last_cons_default. repeat split. lia.
    + apply IH.
Qed.

(** The running byte total is not below the size of the text of the
    events collected. *)
Lemma scan_size evs st :
  events_size (s_events st) <= s_currentBytes st ->
  events_size (s_events (scan options eff evs st))
    <= s_currentBytes (scan options eff evs st).
Proof.
  revert st. induction evs as [|e rest IH]; intros st H; [exact H|].
  scan_cases e rest st; try exact H; try (apply IH; exact H).
  apply IH. cbn [s_events s_currentBytes].
  pose proof (events_size_snoc (s_events st) (view_of options e)). lia.
Qed.

End ScanLast.

Lemma events_size_nil : events_size [] = 2.
Proof. reflexivity. Qed.

(** X22. The text of the events that a read returns is within the byte
    cap of the read: [JSON.stringify] of the events has at most
    [effectiveMaxBytes] characters, unless the events are the warning of
    a stale cursor and nothing else. *)
Theorem read_events_within_byte_cap (now : string) (options : ReadOptions)
    (b : LogBuffer) :
  exists (startSeq : jsnum) (r : ReadResult),
    start_of (cursor options) = Returns startSeq /\
    read now options b = Returns (b, r) /\
    (events r = warning_of now startSeq b \/
     events_size (events r) <= effectiveMaxBytes options) /\
    (points_to_dropped startSeq b = false ->
     events_size (events r) <= effectiveMaxBytes options).
Proof.
  destruct (read_returns now options b) as (s & Hs & Hr).
  exists s, (read_from now options s b).
  split; [exact Hs|]. split; [exact Hr|].
  rewrite read_from_events.
  set (eff := effective_start s b). set (st0 := scan_start now s b).
  assert (Hsize : events_size (s_events (scan options eff (_events b) st0))
                  <= s_currentBytes (scan options eff (_events b) st0)).
  { apply scan_size. cbn [st0 scan_start s_events s_currentBytes]. lia. }
  destruct (scan_added options eff (_events b) st0) as (added & H1 & _ & _).
  assert (Hcase : s_events (scan options eff (_events b) st0) = warning_of now s b \/
                  events_size (s_events (scan options eff (_events b) st0))
                    <= effectiveMaxBytes options).
  { destruct added as [|a added'].
    - left. rewrite H1. cbn [map]. rewrite app_nil_r. reflexivity.
    - right.
      pose proof (scan_bytes_admitted options eff (_events b) st0) as Hb.
      assert (Hne : s_events (scan options eff (_events b) st0) <> s_events st0).
      { rewrite H1. intros Heq. apply (f_equal (@List.length _)) in Heq.
        rewrite length_app in Heq. cbn [map List.length] in Heq. lia. }
      specialize (Hb Hne). lia. }
  split; [exact Hcase|].
  intros Hp. destruct Hcase as [Hc|Hc]; [|exact Hc].
  rewrite Hc. unfold warning_of. rewrite Hp. rewrite events_size_nil.
  pose proof (effectiveMaxBytes_range options). lia.
Qed.

(** ** Filters on ascending events *)

Lemma ascending_filter f lo evs : ascending lo evs -> ascending lo (filter f evs).
Proof.
  revert lo. induction evs as [|e r IH]; intros lo Ha; [exact I|].
  destruct Ha as [Hlo Hr]. cbn [filter]. destruct (f e).
  - split; [exact Hlo|apply IH, Hr].
  - apply IH. eapply ascending_weaken; [|exact Hr]. lia.
Qed.

Lemma filter_all {A} (f : A -> bool) l :
  Forall (fun x => f x = true) l -> filter f l = l.
Proof.
  induction 1 as [|x r Hx _ IH]; [reflexivity|].
  cbn [filter]. rewrite Hx, IH. reflexivity.
Qed.

Lemma last_seq_ge a n evs :
  ascending a evs -> a <= last (map seq (firstn n evs)) a.
Proof.
  revert a evs. induction n as [|n IH]; intros a evs Ha.
  - cbn. lia.
  - destruct evs as [|e r]; [cbn; lia|].
    destruct Ha as [Hlo Hr]. cbn [firstn map]. rewrite last_cons_default.
    specialize (IH (seq e) r Hr). lia.
Qed.

(** On ascending events, the events after the last of the first [n]
    are the events but the first [n]. *)
Lemma filter_after_last a n evs :
  ascending a evs -> (n <= List.length evs)%nat ->
  filter (fun e => last (map seq (firstn n evs)) a <? seq e) evs = skipn n evs.
Proof.
  revert a evs. induction n as [|n IH]; intros a evs Ha Hn.
  - cbn [firstn map last skipn]. apply filter_all.
    apply Forall_forall. intros x Hx. apply Z.ltb_lt.
    exact (ascending_In _ _ _ Ha Hx).
  - destruct evs as [|e r]; [cbn in Hn; lia|].
    destruct Ha as [Hlo Hr]. cbn [firstn map skipn filter].
    rewrite last_cons_default.
    pose proof (last_seq_ge (seq e) n r Hr) as Hge.
    replace (last (map seq (firstn n r)) (seq e) <? seq e) with false
      by (symmetry; apply Z.ltb_ge; exact Hge).
    apply IH; [exact Hr|]. cbn [List.length] in Hn. lia.
Qed.

Lemma last_map_of_Z (l : list LogEvent) a :
  last (map (fun e => of_Z (seq e)) l) (of_Z a) = of_Z (last (map seq l) a).
Proof.
  revert a. induction l as [|e r IH]; intros a; [reflexivity|].
  cbn [map]. rewrite !last_cons_default. apply IH.
Qed.

Lemma candidate_split options a k e :
  a <= k ->
  candidate options (of_Z k) e = candidate options (of_Z a) e && (k <? seq e).
Proof.
  intros Hak. unfold candidate. rewrite !leb_of_Z.
  destruct (Z.leb_spec (seq e) k) as [H1|H1];
    destruct (Z.leb_spec (seq e) a) as [H2|H2];
    destruct (Z.ltb_spec k (seq e)) as [H3|H3]; try lia; cbn [negb andb];
    rewrite ?andb_false_r, ?andb_true_r; reflexivity.
Qed.

(** The candidates of a read from a later sequence are the candidates
    that come after it. *)
Lemma filter_candidate_later options a k evs :
  a <= k ->
  filter (candidate options (of_Z k)) evs =
  filter (fun e => k <? seq e) (filter (candidate options (of_Z a)) evs).
Proof.
  intros Hak. induction evs as [|e r IH]; [reflexivity|].
  cbn [filter]. rewrite (candidate_split options a k e Hak).
  destruct (candidate options (of_Z a) e); cbn [andb filter].
  - destruct (k <? seq e); rewrite IH; reflexivity.
  - exact IH.
Qed.

Lemma ascending_raise lo a evs :
  ascending lo evs -> Forall (fun e => a < seq e) evs -> ascending a evs.
Proof.
  destruct evs as [|e r]; [auto|]. intros [_ Hr] Hf.
  apply Forall_cons_iff in Hf. split; [apply Hf|exact Hr].
Qed.

Lemma last_In_or_default {A} (l : list A) d : last l d = d \/ In (last l d) l.
Proof.
  revert d. induction l as [|x r IH]; intros d; [left; reflexivity|].
  rewrite last_cons_default. destruct (IH x) as [H|H].
  - right. left. symmetry. exact H.
  - right. right. exact H.
Qed.

(** X23. Pages follow one another without a gap and without a repeat.
    After any calls of [append] and [clear] on a new buffer, a read that
    starts at a whole sequence number not above the sequence counter
    returns the first [n1] of the retained events that match it, and a
    read with the same options from the cursor it returned goes on with
    the events after these [n1], whatever the limit, the byte cap and
    the filters are. The sequence counter is below 2^53. *)
Theorem paging_is_seamless (config : ConfigArg) (ops : list op) (now1 now2 : string)
    (options : ReadOptions) (k0 : Z) :
  let b := fst (run_ops ops (new_LogBuffer config)) in
  currentSeq (stats b) < 2 ^ 53 ->
  start_of (cursor options) = Returns (of_Z k0) ->
  k0 <= currentSeq (stats b) ->
  let matching :=
    filter (candidate options (effective_start (of_Z k0) b)) (_events b) in
  exists (r1 r2 : ReadResult) (n1 n2 : nat),
    (n1 <= List.length matching)%nat /\
    read now1 options b = Returns (b, r1) /\
    read now2 (with_cursor (Some (r_cursor r1)) options) b = Returns (b, r2) /\
    events r1 =
      warning_of now1 (of_Z k0) b ++ map (view_of options) (firstn n1 matching) /\
    events r2 = map (view_of options) (firstn n2 (skipn n1 matching)).
Proof.
  intros b Hlt Hs Hk0 matching. unfold stats in *. cbn [currentSeq] in *.
  assert (Hb : reachable b) by apply run_ops_reachable, reach_new.
  pose proof (reachable_invariant b Hb) as I.
  pose proof (inv_earliest _ I) as He.
  pose proof (inv_last _ I) as Hl. rewrite Forall_forall in Hl.
  set (a := Z.max k0 (_earliestRetainedSeq b)).
  assert (Ha : effective_start (of_Z k0) b = of_Z a) by apply max_of_Z.
  unfold matching. rewrite Ha. clear matching.
  set (C := filter (candidate options (of_Z a)) (_events b)).
  assert (HC : ascending a C).
  { apply (ascending_raise (_earliestRetainedSeq b - 1)).
    - apply ascending_filter, (inv_ascending _ I).
    - apply Forall_forall. intros e Hin. apply filter_In in Hin.
      destruct Hin as [_ Hc]. exact (candidate_after _ _ _ Hc). }
  destruct (scan_prefix_last options (of_Z a) (_events b) (scan_start now1 (of_Z k0) b))
    as (n1 & Hn1 & E1 & L1).
  fold C in Hn1, E1, L1.
  set (k1 := last (map seq (firstn n1 C)) a).
  assert (L1' : s_lastSeq (scan options (of_Z a) (_events b)
                                (scan_start now1 (of_Z k0) b)) = of_Z k1).
  { rewrite L1. cbn [scan_start s_lastSeq]. rewrite Ha. apply last_map_of_Z. }
  assert (Hak : a <= k1) by apply (last_seq_ge a n1 C HC).
  assert (Hk1 : k1 <= _seq b).
  { unfold k1. destruct (last_In_or_default (map seq (firstn n1 C)) a) as [->|Hin];
      [lia|].
    apply in_map_iff in Hin. destruct Hin as (e & <- & Hin).
    assert (HinC : In e C).
    { rewrite <- (firstn_skipn n1 C). apply in_or_app. left. exact Hin. }
    apply filter_In in HinC. apply Hl, HinC. }
  set (r1 := read_from now1 options (of_Z k0) b).
  assert (Hc1 : r_cursor r1 = _encodeCursor (of_Z k1)).
  { unfold r1. rewrite read_from_cursor, Ha, L1'. reflexivity. }
  set (options' := with_cursor (Some (r_cursor r1)) options).
  assert (Hs2 : start_of (cursor options') = Returns (of_Z k1)).
  { cbn [options' with_cursor cursor]. rewrite start_of_some, Hc1.
    apply cursor_round_trip. pose proof pow_2_53_lt. lia. }
  assert (Hp2 : points_to_dropped (of_Z k1) b = false).
  { unfold points_to_dropped. rewrite !ltb_of_Z.
    replace (k1 <? _earliestRetainedSeq b) with false
      by (symmetry; apply Z.ltb_ge; lia).
    apply andb_false_r. }
  assert (Ha2 : effective_start (of_Z k1) b = of_Z k1).
  { unfold effective_start. rewrite max_of_Z. f_equal. lia. }
  destruct (scan_prefix options' (of_Z k1) (_events b) (scan_start now2 (of_Z k1) b))
    as (n2 & E2).
  exists r1, (read_from now2 options' (of_Z k1) b), n1, n2.
  split; [exact Hn1|].
  split; [apply read_start; exact Hs|].
  split; [apply read_start; exact Hs2|].
  split.
  - unfold r1. rewrite read_from_events, Ha, E1. reflexivity.
  - rewrite read_from_events, Ha2, E2.
    cbn [scan_start s_events]. rewrite Hp2. cbn [app].
    change (candidate options' (of_Z k1)) with (candidate options (of_Z k1)).
    change (view_of options') with (view_of options).
    rewrite (filter_candidate_later options a k1 (_events b) Hak). fold C.
    unfold k1. rewrite (filter_after_last a n1 C HC Hn1). reflexivity.
Qed.

Lemma paging_is_seamless_witness :
  let b := PagingExamples.eleven in
  let options := page None 5 in
  let matching := filter (candidate options (effective_start (of_Z 0) b)) (_events b) in
  exists (r1 r2 : ReadResult) (n1 n2 : nat),
    (n1 <= List.length matching)%nat /\
    read Examples.T0 options b = Returns (b, r1) /\
    read Examples.T0 (with_cursor (Some (r_cursor r1)) options) b = Returns (b, r2) /\
    events r1 =
      warning_of Examples.T0 (of_Z 0) b ++ map (view_of options) (firstn n1 matching) /\
    events r2 = map (view_of options) (firstn n2 (skipn n1 matching)).
Proof.
  apply (paging_is_seamless no_config (Examples.messages 0 11) Examples.T0 Examples.T0
           (page None 5) 0).
  - vm_compute. reflexivity.
  - reflexivity.
  - vm_compute. discriminate.
Defined.
(** ** The summary of a run of tests *)


(** A repetition whose continuation refuses every text that begins
    with a character of the class takes the whole run. *)
Lemma star_greedy p k s :
  (forall c r, p c = true -> k (String c r) = None) ->
  star p k s = k (TestRun.dropWhile p s).
Proof.
  intros Hk. induction s as [|c r IH]; [reflexivity|].
  cbn [star TestRun.dropWhile]. destruct (p c) eqn:Hp; [|reflexivity].
  rewrite IH. destruct (k (TestRun.dropWhile p r)) eqn:E; [reflexivity|].
  apply Hk, Hp.
Qed.

Lemma chars_match w s :
  rmatch (TestRun.chars w) Some s =
  if Str.startsWith w s then Some (Str.drop (String.length w) s) else None.
Proof.
  revert s. induction w as [|c w IH]; intros s.
  - destruct s; reflexivity.
  - destruct s as [|d s]; [reflexivity|].
    cbn [TestRun.chars rmatch Str.startsWith String.length Str.drop].
    destruct (Ascii.eqb c d); [apply IH|reflexivity].
Qed.

Lemma digit_not_space c : Str.is_digit c = true -> Str.is_space c = false.
Proof.
  unfold Str.is_digit, Str.is_space, Str.between. intros H.
  apply andb_true_iff in H. destruct H as [H1 H2].
  apply N.leb_le in H1, H2.
  apply orb_false_iff. split; [apply orb_false_iff; split|].
  - apply andb_false_iff. right. apply N.leb_gt. lia.
  - apply N.eqb_neq. lia.
  - apply N.eqb_neq. lia.
Qed.

(** A match of the pattern at the start of a text takes the whole run
    of digits, then the whole run of white space, when the word begins
    with a character that is not white space. *)
Lemma group_at_spec w0 w s :
  Str.is_space w0 = false ->
  TestRun.group_at (String w0 w) s =
  match s with
  | String c r =>
      if Str.is_digit c
         && TestRun.after_digits (String w0 w) (TestRun.dropWhile Str.is_digit r)
      then Some (Str.take (String.length s
                           - String.length (TestRun.dropWhile Str.is_digit r)) s)
      else None
  | EmptyString => None
  end.
Proof.
  intros Hw. unfold TestRun.group_at.
  set (K := fun rest : string =>
              match rmatch (Seq (Plus Str.is_space) (TestRun.chars (String w0 w)))
                           Some rest with
              | Some _ => Some rest
              | None => None
              end).
  assert (HK : forall t, K t = if TestRun.after_digits (String w0 w) t then Some t else None).
  { intros t. unfold K, TestRun.after_digits, Plus.
    destruct t as [|c r]; [reflexivity|].
    cbn [rmatch]. destruct (Str.is_space c); [|reflexivity]. cbn [andb].
    rewrite star_greedy.
    - change (rmatch (Seq (Cls (Ascii.eqb w0)) (TestRun.chars w)) Some
                     (TestRun.dropWhile Str.is_space r))
        with (rmatch (TestRun.chars (String w0 w)) Some
                     (TestRun.dropWhile Str.is_space r)).
      rewrite chars_match.
      destruct (Str.startsWith (String w0 w) (TestRun.dropWhile Str.is_space r));
        reflexivity.
    - intros c' r' Hc'. cbn [rmatch TestRun.chars].
      destruct (Ascii.eqb w0 c') eqn:E; [|reflexivity].
      apply Ascii.eqb_eq in E. subst c'. congruence. }
  destruct s as [|c r]; [reflexivity|].
  unfold Plus. cbn [rmatch]. destruct (Str.is_digit c) eqn:Hc; [|reflexivity].
  cbn [andb]. rewrite star_greedy.
  - rewrite HK.
    destruct (TestRun.after_digits (String w0 w) (TestRun.dropWhile Str.is_digit r));
      reflexivity.
  - intros c' r' Hc'. rewrite HK. unfold TestRun.after_digits.
    rewrite (digit_not_space c' Hc'). reflexivity.
Qed.

Lemma string_length_app a b :
  String.length (a ++ b) = (String.length a + String.length b)%nat.
Proof.
  induction a as [|c a IH]; [reflexivity|].
  cbn [String.append String.length]. rewrite IH. reflexivity.
Qed.

Lemma take_app_length a b :
  Str.take (String.length (a ++ b) - String.length b) (a ++ b) = a.
Proof.
  rewrite string_length_app.
  replace (String.length a + String.length b - String.length b)%nat
    with (String.length a) by lia.
  induction a as [|c a IH]; [destruct b; reflexivity|].
  cbn [String.append String.length Str.take]. rewrite IH. reflexivity.
Qed.

Lemma dropWhile_all p a t :
  TestRun.all p a = true -> TestRun.dropWhile p (a ++ t) = TestRun.dropWhile p t.
Proof.
  induction a as [|c a IH]; [reflexivity|].
  cbn [TestRun.all String.append TestRun.dropWhile]. intros H.
  apply andb_true_iff in H. destruct H as [-> H]. apply IH, H.
Qed.

Lemma dropWhile_stop p c r : p c = false -> TestRun.dropWhile p (String c r) = String c r.
Proof. intros H. cbn [TestRun.dropWhile]. rewrite H. reflexivity. Qed.

(** A text that is not made of characters of the class only: the run
    of the class at its start, then a character that is not of the
    class, and that character is still there when more text follows. *)
Lemma dropWhile_not_all p a t :
  TestRun.all p a = false ->
  exists pre x r,
    a = (pre ++ String x r)%string /\ p x = false /\
    TestRun.dropWhile p (a ++ t) = String x (r ++ t).
Proof.
  induction a as [|c a IH]; [discriminate|].
  cbn [TestRun.all]. intros H. destruct (p c) eqn:Hp.
  - cbn [andb] in H. destruct (IH H) as (pre & x & r & -> & Hx & Hd).
    exists (String c pre), x, r. repeat split; [exact Hx|].
    cbn [String.append TestRun.dropWhile]. rewrite Hp. exact Hd.
  - exists EmptyString, c, a. repeat split; [exact Hp|].
    cbn [String.append TestRun.dropWhile]. rewrite Hp. reflexivity.
Qed.

Lemma all_digits_end s :
  TestRun.all Str.is_digit s = true -> s <> EmptyString ->
  TestRun.ends_without_digit s = false.
Proof.
  induction s as [|c r IH]; [congruence|].
  cbn [TestRun.all]. intros H _. apply andb_true_iff in H. destruct H as [Hc Hr].
  destruct r as [|d r'].
  - cbn. rewrite Hc. reflexivity.
  - change (TestRun.ends_without_digit (String c (String d r')))
      with (TestRun.ends_without_digit (String d r')).
    apply IH; [exact Hr|discriminate].
Qed.

Lemma ends_without_digit_app a b :
  b <> EmptyString ->
  TestRun.ends_without_digit (a ++ b) = TestRun.ends_without_digit b.
Proof.
  intros Hb. induction a as [|c a IH]; [reflexivity|].
  cbn [String.append]. destruct (a ++ b)%string as [|d r] eqn:E.
  - destruct a; [cbn in E; congruence|discriminate].
  - change (TestRun.ends_without_digit (String c (String d r)))
      with (TestRun.ends_without_digit (String d r)).
    exact IH.
Qed.

Lemma includes_app_r w q u :
  Str.startsWith w u = true -> Str.includes w (q ++ u) = true.
Proof.
  intros H. induction q as [|c q IH].
  - destruct u; cbn [String.append Str.includes]; rewrite H; reflexivity.
  - cbn [String.append Str.includes]. rewrite IH. apply orb_true_r.
Qed.

Lemma includes_tail w c r : Str.includes w (String c r) = false -> Str.includes w r = false.
Proof.
  cbn [Str.includes]. intros H. apply orb_false_iff in H. apply H.
Qed.

Lemma startsWith_refl_app w t : Str.startsWith w (w ++ t) = true.
Proof.
  induction w as [|c w IH]; [destruct t; reflexivity|].
  cbn [String.append Str.startsWith]. rewrite Ascii.eqb_refl. exact IH.
Qed.

(** A word at the start of two joined texts lies in the first, or it
    goes on into the second. *)
Lemma startsWith_app w u t :
  Str.startsWith w (u ++ t) = true ->
  Str.startsWith w u = true \/
  exists v c v', w = (u ++ String c v')%string /\ v = String c v' /\
                 Str.startsWith v t = true.
Proof.
  revert w. induction u as [|d u IH]; intros w H.
  - destruct w as [|c w'].
    + left. reflexivity.
    + right. exists (String c w'), c, w'. cbn [String.append] in *. auto.
  - destruct w as [|c w']; [left; reflexivity|].
    cbn [String.append Str.startsWith] in H |- *.
    apply andb_true_iff in H. destruct H as [Hc H].
    rewrite Hc. cbn [andb].
    destruct (IH w' H) as [Hl|(v & c' & v' & -> & -> & Hv)]; [left; exact Hl|].
    right. exists (String c' v'), c', v'.
    apply Ascii.eqb_eq in Hc. subst d. auto.
Qed.

Lemma all_app p a b : TestRun.all p (a ++ b) = TestRun.all p a && TestRun.all p b.
Proof.
  induction a as [|c a IH]; [reflexivity|].
  cbn [String.append TestRun.all]. rewrite IH, andb_assoc. reflexivity.
Qed.

(** No match starts in a text that does not hold the word and does not
    end with a digit, when a digit follows the text and the word has no
    digit in it and no white space at its start. *)
Lemma group_at_prefix_none w0 w ps d t :
  Str.is_space w0 = false ->
  TestRun.all TestRun.not_digit (String w0 w) = true ->
  TestRun.ends_without_digit ps = true ->
  Str.includes (String w0 w) ps = false ->
  Str.is_digit d = true ->
  ps <> EmptyString ->
  TestRun.group_at (String w0 w) (ps ++ String d t) = None.
Proof.
  intros Hw Hnd Hend Hinc Hd Hne.
  rewrite group_at_spec by exact Hw.
  destruct ps as [|c ps']; [congruence|]. cbn [String.append].
  destruct (Str.is_digit c) eqn:Hc; [|reflexivity]. cbn [andb].
  assert (Hall : TestRun.all Str.is_digit ps' = false).
  { destruct (TestRun.all Str.is_digit ps') eqn:E; [|reflexivity].
    assert (Hx : TestRun.ends_without_digit (String c ps') = false).
    { apply all_digits_end; [|discriminate]. cbn [TestRun.all]. rewrite Hc, E.
      reflexivity. }
    congruence. }
  destruct (dropWhile_not_all Str.is_digit ps' (String d t) Hall)
    as (pre1 & x & r1 & E1 & Hx & ->).
  replace (TestRun.after_digits (String w0 w) (String x (r1 ++ String d t))) with false;
    [reflexivity|].
  symmetry. unfold TestRun.after_digits.
  destruct (Str.is_space x) eqn:Hsx; [|reflexivity]. cbn [andb].
  destruct (TestRun.all Str.is_space r1) eqn:Hr1.
  - rewrite dropWhile_all by exact Hr1.
    rewrite dropWhile_stop by (apply digit_not_space, Hd).
    cbn [Str.startsWith].
    destruct (Ascii.eqb w0 d) eqn:E; [|reflexivity].
    apply Ascii.eqb_eq in E. subst d. cbn [TestRun.all] in Hnd.
    unfold TestRun.not_digit at 1 in Hnd. rewrite Hd in Hnd. discriminate.
  - destruct (dropWhile_not_all Str.is_space r1 (String d t) Hr1)
      as (pre2 & y & r2 & E2 & Hy & ->).
    destruct (Str.startsWith (String w0 w) (String y (r2 ++ String d t))) eqn:S;
      [exfalso|reflexivity].
    change (String y (r2 ++ String d t)) with (String y r2 ++ String d t)%string in S.
    apply startsWith_app in S. destruct S as [S|(v & c' & v' & Ew & -> & Sv)].
    + assert (Hin : Str.includes (String w0 w) (String c ps') = true).
      { rewrite E1, E2.
        change (String c (pre1 ++ String x (pre2 ++ String y r2)))
          with (String c pre1 ++ String x (pre2 ++ String y r2))%string.
        change (String x (pre2 ++ String y r2))
          with (String x pre2 ++ String y r2)%string.
        rewrite <- string_app_assoc. apply includes_app_r, S. }
      congruence.
    + cbn [Str.startsWith] in Sv. apply andb_true_iff in Sv. destruct Sv as [Sc _].
      apply Ascii.eqb_eq in Sc. subst c'.
      rewrite Ew, all_app in Hnd. apply andb_true_iff in Hnd. destruct Hnd as [_ Hnd].
      cbn [TestRun.all] in Hnd. unfold TestRun.not_digit at 1 in Hnd.
      rewrite Hd in Hnd. discriminate.
Qed.

Lemma match_group_skip w0 w pre d t :
  Str.is_space w0 = false ->
  TestRun.all TestRun.not_digit (String w0 w) = true ->
  TestRun.ends_without_digit pre = true ->
  Str.includes (String w0 w) pre = false ->
  Str.is_digit d = true ->
  TestRun.match_group (String w0 w) (pre ++ String d t) =
  TestRun.match_group (String w0 w) (String d t).
Proof.
  intros Hw Hnd Hend Hinc Hd. induction pre as [|c pre IH]; [reflexivity|].
  change (String c pre ++ String d t)%string with (String c (pre ++ String d t)).
  cbn [TestRun.match_group].
  change (String c (pre ++ String d t)) with (String c pre ++ String d t)%string.
  rewrite (group_at_prefix_none w0 w (String c pre) d t) by (auto; discriminate).
  apply IH.
  - destruct pre as [|c' pre']; [reflexivity|exact Hend].
  - apply (includes_tail _ c), Hinc.
Qed.

Lemma space_not_digit c : Str.is_space c = true -> Str.is_digit c = false.
Proof.
  intros H. destruct (Str.is_digit c) eqn:E; [|reflexivity].
  apply digit_not_space in E. congruence.
Qed.

(** The match at a count: digits, white space, the word. *)
Lemma group_at_here w0 w c g s ws post :
  Str.is_space w0 = false ->
  Str.is_digit c = true -> TestRun.all Str.is_digit g = true ->
  Str.is_space s = true -> TestRun.all Str.is_space ws = true ->
  TestRun.group_at (String w0 w)
    (String c g ++ String s ws ++ String w0 w ++ post) = Some (String c g).
Proof.
  intros Hw Hc Hg Hs Hws. rewrite group_at_spec by exact Hw.
  cbn [String.append]. rewrite Hc. cbn [andb].
  rewrite dropWhile_all by exact Hg.
  rewrite dropWhile_stop by (apply space_not_digit, Hs).
  unfold TestRun.after_digits. rewrite Hs. cbn [andb].
  rewrite dropWhile_all by exact Hws.
  change (String w0 w ++ post)%string with (String w0 (w ++ post)).
  rewrite dropWhile_stop by exact Hw.
  change (String w0 (w ++ post)) with (String w0 w ++ post)%string.
  rewrite startsWith_refl_app. f_equal.
  change (String c (g ++ String s (ws ++ String w0 w ++ post)))
    with (String c g ++ String s (ws ++ String w0 w ++ post))%string.
  apply take_app_length.
Qed.

Lemma leading_digits_all g :
  TestRun.all Str.is_digit g = true -> TestRun.leading_digits g = g.
Proof.
  induction g as [|c g IH]; [reflexivity|].
  cbn [TestRun.all TestRun.leading_digits]. intros H.
  apply andb_true_iff in H. destruct H as [-> H]. rewrite IH by exact H. reflexivity.
Qed.

Lemma parseInt_digits c g :
  Str.is_digit c = true -> TestRun.all Str.is_digit g = true ->
  TestRun.parseInt (String c g) = TestRun.nearest_double (dval 0 (String c g)).
Proof.
  intros Hc Hg. unfold TestRun.parseInt.
  assert (Ht : Str.trimStart (String c g) = String c g).
  { cbn [Str.trimStart]. rewrite (digit_not_space c Hc). reflexivity. }
  rewrite Ht.
  assert (Hm : c <> "-"%char /\ c <> "+"%char).
  { split; intros ->; discriminate. }
  destruct Hm as [Hm Hp].
  assert (Hl : TestRun.leading_digits (String c g) = String c g).
  { apply leading_digits_all. cbn [TestRun.all]. rewrite Hc, Hg. reflexivity. }
  destruct (Ascii.eqb_spec c "-") as [->|_]; [congruence|].
  destruct (Ascii.eqb_spec c "+") as [->|_]; [congruence|].
  assert (E : (match String c g with String "-" _ => -1 | _ => 1 end) = 1
              /\ (match String c g with
                  | String "-" r => r | String "+" r => r | _ => String c g end)
                 = String c g).
  { destruct c as [[] [] [] [] [] [] [] []]; try (split; reflexivity);
      exfalso; (apply Hm; reflexivity) || (apply Hp; reflexivity). }
  destruct E as [E1 E2]. rewrite E1, E2, Hl. f_equal. lia.
Qed.

Lemma dropWhile_length p r :
  (String.length (TestRun.dropWhile p r) <= String.length r)%nat.
Proof.
  induction r as [|c r IH]; [reflexivity|].
  cbn [TestRun.dropWhile]. destruct (p c); cbn [String.length]; lia.
Qed.

Lemma take_run p r :
  TestRun.all p
    (Str.take (String.length r - String.length (TestRun.dropWhile p r)) r) = true.
Proof.
  induction r as [|c r IH]; [reflexivity|].
  cbn [TestRun.dropWhile]. destruct (p c) eqn:Hp.
  - pose proof (dropWhile_length p r) as Hl.
    replace (String.length (String c r) - String.length (TestRun.dropWhile p r))%nat
      with (S (String.length r - String.length (TestRun.dropWhile p r)))
      by (cbn [String.length]; lia).
    cbn [Str.take TestRun.all]. rewrite Hp, IH. reflexivity.
  - rewrite Nat.sub_diag. reflexivity.
Qed.

Lemma take_cons_run p c r :
  Str.take (String.length (String c r) - String.length (TestRun.dropWhile p r))
           (String c r) =
  String c (Str.take (String.length r - String.length (TestRun.dropWhile p r)) r).
Proof.
  pose proof (dropWhile_length p r) as Hl.
  replace (String.length (String c r) - String.length (TestRun.dropWhile p r))%nat
    with (S (String.length r - String.length (TestRun.dropWhile p r)))
    by (cbn [String.length]; lia).
  reflexivity.
Qed.

(** The first group of a match is a digit and digits after it. *)
Lemma group_at_digits w0 w s g :
  Str.is_space w0 = false ->
  TestRun.group_at (String w0 w) s = Some g ->
  exists c g', g = String c g' /\ Str.is_digit c = true /\
               TestRun.all Str.is_digit g' = true.
Proof.
  intros Hw. rewrite group_at_spec by exact Hw.
  destruct s as [|c r]; [discriminate|]. rewrite take_cons_run.
  destruct (Str.is_digit c) eqn:Hc; [|discriminate].
  destruct (TestRun.after_digits _ _); [|discriminate].
  intros H. injection H as <-.
  eexists _, _. split; [reflexivity|]. split; [exact Hc|].
  apply take_run.
Qed.

Lemma match_group_digits w0 w s g :
  Str.is_space w0 = false ->
  TestRun.match_group (String w0 w) s = Some g ->
  exists c g', g = String c g' /\ Str.is_digit c = true /\
               TestRun.all Str.is_digit g' = true.
Proof.
  intros Hw. induction s as [|c r IH]; cbn [TestRun.match_group].
  - destruct (TestRun.group_at (String w0 w) EmptyString) eqn:E; [|discriminate].
    intros H. injection H as <-. exact (group_at_digits _ _ _ _ Hw E).
  - destruct (TestRun.group_at (String w0 w) (String c r)) eqn:E; [|exact IH].
    intros H. injection H as <-. exact (group_at_digits _ _ _ _ Hw E).
Qed.

Lemma all_is_digit s : TestRun.all Str.is_digit s = all_digits s.
Proof.
  induction s as [|c r IH]; [reflexivity|].
  cbn [TestRun.all all_digits]. rewrite IH. reflexivity.
Qed.

Lemma nearest_double_exact n :
  - 2 ^ 53 <= n <= 2 ^ 53 -> TestRun.nearest_double n = TestRun.Int n.
Proof.
  intros H.
  assert (C : Z.abs n < 2 ^ 53 \/ n = 2 ^ 53 \/ n = - 2 ^ 53) by lia.
  destruct C as [C|[->| ->]]; [|vm_compute; reflexivity|vm_compute; reflexivity].
  unfold TestRun.nearest_double. cbn zeta.
  destruct (Z.ltb_spec (Z.abs n) (2 ^ 53)); [reflexivity|lia].
Qed.

Lemma nearest_double_not_negative n :
  0 <= n -> TestRun.not_negative (TestRun.nearest_double n) = true.
Proof.
  intros H. unfold TestRun.nearest_double. cbn zeta.
  destruct (Z.abs n <? 2 ^ 53); [apply Z.leb_le; exact H|].
  match goal with |- context [2 ^ 1024 <=? ?m] => set (m' := m) end.
  assert (Hm : 0 <= m').
  { unfold m'. apply Z.mul_nonneg_nonneg; [|apply Z.pow_nonneg; lia].
    assert (0 <= Z.abs n / 2 ^ (Z.log2 (Z.abs n) - 52)).
    { apply Z_div_nonneg_nonneg; [lia|apply Z.pow_nonneg; lia]. }
    destruct (_ || _); lia. }
  destruct (2 ^ 1024 <=? m'); cbn [TestRun.not_negative].
  - apply negb_true_iff, Z.ltb_ge. exact H.
  - apply Z.leb_le. apply Z.mul_nonneg_nonneg; [|exact Hm].
    apply Z.sgn_nonneg. exact H.
Qed.

Lemma plus_not_negative x y :
  TestRun.not_negative x = true -> TestRun.not_negative y = true ->
  TestRun.not_negative (TestRun.plus x y) = true.
Proof.
  destruct x as [|a|[]], y as [|b|[]]; cbn [TestRun.not_negative TestRun.plus negb Bool.eqb];
    try discriminate; try reflexivity.
  intros Ha Hb. apply Z.leb_le in Ha, Hb. apply nearest_double_not_negative. lia.
Qed.

(** The count of a match is the double nearest to the number that the
    digits of the match denote, which is not negative. *)
Lemma count_of_match w0 w s :
  Str.is_space w0 = false ->
  0 <= TestRun.digits_value (TestRun.match_group (String w0 w) s) /\
  match TestRun.match_group (String w0 w) s with
  | Some g => TestRun.parseInt g
  | None => TestRun.Int 0
  end = TestRun.nearest_double
          (TestRun.digits_value (TestRun.match_group (String w0 w) s)).
Proof.
  intros Hw. destruct (TestRun.match_group (String w0 w) s) as [g|] eqn:E;
    cbn [TestRun.digits_value].
  - destruct (match_group_digits _ _ _ _ Hw E) as (c & g' & -> & Hc & Hg).
    split; [|apply parseInt_digits; assumption].
    pose proof (dval_lower 0 (String c g') ltac:(lia)) as H.
    rewrite <- all_is_digit in H. cbn [TestRun.all] in H. rewrite Hc, Hg in H.
    specialize (H eq_refl). lia.
  - split; [lia|reflexivity].
Qed.

(** X24. [parseTestResults] returns null exactly when the output holds
    no count of passed, failed or skipped tests. Otherwise each of its
    counts is the double nearest to the number that the digits of the
    first match denote, 0 when there is none; no count is [NaN] and none
    is negative, and neither is [total]. When the three numbers add up
    to 2^53 at most, the counts are these numbers and [total] is their
    sum. *)
Theorem parseTestResults_counts (output : string) :
  let p := TestRun.digits_value (TestRun.match_group "passed" output) in
  let f := TestRun.digits_value (TestRun.match_group "failed" output) in
  let s := TestRun.digits_value (TestRun.match_group "skipped" output) in
  match TestRun.parseTestResults output with
  | Some r =>
      (TestRun.match_group "passed" output <> None \/
       TestRun.match_group "failed" output <> None \/
       TestRun.match_group "skipped" output <> None) /\
      0 <= p /\ 0 <= f /\ 0 <= s /\
      TestRun.passed r = TestRun.nearest_double p /\
      TestRun.failed r = TestRun.nearest_double f /\
      TestRun.skipped r = TestRun.nearest_double s /\
      TestRun.total r =
        TestRun.plus (TestRun.plus (TestRun.passed r) (TestRun.failed r))
                     (TestRun.skipped r) /\
      TestRun.not_negative (TestRun.total r) = true /\
      (p + f + s <= 2 ^ 53 ->
       TestRun.passed r = TestRun.Int p /\
       TestRun.failed r = TestRun.Int f /\
       TestRun.skipped r = TestRun.Int s /\
       TestRun.total r = TestRun.Int (p + f + s))
  | None =>
      TestRun.match_group "passed" output = None /\
      TestRun.match_group "failed" output = None /\
      TestRun.match_group "skipped" output = None
  end.
Proof.
  intros p f s.
  destruct (count_of_match "p" "assed" output eq_refl) as (Hp & Ep).
  destruct (count_of_match "f" "ailed" output eq_refl) as (Hf & Ef).
  destruct (count_of_match "s" "kipped" output eq_refl) as (Hs & Es).
  fold p in Hp, Ep. fold f in Hf, Ef. fold s in Hs, Es.
  unfold TestRun.parseTestResults. cbn zeta. rewrite Ep, Ef, Es.
  assert (Hr : forall r,
            r = TestRun.mkResults (TestRun.nearest_double p) (TestRun.nearest_double f)
                  (TestRun.nearest_double s)
                  (TestRun.plus (TestRun.plus (TestRun.nearest_double p)
                                              (TestRun.nearest_double f))
                                (TestRun.nearest_double s)) ->
            0 <= p /\ 0 <= f /\ 0 <= s /\
            TestRun.passed r = TestRun.nearest_double p /\
            TestRun.failed r = TestRun.nearest_double f /\
            TestRun.skipped r = TestRun.nearest_double s /\
            TestRun.total r =
              TestRun.plus (TestRun.plus (TestRun.passed r) (TestRun.failed r))
                           (TestRun.skipped r) /\
            TestRun.not_negative (TestRun.total r) = true /\
            (p + f + s <= 2 ^ 53 ->
             TestRun.passed r = TestRun.Int p /\
             TestRun.failed r = TestRun.Int f /\
             TestRun.skipped r = TestRun.Int s /\
             TestRun.total r = TestRun.Int (p + f + s))).
  { intros r ->.
    cbn [TestRun.passed TestRun.failed TestRun.skipped TestRun.total].
    repeat (split; [assumption || reflexivity|]). split.
    - repeat apply plus_not_negative; apply nearest_double_not_negative; assumption.
    - intros Hb. rewrite !nearest_double_exact by lia.
      cbn [TestRun.plus]. rewrite (nearest_double_exact (p + f)) by lia.
      cbn [TestRun.plus]. rewrite nearest_double_exact by lia.
      repeat split. }
  destruct (TestRun.match_group "passed" output) as [gp|];
    destruct (TestRun.match_group "failed" output) as [gf|];
    destruct (TestRun.match_group "skipped" output) as [gs|];
    try (split; [first [ left; discriminate | right; left; discriminate
                       | right; right; discriminate ]
                | apply Hr; reflexivity ]).
  repeat split.
Qed.

(** X25. [parseTestResults] reads a count off the digits before the
    first place where the word stands after digits and white space:
    when the output is a text that does not hold the word and does not
    end with a digit, then digits, white space and the word, the count
    of that word is the double nearest to the number the digits stand
    for, and is that number when it is 2^53 at most. *)
Theorem parseTestResults_reads_count (pre g ws post word : string)
    (field : TestRun.Results -> TestRun.number) :
  In (word, field)
     [("passed"%string, TestRun.passed); ("failed"%string, TestRun.failed);
      ("skipped"%string, TestRun.skipped)] ->
  g <> EmptyString -> TestRun.all Str.is_digit g = true ->
  ws <> EmptyString -> TestRun.all Str.is_space ws = true ->
  TestRun.ends_without_digit pre = true ->
  Str.includes word pre = false ->
  exists r,
    TestRun.parseTestResults (pre ++ g ++ ws ++ word ++ post) = Some r /\
    field r = TestRun.nearest_double (dval 0 g) /\
    (dval 0 g <= 2 ^ 53 -> field r = TestRun.Int (dval 0 g)).
Proof.
  intros Hin Hg Hgd Hws Hwsd Hend Hinc.
  destruct g as [|c g]; [congruence|]. destruct ws as [|s ws]; [congruence|].
  cbn [TestRun.all] in Hgd, Hwsd.
  apply andb_true_iff in Hgd, Hwsd. destruct Hgd as [Hc Hgd]. destruct Hwsd as [Hs Hwsd].
  set (output := (pre ++ String c g ++ String s ws ++ word ++ post)%string).
  assert (Hm : forall w0 w, word = String w0 w ->
                 Str.is_space w0 = false ->
                 TestRun.all TestRun.not_digit (String w0 w) = true ->
                 TestRun.match_group word output = Some (String c g)).
  { intros w0 w -> Hw Hnd. unfold output.
    change (String c g ++ String s ws ++ String w0 w ++ post)%string
      with (String c (g ++ String s ws ++ String w0 w ++ post)).
    rewrite match_group_skip by assumption.
    cbn [TestRun.match_group].
    change (String c (g ++ String s ws ++ String w0 w ++ post))
      with (String c g ++ String s ws ++ String w0 w ++ post)%string.
    rewrite group_at_here by assumption. reflexivity. }
  pose proof (parseInt_digits c g Hc Hgd) as Hp.
  assert (Hlow : 0 <= dval 0 (String c g)).
  { pose proof (dval_lower 0 (String c g) ltac:(lia)) as H.
    rewrite <- all_is_digit in H. cbn [TestRun.all] in H. rewrite Hc, Hgd in H.
    specialize (H eq_refl). lia. }
  assert (Hb : forall x, x = TestRun.parseInt (String c g) ->
            x = TestRun.nearest_double (dval 0 (String c g)) /\
            (dval 0 (String c g) <= 2 ^ 53 -> x = TestRun.Int (dval 0 (String c g)))).
  { intros x ->. split; [exact Hp|]. intros Hle. rewrite Hp.
    apply nearest_double_exact. lia. }
  unfold TestRun.parseTestResults. cbn zeta. fold output.
  cbn [In] in Hin. destruct Hin as [Hin|[Hin|[Hin|[]]]]; injection Hin as <- <-.
  - rewrite (Hm "p"%char "assed"%string eq_refl eq_refl eq_refl).
    eexists. split; [reflexivity|]. cbn [TestRun.passed]. apply Hb. reflexivity.
  - rewrite (Hm "f"%char "ailed"%string eq_refl eq_refl eq_refl).
    destruct (TestRun.match_group "passed" output);
      (eexists; split; [reflexivity|]; cbn [TestRun.failed]; apply Hb; reflexivity).
  - rewrite (Hm "s"%char "kipped"%string eq_refl eq_refl eq_refl).
    destruct (TestRun.match_group "passed" output);
      destruct (TestRun.match_group "failed" output);
      (eexists; split; [reflexivity|]; cbn [TestRun.skipped]; apply Hb; reflexivity).
Qed.

Lemma parseTestResults_reads_count_witness :
  exists r,
    TestRun.parseTestResults TestRun.summary = Some r /\
    TestRun.passed r = TestRun.Int 3.
Proof.
  destruct (parseTestResults_reads_count
              ("Running 6 tests using 2 workers" ++ Str.nl
               ++ "  1 failed" ++ Str.nl ++ "  2 skipped" ++ Str.nl ++ "  ")
              "3" " " (" (4.2s)" ++ Str.nl) "passed" TestRun.passed
              (or_introl eq_refl)
              ltac:(discriminate) eq_refl ltac:(discriminate) eq_refl eq_refl eq_refl)
    as (r & Hr & _ & Hc).
  exists r. split; [exact Hr|]. apply Hc. discriminate.
Defined.

(** A count that has more digits than a double holds: the count is
    rounded, and the sum is not the sum of the numbers. *)
Example parseTestResults_rounds :
  TestRun.parseTestResults "9007199254740993 passed 1 failed" =
    Some (TestRun.mkResults (TestRun.Int 9007199254740992) (TestRun.Int 1)
            (TestRun.Int 0) (TestRun.Int 9007199254740992)).
Proof. vm_compute. reflexivity. Qed.

(** ** The text before a stack trace *)

(** X26. [_truncateStackTrace] leaves the text before the stack trace
    as it is: when line [k] of a message is the first that looks like a
    stack frame, the first [k] lines of the result are the first [k]
    lines of the message, however many they are. *)
Theorem truncation_keeps_text_before_stack (msg : string) (k : nat) :
  let lines := Str.split Str.newline msg in
  first_frame lines k ->
  firstn k (Str.split Str.newline (_truncateStackTrace msg)) = firstn k lines.
Proof.
  intros lines Hk. pose proof Hk as [Hlt _].
  apply find_frame_first in Hk.
  unfold _truncateStackTrace. fold lines.
  destruct (zlength lines <=? MAX_STACK_LINES); [reflexivity|].
  rewrite Hk.
  destruct (zlength (skipn k lines) <=? MAX_STACK_LINES - zlength (firstn k lines));
    [reflexivity|].
  pose proof (split_lines_no_nl msg) as Hnl. fold lines in Hnl.
  rewrite split_join.
  - rewrite firstn_app, firstn_firstn, Nat.min_id, length_firstn.
    replace (k - Nat.min k (List.length lines))%nat with O by lia.
    cbn [firstn]. apply app_nil_r.
  - destruct (firstn k lines); [destruct (slice0 _ _)|]; discriminate.
  - apply Forall_app. split; [apply Forall_firstn, Hnl|].
    apply Forall_app. split.
    + unfold slice0. apply Forall_firstn, Forall_skipn, Hnl.
    + constructor; [|constructor]. apply frames_trailer_no_nl.
Qed.

Lemma truncation_keeps_text_before_stack_witness :
  firstn 41 (Str.split Str.newline (_truncateStackTrace TruncateExamples.late_stack))
  = List.repeat "m"%string 41.
Proof.
  assert (H : first_frame (Str.split Str.newline TruncateExamples.late_stack) 41).
  { apply find_frame_first. vm_compute. reflexivity. }
  rewrite (truncation_keeps_text_before_stack TruncateExamples.late_stack 41 H).
  vm_compute. reflexivity.
Defined.

(** ** Texts the sanitiser leaves alone *)

Lemma has_quote_app a b : has_quote b = true -> has_quote (a ++ b) = true.
Proof.
  intros H. induction a as [|c a IH]; [exact H|].
  cbn [String.append has_quote]. rewrite IH. apply orb_true_r.
Qed.

Lemma lit_suffix l s s' : lit l s = Some s' -> exists pre, s = (pre ++ s')%string.
Proof.
  revert s. induction l as [|a l IH]; intros s H.
  - cbn [lit] in H. injection H as <-. exists EmptyString. reflexivity.
  - destruct s as [|b s]; [discriminate|]. cbn [lit] in H.
    destruct (Ascii.eqb (Str.lower a) (Str.lower b)); [|discriminate].
    destruct (IH s H) as (pre & ->). exists (String b pre). reflexivity.
Qed.

Lemma star_suffix p k s x :
  star p k s = Some x -> exists pre t, s = (pre ++ t)%string /\ k t = Some x.
Proof.
  revert x. induction s as [|c r IH]; intros x H.
  - exists EmptyString, EmptyString. auto.
  - cbn [star] in H. destruct (p c).
    + destruct (star p k r) as [y|] eqn:Hs.
      * injection H as <-. destruct (IH y eq_refl) as (pre & t & -> & Hk).
        exists (String c pre), t. auto.
      * exists EmptyString, (String c r). auto.
    + exists EmptyString, (String c r). auto.
Qed.

(** A match hands a rest of the text to its continuation. *)
Lemma rmatch_suffix r k s x :
  rmatch r k s = Some x -> exists pre t, s = (pre ++ t)%string /\ k t = Some x.
Proof.
  revert k s x. induction r as [|p|l|a IHa b IHb|a IHa b IHb|p]; intros k s x H;
    cbn [rmatch] in H.
  - exists EmptyString, s. auto.
  - destruct s as [|c s]; [discriminate|]. destruct (p c); [|discriminate].
    exists (String c EmptyString), s. auto.
  - destruct (lit l s) as [s'|] eqn:E; [|discriminate].
    destruct (lit_suffix _ _ _ E) as (pre & ->). exists pre, s'. auto.
  - destruct (IHa _ _ _ H) as (pre1 & t1 & -> & H1).
    destruct (IHb _ _ _ H1) as (pre2 & t2 & -> & H2).
    exists (pre1 ++ pre2)%string, t2. rewrite string_app_assoc. auto.
  - destruct (rmatch a k s) as [y|] eqn:E.
    + injection H as <-. apply IHa, E.
    + apply IHb, H.
  - apply star_suffix in H. exact H.
Qed.

Lemma needs_quote_cls : needs_quote (Cls quote_).
Proof.
  intros k s x H. cbn [rmatch] in H. destruct s as [|c s]; [discriminate|].
  cbn [has_quote]. destruct (quote_ c); [reflexivity|discriminate].
Qed.

Lemma needs_quote_seq a b : needs_quote b -> needs_quote (Seq a b).
Proof.
  intros Hb k s x H. cbn [rmatch] in H.
  destruct (rmatch_suffix _ _ _ _ H) as (pre & t & -> & Ht).
  apply has_quote_app. exact (Hb _ _ _ Ht).
Qed.

Lemma needs_quote_no_match r s :
  needs_quote r -> has_quote s = false -> match_at r s = None.
Proof.
  intros Hr Hs. unfold match_at. destruct (rmatch r Some s) as [x|] eqn:E;
    [|reflexivity].
  apply Hr in E. congruence.
Qed.

Lemma lit_startsWith l s s' :
  lit l s = Some s' ->
  Str.startsWith (Str.toLowerCase l) (Str.toLowerCase s) = true.
Proof.
  revert s. induction l as [|a l IH]; intros s H; [reflexivity|].
  destruct s as [|b s]; [discriminate|]. cbn [lit] in H.
  cbn [Str.toLowerCase Str.startsWith].
  destruct (Ascii.eqb (Str.lower a) (Str.lower b)); [|discriminate].
  exact (IH s H).
Qed.

Lemma includes_startsWith w s :
  Str.includes w s = false -> Str.startsWith w s = false.
Proof.
  destruct s; cbn [Str.includes]; intros H; apply orb_false_iff in H; apply H.
Qed.

(** A pattern that begins with a word finds no match in a text whose
    lower-case form does not hold the lower-case form of the word. *)
Lemma word_no_match l b s :
  Str.includes (Str.toLowerCase l) (Str.toLowerCase s) = false ->
  match_at (Seq (Lit l) b) s = None.
Proof.
  intros H. unfold match_at. cbn [rmatch].
  destruct (lit l s) as [s'|] eqn:E; [|reflexivity].
  apply lit_startsWith in E. apply includes_startsWith in H. congruence.
Qed.

Lemma unquoted_tail c s : unquoted (String c s) = true -> unquoted s = true.
Proof.
  unfold unquoted. cbn [has_quote Str.toLowerCase Str.includes]. intros H.
  apply andb_true_iff in H. destruct H as [H H3].
  apply andb_true_iff in H. destruct H as [H1 H2].
  apply negb_true_iff in H1, H2, H3.
  apply orb_false_iff in H1, H2, H3.
  destruct H1 as [_ ->]. destruct H2 as [_ ->]. destruct H3 as [_ ->]. reflexivity.
Qed.

(** A pattern that matches nowhere in a text leaves the text. *)
Lemma replace_unquoted r f s :
  (forall t, unquoted t = true -> match_at r t = None) ->
  unquoted s = true -> Regex.replace r f s = s.
Proof.
  intros Hr. unfold Regex.replace. induction s as [|c s IH]; intros Hs.
  - cbn [replace_from]. rewrite (Hr EmptyString eq_refl). reflexivity.
  - cbn [replace_from]. rewrite (Hr _ Hs). f_equal.
    apply IH, (unquoted_tail c), Hs.
Qed.

Lemma patterns_need_quote_or_word :
  Forall (fun r => forall t, unquoted t = true -> match_at r t = None)
         REDACTION_PATTERNS.
Proof.
  assert (Q : forall r, needs_quote r ->
                forall t, unquoted t = true -> match_at r t = None).
  { intros r Hr t Ht. apply needs_quote_no_match; [exact Hr|].
    unfold unquoted in Ht. apply andb_true_iff in Ht. destruct Ht as [Ht _].
    apply andb_true_iff in Ht. destruct Ht as [Ht _].
    apply negb_true_iff, Ht. }
  assert (W : forall l b, (l = "Bearer" \/ l = "Basic")%string ->
                forall t, unquoted t = true -> match_at (Seq (Lit l) b) t = None).
  { intros l b Hl t Ht. apply word_no_match.
    unfold unquoted in Ht. apply andb_true_iff in Ht. destruct Ht as [Ht H3].
    apply andb_true_iff in Ht. destruct Ht as [_ H2].
    apply negb_true_iff in H2, H3. destruct Hl as [-> | ->]; assumption. }
  unfold REDACTION_PATTERNS.
  repeat (apply Forall_cons || apply Forall_nil);
    first [ apply W; auto; fail
          | apply Q; unfold quoted_value; cbn [seqs AtLeast];
            repeat apply needs_quote_seq; apply needs_quote_cls ].
Qed.

(** X27. The sanitiser redacts only what stands in quotes or after the
    words Bearer and Basic: a text with no single or double quote in it
    and with neither [bearer] nor [basic], in any case of the letters,
    is left as it is, whatever keys and values it holds. *)
Theorem sanitize_leaves_unquoted_text (text : string) :
  unquoted text = true -> _sanitize text = text.
Proof.
  intros H. unfold _sanitize.
  pose proof patterns_need_quote_or_word as P.
  induction P as [|r rs Hr _ IH]; [reflexivity|].
  cbn [fold_left]. rewrite (replace_unquoted r redact_match text Hr H). exact IH.
Qed.

Lemma sanitize_leaves_unquoted_text_witness :
  _sanitize UnquotedExamples.login = UnquotedExamples.login /\
  Str.includes "hunter2" (_sanitize UnquotedExamples.login) = true.
Proof.
  assert (H : _sanitize UnquotedExamples.login = UnquotedExamples.login)
    by (apply sanitize_leaves_unquoted_text; reflexivity).
  split; [exact H|]. rewrite H. reflexivity.
Defined.

(** ** Events at and before the cursor *)

Lemma leb_ltb_trans x y z :
  Num.leb x y = true -> Num.ltb y z = true -> Num.ltb x z = true.
Proof.
  unfold Num.leb, Num.ltb. intros H1 H2.
  apply Z.leb_le in H1. apply Z.ltb_lt in H2. apply Z.ltb_lt.
  pose proof (pow10_pos (scale x)) as Px.
  pose proof (pow10_pos (scale y)) as Py.
  pose proof (pow10_pos (scale z)) as Pz.
  apply (Z.mul_lt_mono_pos_r (Num.pow10 (scale y))); [exact Py|].
  apply Z.le_lt_trans with (mant y * Num.pow10 (scale x) * Num.pow10 (scale z)).
  - replace (mant x * Num.pow10 (scale z) * Num.pow10 (scale y))
      with (mant x * Num.pow10 (scale y) * Num.pow10 (scale z)) by ring.
    apply Z.mul_le_mono_nonneg_r; [lia|exact H1].
  - replace (mant y * Num.pow10 (scale x) * Num.pow10 (scale z))
      with (mant y * Num.pow10 (scale z) * Num.pow10 (scale x)) by ring.
    replace (mant z * Num.pow10 (scale x) * Num.pow10 (scale y))
      with (mant z * Num.pow10 (scale y) * Num.pow10 (scale x)) by ring.
    apply Z.mul_lt_mono_pos_r; [exact Px|exact H2].
Qed.

(** X28. A read never returns an event at or before its cursor: every
    stored event in the result is a retained event whose sequence is
    above the sequence the read started at and above the earliest
    retained sequence, whatever happened to the buffer since the cursor
    was made. *)
Theorem read_returns_only_later_events (now : string) (options : ReadOptions)
    (b : LogBuffer) :
  exists (startSeq : jsnum) (r : ReadResult) (stored : list LogEvent),
    start_of (cursor options) = Returns startSeq /\
    read now options b = Returns (b, r) /\
    events r = warning_of now startSeq b ++ map (view_of options) stored /\
    Forall (fun e => In e (_events b) /\
                     Num.ltb startSeq (of_Z (seq e)) = true /\
                     _earliestRetainedSeq b < seq e)
           stored.
Proof.
  destruct (read_returns now options b) as (s & Hs & Hr).
  destruct (scan_added options (effective_start s b) (_events b) (scan_start now s b))
    as (added & H1 & _ & H3).
  exists s, (read_from now options s b), added.
  split; [exact Hs|]. split; [exact Hr|]. split.
  - rewrite read_from_events, H1. reflexivity.
  - eapply Forall_impl; [|exact H3]. cbn beta. intros e [Hin Hc].
    apply candidate_later in Hc. split; [exact Hin|]. split.
    + apply (leb_ltb_trans _ (effective_start s b)); [apply leb_max_l|exact Hc].
    + apply Z.ltb_lt. rewrite <- ltb_of_Z.
      apply (leb_ltb_trans _ (effective_start s b)); [apply leb_max_r|exact Hc].
Qed.

(** ** A reader that follows the log *)

Lemma append_fits now lvl src msg payload b :
  zlength (_events b) + 1 <= maxEvents (_config b) ->
  _totalBytes b + _size (make_event now (_seq b + 1) lvl src msg payload)
    <= maxBytes (_config b) ->
  fst (append now lvl src msg payload b) =
  mkBuffer (_config b)
           (_events b ++ [make_event now (_seq b + 1) lvl src msg payload])
           (_seq b + 1)
           (_totalBytes b + _size (make_event now (_seq b + 1) lvl src msg payload))
           (_droppedCount b) (_earliestRetainedSeq b).
Proof.
  intros H1 H2. unfold append, _enforceRetention.
  cbn [fst _config _events _seq _totalBytes _droppedCount _earliestRetainedSeq].
  apply enforce_fits; [|exact H2].
  rewrite zlength_app. unfold zlength at 2. cbn [List.length]. lia.
Qed.

(** X29. A reader that has caught up sees the next event. On a buffer
    made by calls of [append] and [clear], when [append] adds an event
    that fits under both bounds, a read from the cursor of the sequence
    counter before the call returns that event and nothing else, if the
    event passes the filters of the read and fits under its byte cap;
    [has_more] is false and the new cursor encodes the sequence of the
    event. The sequence counter is below 2^53. *)
Theorem reader_sees_new_event (config : ConfigArg) (ops : list op)
    (now lvl src msg : string) (payload : jval) (now' : string)
    (l m : option Z) (lv sv : option (list string)) (i : option bool) :
  let b := fst (run_ops ops (new_LogBuffer config)) in
  let e := make_event now (_seq b + 1) lvl src msg payload in
  let b' := fst (append now lvl src msg payload b) in
  let options := mkOptions (Some (_encodeCursor (of_Z (_seq b)))) l m lv sv i in
  _seq b + 1 < 2 ^ 53 ->
  eventCount (stats b) + 1 <= maxEvents (_config b) ->
  totalBytes (stats b) + _size e <= maxBytes (_config b) ->
  filtered_out lv (level e) = false ->
  filtered_out sv (source e) = false ->
  events_size [] + eventSize (view_of options e) <= effectiveMaxBytes options ->
  read now' options b' =
    Returns (b', mkResult (_encodeCursor (of_Z (_seq b + 1))) false
                          [view_of options e] false).
Proof.
  intros b e b' options Hlt He Hbytes Hlv Hsv Hfit.
  unfold stats in He, Hbytes. cbn [eventCount totalBytes] in He, Hbytes.
  assert (Hb : reachable b) by apply run_ops_reachable, reach_new.
  pose proof (reachable_invariant b Hb) as I.
  pose proof (inv_earliest _ I) as Hear.
  pose proof (inv_last _ I) as Hl. rewrite Forall_forall in Hl.
  assert (Hb' : reachable b') by (apply reach_append, Hb).
  assert (Eb : b' = mkBuffer (_config b) (_events b ++ [e]) (_seq b + 1)
                             (_totalBytes b + _size e) (_droppedCount b)
                             (_earliestRetainedSeq b))
    by (apply append_fits; assumption).
  assert (Hs : start_of (cursor options) = Returns (of_Z (_seq b))).
  { cbn [options cursor]. rewrite start_of_some. apply cursor_round_trip.
    pose proof pow_2_53_lt. lia. }
  rewrite (read_start _ _ _ _ Hs). do 2 f_equal.
  rewrite (result_eta (read_from _ _ _ _)).
  rewrite read_from_has_more_exact by exact Hb'.
  rewrite read_from_events, read_from_truncated, read_from_cursor.
  assert (Hscan : scan options (effective_start (of_Z (_seq b)) b') (_events b')
                       (scan_start now' (of_Z (_seq b)) b')
                  = mkScan [view_of options e]
                           (events_size [] + eventSize (view_of options e))
                           (of_Z (_seq b + 1)) false false).
  { assert (Heff : effective_start (of_Z (_seq b)) b' = of_Z (_seq b)).
    { unfold effective_start. rewrite Eb. cbn [_earliestRetainedSeq].
      rewrite max_of_Z. f_equal. lia. }
    assert (Hp : points_to_dropped (of_Z (_seq b)) b' = false).
    { unfold points_to_dropped. rewrite Eb. cbn [_earliestRetainedSeq].
      rewrite !ltb_of_Z.
      replace (_seq b <? _earliestRetainedSeq b) with false
        by (symmetry; apply Z.ltb_ge; lia).
      apply andb_false_r. }
    unfold scan_start. rewrite Hp, Heff.
    replace (_events b') with (_events b ++ [e]) by (rewrite Eb; reflexivity).
    rewrite scan_skip_all
      by (apply Forall_forall; intros x Hx; apply not_candidate_upto, Hl, Hx).
    rewrite scan_candidate.
    - cbn [s_currentBytes s_events s_lastSeq s_has_more s_truncated].
      rewrite (gtb_le _ _ Hfit).
      replace (zlength (@nil EventView) >=? effectiveLimit options) with false
        by (symmetry; apply geb_lt; pose proof (effectiveLimit_range options);
            change (zlength (@nil EventView)) with 0; lia).
      cbn [scan app]. unfold e at 3. rewrite make_event_seq. reflexivity.
    - unfold candidate. cbn [options levels sources]. rewrite Hlv, Hsv, leb_of_Z.
      unfold e. rewrite make_event_seq.
      replace (_seq b + 1 <=? _seq b) with false by (symmetry; apply Z.leb_gt; lia).
      reflexivity. }
  rewrite Hscan. cbn [s_lastSeq s_events s_truncated].
  replace (_seq b') with (_seq b + 1) by (rewrite Eb; reflexivity).
  rewrite ltb_of_Z, Z.ltb_irrefl. reflexivity.
Qed.

Lemma reader_sees_new_event_witness :
  let b := ReadMoreExamples.two_infos in
  let b' := fst (append Examples.T0 "info" "test" "Message 3" JNull b) in
  exists v,
    read Examples.T0 (page (Some (_encodeCursor (of_Z 2))) 5) b' =
      Returns (b', mkResult (_encodeCursor (of_Z 3)) false [v] false) /\
    v_message v = "Message 3"%string.
Proof.
  cbn zeta.
  exists (view_of (page (Some (_encodeCursor (of_Z 2))) 5)
                  (make_event Examples.T0 3 "info" "test" "Message 3" JNull)).
  split; [|vm_compute; reflexivity].
  apply (reader_sees_new_event no_config (Examples.messages 1 2) Examples.T0
           "info" "test" "Message 3" JNull Examples.T0 (Some 5) None None None None).
  - vm_compute. reflexivity.
  - vm_compute. discriminate.
  - vm_compute. discriminate.
  - reflexivity.
  - reflexivity.
  - vm_compute. discriminate.
Defined.

(** ** The cursor of a read and the sequence counter *)

(** X12. After any calls of [append] and [clear] on a new buffer that
    leave the sequence counter below 2^53, a read that starts at a
    whole sequence number, 2^53 at most, reports [has_more] exactly when
    the sequence that its cursor encodes is below the sequence counter,
    whether the events after it pass the filters of the read or not.
    That sequence is a whole number from 0 to 2^53, not below the start
    of the read, and the cursor decodes to it. *)
Theorem has_more_means_cursor_behind (config : ConfigArg) (ops : list op)
    (now : string) (options : ReadOptions) (k0 : Z) :
  let b := fst (run_ops ops (new_LogBuffer config)) in
  currentSeq (stats b) < 2 ^ 53 ->
  start_of (cursor options) = Returns (of_Z k0) ->
  k0 <= 2 ^ 53 ->
  exists (r : ReadResult) (lastSeq : Z),
    read now options b = Returns (b, r) /\
    r_cursor r = _encodeCursor (of_Z lastSeq) /\
    0 <= lastSeq <= 2 ^ 53 /\
    k0 <= lastSeq /\
    _decodeCursor (r_cursor r) = Returns (of_Z lastSeq) /\
    has_more r = (lastSeq <? currentSeq (stats b)).
Proof.
  intros b Hlt Hs Hk0. unfold stats in *. cbn [currentSeq] in *.
  assert (Hb : reachable b) by apply run_ops_reachable, reach_new.
  pose proof (reachable_invariant b Hb) as I.
  pose proof (inv_earliest _ I) as He.
  pose proof (inv_last _ I) as Hl. rewrite Forall_forall in Hl.
  destruct (scan_prefix_last options (effective_start (of_Z k0) b) (_events b)
              (scan_start now (of_Z k0) b)) as (n & _ & _ & Hlast).
  cbn [scan_start s_lastSeq] in Hlast. unfold effective_start at 3 in Hlast.
  rewrite max_of_Z, last_map_of_Z in Hlast.
  set (returned := firstn n (filter (candidate options (effective_start (of_Z k0) b))
                                    (_events b))) in Hlast.
  set (k := last (map seq returned) (Z.max k0 (_earliestRetainedSeq b))) in Hlast.
  assert (Hrange : Z.max k0 (_earliestRetainedSeq b) <= k <= 2 ^ 53).
  { destruct (last_In_or_default (map seq returned)
                (Z.max k0 (_earliestRetainedSeq b))) as [H|H]; fold k in H; [lia|].
    apply in_map_iff in H. destruct H as (e & <- & Hin).
    assert (Hret : Forall (fun e => In e (_events b) /\
                            candidate options (effective_start (of_Z k0) b) e = true)
                          returned).
    { apply Forall_firstn, Forall_forall. intros x Hx. apply filter_In, Hx. }
    rewrite Forall_forall in Hret. destruct (Hret e Hin) as [Hin' Hc].
    clear Hin. rename Hin' into Hin.
    specialize (Hl e Hin). apply candidate_later in Hc. unfold effective_start in Hc.
    rewrite max_of_Z, ltb_of_Z in Hc. apply Z.ltb_lt in Hc. lia. }
  pose proof Hlast as Hk.
  exists (read_from now options (of_Z k0) b), k.
  split; [apply (read_start _ _ _ _ Hs)|].
  rewrite read_from_cursor, Hk. split; [reflexivity|].
  split; [lia|]. split; [lia|]. split.
  - apply cursor_round_trip. pose proof pow_2_53_lt. lia.
  - rewrite read_from_has_more_exact by exact Hb. rewrite Hk. apply ltb_of_Z.
Qed.

Lemma has_more_means_cursor_behind_witness :
  let b := ReadMoreExamples.two_infos in
  exists (r : ReadResult) (lastSeq : Z),
    read Examples.T0 no_options b = Returns (b, r) /\
    r_cursor r = _encodeCursor (of_Z lastSeq) /\
    0 <= lastSeq <= 2 ^ 53 /\
    0 <= lastSeq /\
    _decodeCursor (r_cursor r) = Returns (of_Z lastSeq) /\
    has_more r = (lastSeq <? currentSeq (stats b)).
Proof.
  refine (has_more_means_cursor_behind no_config (Examples.messages 1 2)
            Examples.T0 no_options 0 _ _ _).
  - vm_compute. reflexivity.
  - reflexivity.
  - vm_compute. discriminate.
Defined.

(** ** A header in a message *)

Local Open Scope string_scope.



















(** ** Replacing where a pattern matches *)






(** ** The match of a header *)


















(** ** The other patterns on the rewritten header *)














